(** * Video transcription app: media pipeline, chunked transcription,
      transcript editing and export

    A shallow embedding of
      - [src/services/compressionService.js]   (settings, audio extraction),
      - [src/services/transcriptionService.js] (chunked transcription, export text),
      - [src/services/exportService.js] and [src/components/ExportModal.jsx],
      - the transcription panel (search, editing, copying, times) and the
        player's captions,
      - [transcriptionDbService.js] ([saveTranscription]),
      - [src/pages/TranscriptionPage.jsx] ([startTranscription]) and the
        compression panel's [startCompression],
    and the properties proved about them.

    JavaScript numbers are modelled as exact rationals ([Q]); byte sizes are
    integers ([Z]) injected into [Q] where the source divides them.  Every
    comparison of the source against a threshold is taken on the exact value. *)

From Stdlib Require Import ZArith QArith Qround Qminmax Lqa Lia.
From Stdlib Require Import List String Ascii Bool DecimalString.
Import ListNotations.

Local Open Scope Q_scope.

(* ===================================================================== *)
(** * JavaScript primitives used by the sources *)
(* ===================================================================== *)

Module Js.

(** [x > y] and [x < y] on numbers. *)
Definition gt (x y : Q) : bool := negb (Qle_bool x y).
Definition lt (x y : Q) : bool := negb (Qle_bool y x).

(** Truthiness of a number: [0] is falsy. *)
Definition truthy (x : Q) : bool := negb (Qeq_bool x 0).

(** [Math.floor], [Math.ceil], [Math.round] (halves round up). *)
Definition floor (x : Q) : Z := Qfloor x.
Definition ceil (x : Q) : Z := Qceiling x.
Definition round (x : Q) : Z := Qfloor (x + (1 # 2)).

(** [String(n)] for an integral number. *)
Definition numToString (n : Z) : string :=
  DecimalString.NilZero.string_of_int (Z.to_int n).

(** The line feed of ['\n']. *)
Definition nl : string := String (ascii_of_nat 10) EmptyString.

(** [s.includes(sub)] *)
Definition includes (s sub : string) : bool :=
  match String.index 0 sub s with Some _ => true | None => false end.

(** A thrown [Error]: its [message] and, for HTTP client errors, its [code]. *)
Record Error : Type := mkError { message : string; code : option string }.

(** [new Error(msg)] *)
Definition newError (msg : string) : Error := mkError msg None.

(** A [Blob]: byte length and MIME type. *)
Record Blob : Type := mkBlob { blobSize : Z; blobType : string }.

(** A [File]: a blob with a name. *)
Record File : Type := mkFile { size : Z; name : string; type : string }.

(** What a run does to the outside world, in order. *)
Inductive Event : Type :=
| Progress (percent : Q) (stage : string)  (* progressCallback(percent, stage) *)
| Console (level text : string)            (* console.error / warn / log *)
| PlaybackRate (rate : Z)                  (* video.playbackRate = rate *)
| FFmpegIsLoaded                           (* ffmpeg.isLoaded() *)
| FFmpegLoad                               (* ffmpeg.load() *)
| FFmpegFS (op file : string)              (* ffmpegInstance.FS(op, file, ..) *)
| FFmpegRun (args : list string)           (* ffmpegInstance.run(..) *)
| BlobSlice (first last : Z)               (* audioBlob.slice(first, last) *)
| FormAppendFile (bytes : Z) (file : string) (* formData.append('file', blob, file) *)
| FormAppend (key value : string)          (* formData.append(key, value) *)
| SaveAs (file : string) (content : option string).
    (* saveAs(blob, file); the text of a text/plain blob *)

(** How an awaited computation ends: the promise resolves, rejects (or the
    body throws), or never settles. *)
Inductive Outcome (A : Type) : Type :=
| Resolved (a : A)
| Rejected (e : Error)
| Pending.
Arguments Resolved {A} a.
Arguments Rejected {A} e.
Arguments Pending {A}.

(** An asynchronous computation: the events it performs and its outcome. *)
Definition Async (A : Type) : Type := (list Event * Outcome A)%type.

Definition ret {A} (a : A) : Async A := ([], Resolved a).

Definition bind {A B} (m : Async A) (f : A -> Async B) : Async B :=
  match snd m with
  | Resolved a => (fst m ++ fst (f a), snd (f a))
  | Rejected e => (fst m, Rejected e)
  | Pending => (fst m, Pending)
  end.

Definition emit (e : Event) : Async unit := ([e], Resolved tt).

(** [throw e] / [reject(e)] *)
Definition throw {A} (e : Error) : Async A := ([], Rejected e).

(** A promise nothing ever settles. *)
Definition never {A} : Async A := ([], Pending).

(** [try { m } catch (error) { h error }] *)
Definition try_catch {A} (m : Async A) (h : Error -> Async A) : Async A :=
  match snd m with
  | Rejected e => (fst m ++ fst (h e), snd (h e))
  | _ => m
  end.

(** [if (progressCallback) progressCallback(percent, stage)]: the callback
    is present or [null]. *)
Definition report (progressCallback : bool) (percent : Q) (stage : string)
  : Async unit :=
  if progressCallback then emit (Progress percent stage) else ret tt.

Definition console (level text : string) : Async unit :=
  emit (Console level text).

(** The percentages the progress callback received, in order. *)
Definition percents (trace : list Event) : list Q :=
  flat_map (fun ev => match ev with Progress p _ => [p] | _ => [] end) trace.

(** [a || b] on numbers: [b] when [a] is missing or [0]. *)
Definition orElse (a : option Q) (b : Q) : Q :=
  match a with
  | Some x => if truthy x then x else b
  | None => b
  end.

(** [a || b] on strings: [b] when [a] is missing or empty. *)
Definition orElseStr (a : option string) (b : string) : string :=
  match a with
  | Some x => if (String.length x =? 0)%nat then b else x
  | None => b
  end.

(** [x % y]: the remainder has the sign of the dividend. *)
Definition rem (x y : Q) : Q :=
  let q := x / y in
  let t := if Qle_bool 0 q then Qfloor q else Qceiling q in
  x - inject_Z t * y.

(** [s.toLowerCase()] on ASCII letters. *)
Definition lowerChar (c : ascii) : ascii :=
  let n := nat_of_ascii c in
  if ((65 <=? n) && (n <=? 90))%nat then ascii_of_nat (n + 32) else c.

Fixpoint toLowerCase (s : string) : string :=
  match s with
  | EmptyString => EmptyString
  | String c rest => String (lowerChar c) (toLowerCase rest)
  end.

(** [s.padStart(n, '0')] *)
Definition padStart0 (n : nat) (s : string) : string :=
  String.concat "" (repeat "0"%string (n - String.length s)) ++ s.

(** [array.map((x, index) => f(x, index))] *)
Fixpoint mapi_from {A B} (f : A -> Z -> B) (index : Z) (l : list A) : list B :=
  match l with
  | [] => []
  | x :: rest => f x index :: mapi_from f (index + 1) rest
  end.

Definition mapi {A B} (f : A -> Z -> B) (l : list A) : list B :=
  mapi_from f 0 l.

(** [s.split('.')[0]] *)
Fixpoint beforeDot (s : string) : string :=
  match s with
  | EmptyString => EmptyString
  | String c rest =>
      if Ascii.eqb c "."%char then EmptyString else String c (beforeDot rest)
  end.

(** Adjacent values never decrease. *)
Fixpoint nondecreasing (l : list Q) : Prop :=
  match l with
  | [] => True
  | x :: rest =>
      match rest with
      | [] => True
      | y :: _ => x <= y /\ nondecreasing rest
      end
  end.

End Js.

Declare Scope async_scope.
Delimit Scope async_scope with async.
Notation "x <- c ;; k" := (Js.bind c (fun x => k))
  (at level 61, c at next level, right associativity) : async_scope.
Notation "c ;; k" := (Js.bind c (fun _ => k))
  (at level 61, right associativity) : async_scope.
Local Open Scope string_scope.
Local Open Scope async_scope.
Local Open Scope Q_scope.

(* ===================================================================== *)
(** * compressionService.js *)
(* ===================================================================== *)

Module Compression.

(** The three quality strings ['low'], ['medium'], ['high']. *)
Inductive Quality : Type := low | medium | high.

Record CompressionSettings : Type := mkSettings {
  quality      : Quality;
  maxWidth     : Z;
  maxHeight    : Z;
  frameRate    : Z;
  audioBitrate : string
}.

(** [1024 * 1024 * 1024] *)
Definition GB : Q := 1024 * 1024 * 1024.

Definition getRecommendedCompressionSettings (fileSizeBytes : Q)
  : CompressionSettings :=
  let fileSizeGB := fileSizeBytes / (1024 * 1024 * 1024) in
  if Js.gt fileSizeGB 4 then
    mkSettings low 854 480 24 "96k"
  else if Js.gt fileSizeGB 2 then
    mkSettings low 1280 720 24 "128k"
  else if Js.gt fileSizeGB 1 then
    mkSettings medium 1280 720 30 "128k"
  else
    mkSettings high 1920 1080 30 "192k".

(** Order of the tiers: Low < Medium < High. *)
Definition tierRank (q : Quality) : nat :=
  match q with low => 0 | medium => 1 | high => 2 end.

(** 600MB, in bytes. *)
Definition size_600MB : Q := 600 * 1024 * 1024.

(** ** The browser as seen by the native extractor *)

(** How playback finishes once [video.play()] went through. *)
Inductive PlaybackEnd : Type :=
| Ended (recorded : Z) (seconds : Q)
    (* 'ended' fires; the recorder stops with [recorded] bytes after
       [seconds] of processing *)
| MediaError (msg : option string)   (* 'error' fires, with [e.message] *)
| Stalls.                            (* neither event fires *)

(** Where the native path stops. *)
Inductive NativeEnv : Type :=
| SetupThrows (msg : string)
    (* document.createElement or URL.createObjectURL throws *)
| NoMetadata
    (* 'loadedmetadata' never fires *)
| AudioGraphThrows (msg : string)
    (* new AudioContext, createMediaElementSource,
       createMediaStreamDestination or connect throws *)
| RecorderThrows (msg : string)
    (* new MediaRecorder or recorder.start throws *)
| PlayRejected (e : Js.Error)
    (* video.play() rejects *)
| Plays (duration : Q) (positions : list Q) (fin : PlaybackEnd).
    (* playback runs; [positions] are the values of video.currentTime at
       the firings of the 100ms interval *)

(** The engine as seen by the fallback: the message each step fails with,
    if it fails. *)
Record FFmpegEnv : Type := mkFFmpegEnv {
  isLoaded      : bool;
  loadFails     : option string;
  writeFails    : option string;   (* fetchFile / FS('writeFile') *)
  runFails      : option string;
  readFails     : option string;
  unlinkFails   : option string;
  outputBytes   : Z
}.

Record Env : Type := mkEnv {
  native          : NativeEnv;
  isTypeSupported : string -> bool;   (* MediaRecorder.isTypeSupported *)
  toFixed         : Q -> nat -> string; (* Number.prototype.toFixed *)
  ffmpeg          : FFmpegEnv
}.

(** An engine step: performed, then failing or not. *)
Definition ffstep (ev : Js.Event) (fails : option string) : Js.Async unit :=
  Js.emit ev ;;
  match fails with
  | Some msg => Js.throw (Js.newError msg)
  | None => Js.ret tt
  end.

Definition ensureFFmpegLoaded (env : Env) : Js.Async unit :=
  Js.try_catch
    (Js.emit Js.FFmpegIsLoaded ;;
     if isLoaded (ffmpeg env) then Js.ret tt
     else ffstep Js.FFmpegLoad (loadFails (ffmpeg env)))
    (fun error =>
       Js.console "error" "Failed to load FFmpeg:" ;;
       Js.throw (Js.newError "Failed to initialize video processing. Your browser may not support this feature.")).

Definition audioMimeTypes : list string :=
  [ "audio/webm;codecs=opus"; "audio/webm"; "audio/ogg;codecs=opus";
    "audio/ogg"; "audio/mp4" ].

(** The first supported type of the list, ['audio/webm'] if there is none. *)
Definition selectedMimeType (env : Env) : string :=
  match find (isTypeSupported env) audioMimeTypes with
  | Some t => t
  | None => "audio/webm"
  end.

(** The playback rate chosen from the file size. *)
Definition playbackRate (videoFile : Js.File) : Z :=
  let fileSizeGB := inject_Z (Js.size videoFile) / (1024 * 1024 * 1024) in
  if Js.gt fileSizeGB 2 then 16
  else if Js.gt fileSizeGB 1 then 8
  else if Js.gt fileSizeGB (1 # 2) then 4
  else 2.

(** One firing of the progress interval. *)
Definition progressTick (cb : bool) (duration currentTime : Q)
  : Js.Async unit :=
  if Js.truthy duration && Js.truthy currentTime then
    let percent := (currentTime / duration) * 60 in
    Js.report cb (30 + percent)
      ("Extracting audio... "
         ++ Js.numToString (Js.round ((currentTime / duration) * 100)) ++ "%")
  else Js.ret tt.

Fixpoint progressTicks (cb : bool) (duration : Q) (positions : list Q)
  : Js.Async unit :=
  match positions with
  | [] => Js.ret tt
  | t :: rest => progressTick cb duration t ;; progressTicks cb duration rest
  end.

Definition nativeBrowserAudioExtraction
    (env : Env) (videoFile : Js.File) (progressCallback : bool)
  : Js.Async Js.Blob :=
  Js.report progressCallback 10 "Setting up native audio processing..." ;;
  (* createElement('video'), URL.createObjectURL *)
  match native env with
  | SetupThrows msg =>
      Js.throw (Js.newError ("Native audio extraction setup failed: " ++ msg))
  | _ => Js.ret tt
  end ;;
  (* video.onloadedmetadata *)
  match native env with NoMetadata => Js.never | _ => Js.ret tt end ;;
  Js.report progressCallback 20 "Preparing audio extraction..." ;;
  match native env with
  | AudioGraphThrows msg =>
      Js.throw (Js.newError ("Audio context setup failed: " ++ msg))
  | _ => Js.ret tt
  end ;;
  Js.report progressCallback 30 "Starting optimized audio extraction..." ;;
  match native env with
  | RecorderThrows msg =>
      Js.throw (Js.newError ("Audio context setup failed: " ++ msg))
  | _ => Js.ret tt
  end ;;
  Js.emit (Js.PlaybackRate (playbackRate videoFile)) ;;
  (* video.play().catch(reject) *)
  match native env with
  | PlayRejected e => Js.throw e
  | Plays duration positions fin =>
      progressTicks progressCallback duration positions ;;
      match fin with
      | Ended recorded seconds =>
          (* video.onended, then recorder.onstop *)
          Js.report progressCallback 90 "Finalizing audio extraction..." ;;
          Js.console "log"
            ("Audio extraction completed in " ++ toFixed env seconds 2%nat
               ++ " seconds") ;;
          Js.report progressCallback 100
            ("Audio extracted in " ++ toFixed env seconds 1%nat ++ "s") ;;
          Js.ret (Js.mkBlob recorded (selectedMimeType env))
      | MediaError msg =>
          (* video.onerror *)
          Js.throw (Js.newError
            ("Video loading failed: "
               ++ match msg with
                  | Some m => if (String.length m =? 0)%nat
                              then "Unknown error" else m
                  | None => "Unknown error"
                  end))
      | Stalls => Js.never
      end
  | _ => Js.never
  end.

Definition ffmpegArgs : list string :=
  [ "-i"; "input.mp4"; "-vn"; "-acodec"; "libmp3lame"; "-ac"; "1";
    "-ar"; "16000"; "-ab"; "64k"; "-f"; "mp3"; "output.mp3" ].

Definition ffmpegAudioExtraction
    (env : Env) (videoFile : Js.File) (progressCallback : bool)
  : Js.Async Js.Blob :=
  Js.try_catch
    (ensureFFmpegLoaded env ;;
     Js.report progressCallback 20 "Using FFmpeg fallback..." ;;
     ffstep (Js.FFmpegFS "writeFile" "input.mp4") (writeFails (ffmpeg env)) ;;
     Js.report progressCallback 40 "Processing with FFmpeg..." ;;
     ffstep (Js.FFmpegRun ffmpegArgs) (runFails (ffmpeg env)) ;;
     Js.report progressCallback 80 "Reading extracted audio..." ;;
     ffstep (Js.FFmpegFS "readFile" "output.mp3") (readFails (ffmpeg env)) ;;
     ffstep (Js.FFmpegFS "unlink" "input.mp4") (unlinkFails (ffmpeg env)) ;;
     ffstep (Js.FFmpegFS "unlink" "output.mp3") (unlinkFails (ffmpeg env)) ;;
     Js.report progressCallback 100 "FFmpeg audio extraction complete" ;;
     Js.ret (Js.mkBlob (outputBytes (ffmpeg env)) "audio/mp3"))
    (fun error =>
       Js.throw (Js.newError
         ("FFmpeg audio extraction failed: " ++ Js.message error))).

Definition extractAudioOnly
    (env : Env) (videoFile : Js.File) (progressCallback : bool)
  : Js.Async Js.Blob :=
  Js.try_catch
    (Js.report progressCallback 5 "Initializing fast audio extraction..." ;;
     nativeBrowserAudioExtraction env videoFile progressCallback)
    (fun error =>
       Js.console "error" "Error extracting audio:" ;;
       Js.console "warn"
         "Native audio extraction failed, falling back to FFmpeg..." ;;
       ffmpegAudioExtraction env videoFile progressCallback).

(** ** Vocabulary of the statements *)

(** The events of the engine path. *)
Definition isEngineEvent (ev : Js.Event) : bool :=
  match ev with
  | Js.FFmpegIsLoaded | Js.FFmpegLoad | Js.FFmpegFS _ _ | Js.FFmpegRun _ => true
  | _ => false
  end.

(** The number of engine attempts of a run: each one starts by asking
    [ffmpeg.isLoaded()]. *)
Definition engineAttempts (trace : list Js.Event) : nat :=
  List.length
    (filter (fun ev => match ev with Js.FFmpegIsLoaded => true | _ => false end)
            trace).

(** The percentage one firing of the interval reports. *)
Definition tickPercent (duration currentTime : Q) : Q :=
  30 + (currentTime / duration) * 60.

(** Forward playback: the duration is positive and the observed positions
    advance from 0 to the duration. *)
Definition playbackAdvances (env : Env) : Prop :=
  match native env with
  | Plays d ps _ =>
      0 < d /\ Forall (fun t => 0 <= t /\ t <= d) ps /\ Js.nondecreasing ps
  | _ => True
  end.

(** The native path threw while setting up, before its 30% report. *)
Definition nativeFailsInSetup (env : Env) : Prop :=
  match native env with
  | SetupThrows _ | AudioGraphThrows _ => True
  | _ => False
  end.

(** The outcome of the native path, by what the browser does. *)
Definition nativeOutcome (env : Env) : Js.Outcome Js.Blob :=
  match native env with
  | SetupThrows msg =>
      Js.Rejected
        (Js.newError ("Native audio extraction setup failed: " ++ msg))
  | NoMetadata => Js.Pending
  | AudioGraphThrows msg | RecorderThrows msg =>
      Js.Rejected (Js.newError ("Audio context setup failed: " ++ msg))
  | PlayRejected e => Js.Rejected e
  | Plays _ _ (Ended recorded _) =>
      Js.Resolved (Js.mkBlob recorded (selectedMimeType env))
  | Plays _ _ (MediaError msg) =>
      Js.Rejected
        (Js.newError
           ("Video loading failed: "
              ++ match msg with
                 | Some m => if (String.length m =? 0)%nat
                             then "Unknown error" else m
                 | None => "Unknown error"
                 end))
  | Plays _ _ Stalls => Js.Pending
  end.

(** The percentages reported by the native path. *)
Definition nativePercents (env : Env) : list Q :=
  match native env with
  | SetupThrows _ | NoMetadata => [10]
  | AudioGraphThrows _ => [10; 20]
  | RecorderThrows _ | PlayRejected _ => [10; 20; 30]
  | Plays d ps fin =>
      ([10; 20; 30] ++ Js.percents (fst (progressTicks true d ps))
         ++ match fin with Ended _ _ => [90; 100] | _ => [] end)%list
  end.

(** ** Sample runs *)

Definition healthyFFmpeg : FFmpegEnv :=
  mkFFmpegEnv false None None None None None 480000.

Definition failingFFmpeg : FFmpegEnv :=
  mkFFmpegEnv false None None (Some "Conversion failed") None None 0.

(** [toFixed] on whole numbers of seconds. *)
Definition wholeToFixed (x : Q) (digits : nat) : string :=
  Js.numToString (Js.floor x) ++ "." ++ String.concat "" (repeat "0" digits).

Definition sampleEnv (n : NativeEnv) (f : FFmpegEnv) : Env :=
  mkEnv n (fun t => String.eqb t "audio/webm") wholeToFixed f.

Definition sampleFile : Js.File :=
  Js.mkFile (50 * 1024 * 1024) "talk.mp4" "video/mp4".

(** Autoplay policy: [video.play()] rejects; the engine works. *)
Definition playRejectedEnv : Env :=
  sampleEnv (PlayRejected (Js.newError "play() request was rejected"))
            healthyFFmpeg.

(** A 12 second clip played to its end. *)
Definition playsThroughEnv : Env :=
  sampleEnv (Plays 12 [0; 3; 6; 9; 12] (Ended 96000 2)) healthyFFmpeg.

End Compression.

(* ===================================================================== *)
(** * transcriptionService.js *)
(* ===================================================================== *)

Module Transcription.

Record Segment : Type := mkSegment {
  id         : Z;
  startTime  : Q;
  endTime    : Q;
  text       : string;
  confidence : Q
}.

(** The options object: [progressCallback] tells whether a callback was
    supplied. *)
Record Options : Type := mkOptions {
  language         : option string;
  model            : option string;
  duration         : option Q;
  progressCallback : bool
}.

(** [Math.random()]: the value of its k-th call, each in [0, 1). *)
Definition Random : Type := nat -> Q.

Definition inUnitInterval (random : Random) : Prop :=
  forall k, 0 <= random k /\ random k < 1.

Definition phrases : list string :=
  [ "Welcome to our comprehensive video presentation.";
    "Today we'll be discussing the key features and capabilities of our new platform.";
    "Our application is designed to be user-friendly, intuitive, and scalable for enterprise use.";
    "Let's start by examining the dashboard interface and its various components.";
    "As you can see, the analytics section provides comprehensive insights into user behavior.";
    "Users can easily navigate between different sections using the responsive sidebar menu.";
    "One of the most powerful features is the ability to generate custom reports and visualizations.";
    "Data visualization tools help make sense of complex information and trends over time.";
    "Security is a top priority in our application design and architecture.";
    "All user data is encrypted both in transit and at rest using industry-standard protocols.";
    "The collaboration tools enable teams to work together effectively across different time zones.";
    "Real-time updates ensure everyone has access to the latest information and changes.";
    "Let's move on to the mobile experience and responsive design capabilities.";
    "Our responsive design works seamlessly across all devices and screen sizes.";
    "Push notifications keep users informed about important updates and deadlines.";
    "The offline mode allows for productivity even without a stable internet connection.";
    "Integration with third-party services extends the platform's capabilities significantly.";
    "API documentation is comprehensive, well-maintained, and includes practical examples.";
    "Performance optimization ensures fast loading times even with large datasets.";
    "Automated backup systems protect against data loss and ensure business continuity.";
    "User access controls and permissions provide granular security management.";
    "The reporting system generates detailed analytics and insights for decision making.";
    "Customizable workflows adapt to different business processes and requirements.";
    "Let's summarize what we've covered in today's comprehensive demonstration.";
    "Thank you for watching this detailed presentation of our platform capabilities." ].

(** [phrases[k]]; out of range it is [undefined]. *)
Definition phraseAt (k : Z) : string :=
  if (k <? 0)%Z then "undefined" else nth (Z.to_nat k) phrases "undefined".

(** The loop of [generateOptimizedTranscription].  [remaining] is
    [segmentCount - i], so the test [i < segmentCount] is the match on it;
    [draws] counts the calls of [Math.random()] so far.  Returns the segments
    pushed from here on and the final number of draws. *)
Fixpoint segmentLoop (random : Random) (duration startOffset : Q)
    (segmentCount : Z) (remaining : nat) (i : Z)
    (currentTime : Q) (segmentId : Z) (draws : nat)
  : list Segment * nat :=
  match remaining with
  | O => ([], draws)
  | S remaining' =>
      if Js.lt currentTime (startOffset + duration) then
        let segmentDuration :=
          Qmin (8 + (random draws * 4 - 2))
               ((startOffset + duration) - currentTime) in
        let endTime := currentTime + segmentDuration in
        let phraseIndex := Z.rem (segmentId - 1) (Z.of_nat (List.length phrases)) in
        let text := phraseAt phraseIndex in
        let text :=
          if Js.gt (random (draws + 1)%nat) (8 # 10) && (i <? segmentCount - 1)%Z
          then text ++ " "
                 ++ phraseAt (Z.rem (phraseIndex + 1)
                                    (Z.of_nat (List.length phrases)))
          else text in
        let segment :=
          mkSegment segmentId currentTime endTime text
                    (random (draws + 2)%nat * (15 # 100) + (85 # 100)) in
        let rest :=
          segmentLoop random duration startOffset segmentCount remaining'
                      (i + 1)%Z endTime (segmentId + 1)%Z (draws + 3)%nat in
        (segment :: fst rest, snd rest)
      else ([], draws)
  end.

Definition generateOptimizedTranscription
    (random : Random) (draws : nat) (duration startOffset : Q)
  : list Segment * nat :=
  let currentTime := startOffset in
  let segmentId := (Js.floor (startOffset / 8) + 1)%Z in
  let avgSegmentDuration := 8 in
  let segmentCount := Js.ceil (duration / avgSegmentDuration) in
  segmentLoop random duration startOffset segmentCount
              (Z.to_nat segmentCount) 0%Z currentTime segmentId draws.

(** [20 * 1024 * 1024] *)
Definition chunkSize : Z := 20 * 1024 * 1024.

(** The loop of [transcribeAudioInChunks]; [remaining] is [totalChunks - i]. *)
Fixpoint chunkLoop (random : Random) (audioSize : Z) (options : Options)
    (totalChunks : Z) (remaining : nat) (i : Z)
    (chunks : list Segment) (draws : nat)
  : Js.Async (list Segment) :=
  match remaining with
  | O => Js.ret chunks
  | S remaining' =>
      let start := (i * chunkSize)%Z in
      let end_ := Z.min (start + chunkSize) audioSize in
      Js.emit (Js.BlobSlice start end_) ;;
      let progress := (inject_Z i / inject_Z totalChunks) * 60 in
      Js.report (progressCallback options) (25 + progress)
        ("Processing chunk " ++ Js.numToString (i + 1) ++ " of "
           ++ Js.numToString totalChunks ++ "...") ;;
      let chunkDuration :=
        Js.orElse (duration options) 60 / inject_Z totalChunks in
      let chunkResult :=
        generateOptimizedTranscription random draws chunkDuration
                                       (inject_Z i * chunkDuration) in
      chunkLoop random audioSize options totalChunks remaining' (i + 1)%Z
                (chunks ++ fst chunkResult)%list (snd chunkResult)
  end.

Definition totalChunksOf (audioSize : Z) : Z :=
  Js.ceil (inject_Z audioSize / inject_Z chunkSize).

Definition transcribeAudioInChunks
    (random : Random) (audioBlob : Js.Blob) (options : Options)
  : Js.Async (list Segment) :=
  let totalChunks := totalChunksOf (Js.blobSize audioBlob) in
  Js.report (progressCallback options) 25
    ("Processing " ++ Js.numToString totalChunks ++ " audio chunks...") ;;
  chunks <- chunkLoop random (Js.blobSize audioBlob) options totalChunks
                      (Z.to_nat totalChunks) 0%Z [] 0%nat ;;
  Js.report (progressCallback options) 90 "Combining chunk results..." ;;
  Js.ret chunks.

(** The 200ms interval of the direct path; [elapsed] are the values of
    [Date.now() - startTime] at its firings. *)
Fixpoint directTicks (cb : bool) (baseProcessingTime : Q) (elapsed : list Q)
  : Js.Async unit :=
  match elapsed with
  | [] => Js.ret tt
  | e :: rest =>
      let progress := Qmin ((e / baseProcessingTime) * 60) 60 in
      Js.report cb (30 + progress) "Processing speech recognition..." ;;
      directTicks cb baseProcessingTime rest
  end.

Definition transcribeAudioDirect
    (random : Random) (elapsed : list Q)
    (audioBlob : Js.Blob) (options : Options)
  : Js.Async (list Segment) :=
  Js.report (progressCallback options) 30 "Sending audio for transcription..." ;;
  Js.emit (Js.FormAppendFile (Js.blobSize audioBlob) "audio.webm") ;;
  Js.emit (Js.FormAppend "language" (Js.orElseStr (language options) "en-US")) ;;
  Js.emit (Js.FormAppend "model" (Js.orElseStr (model options) "whisper-1")) ;;
  let audioSizeMB := inject_Z (Js.blobSize audioBlob) / (1024 * 1024) in
  let baseProcessingTime := Qmin (audioSizeMB * 50) 3000 in
  directTicks (progressCallback options) baseProcessingTime elapsed ;;
  Js.report (progressCallback options) 90 "Finalizing transcription..." ;;
  Js.ret (fst (generateOptimizedTranscription random 0
                 (Js.orElse (duration options) 60) 0)).

Definition transcribeAudio
    (random : Random) (elapsed : list Q)
    (audioBlob : Js.Blob) (options : Options)
  : Js.Async (list Segment) :=
  Js.try_catch
    (let audioSizeMB := inject_Z (Js.blobSize audioBlob) / (1024 * 1024) in
     let isLargeAudio := Js.gt audioSizeMB 25 in
     Js.report (progressCallback options) 10 "Preparing transcription..." ;;
     if isLargeAudio && progressCallback options then
       Js.emit (Js.Progress 20 "Processing large audio file with chunking...") ;;
       transcribeAudioInChunks random audioBlob options
     else
       transcribeAudioDirect random elapsed audioBlob options)
    (fun error =>
       Js.console "error" "Transcription error:" ;;
       if match Js.code error with
          | Some c => String.eqb c "ECONNABORTED"
          | None => false
          end
          || Js.includes (Js.message error) "timeout"
       then Js.throw (Js.newError
              "Transcription timed out. Large files may require longer processing time.")
       else Js.throw (Js.newError
              "Failed to transcribe audio. Please try again or use a smaller file.")).

(** ** Export text *)

Definition formatClock (seconds : Q) (separator : string) : string :=
  let hours := Js.floor (seconds / 3600) in
  let minutes := Js.floor (Js.rem seconds 3600 / 60) in
  let secs := Js.floor (Js.rem seconds 60) in
  let ms := Js.floor (Js.rem seconds 1 * 1000) in
  Js.padStart0 2 (Js.numToString hours) ++ ":"
    ++ Js.padStart0 2 (Js.numToString minutes) ++ ":"
    ++ Js.padStart0 2 (Js.numToString secs) ++ separator
    ++ Js.padStart0 3 (Js.numToString ms).

Definition formatSrtTime (seconds : Q) : string := formatClock seconds ",".

Definition formatVttTime (seconds : Q) : string := formatClock seconds ".".

(** [transcriptionData] may be [null]. *)
Definition formatTranscriptionForExport
    (transcriptionData : option (list Segment)) (format : string) : string :=
  match transcriptionData with
  | None => ""
  | Some data =>
      if (List.length data =? 0)%nat then ""
      else
        let lower := Js.toLowerCase format in
        if String.eqb lower "txt" then
          String.concat (Js.nl ++ Js.nl) (map text data)
        else if String.eqb lower "srt" then
          String.concat Js.nl
            (Js.mapi (fun segment index =>
                        Js.numToString (index + 1) ++ Js.nl
                          ++ formatSrtTime (startTime segment) ++ " --> "
                          ++ formatSrtTime (endTime segment) ++ Js.nl
                          ++ text segment ++ Js.nl)
                     data)
        else if String.eqb lower "vtt" then
          "WEBVTT" ++ Js.nl ++ Js.nl
            ++ String.concat (Js.nl ++ Js.nl)
                 (Js.mapi (fun segment index =>
                             Js.numToString (index + 1) ++ Js.nl
                               ++ formatVttTime (startTime segment) ++ " --> "
                               ++ formatVttTime (endTime segment) ++ Js.nl
                               ++ text segment)
                          data)
        else
          String.concat (Js.nl ++ Js.nl) (map text data)
  end.

(** ** Vocabulary of the statements *)

(** [first, first + 1, ...], [n] of them. *)
Fixpoint consecutive (first : Z) (n : nat) : list Z :=
  match n with
  | O => []
  | S k => first :: consecutive (first + 1) k
  end.

(** The byte ranges a run sliced from the blob, in order. *)
Definition slices (trace : list Js.Event) : list (Z * Z) :=
  flat_map (fun ev => match ev with Js.BlobSlice a b => [(a, b)] | _ => [] end)
           trace.

(** The sizes of the payloads a run attached as the form's file. *)
Definition submissions (trace : list Js.Event) : list Z :=
  flat_map (fun ev => match ev with Js.FormAppendFile n _ => [n] | _ => [] end)
           trace.

(** Chunked mode: the blob was sliced and never submitted whole. *)
Definition usesChunkedMode (trace : list Js.Event) : Prop :=
  slices trace <> [] /\ submissions trace = [].

(** Direct mode: the whole blob was submitted once, and never sliced. *)
Definition usesDirectMode (audioBlob : Js.Blob) (trace : list Js.Event) : Prop :=
  slices trace = [] /\ submissions trace = [Js.blobSize audioBlob].

(** [ranges] tile the bytes [from .. to): each range starts where the
    previous one ended, is non-empty and at most [chunkSize] long, and every
    range but the last is exactly [chunkSize] long. *)
Fixpoint tiles (from : Z) (ranges : list (Z * Z)) (to : Z) : Prop :=
  match ranges with
  | [] => from = to
  | (a, b) :: rest =>
      a = from /\ (a < b)%Z /\ (b - a <= chunkSize)%Z /\
      (rest <> [] -> (b - a)%Z = chunkSize) /\ tiles b rest to
  end.

(** The ranges of the chunk loop from chunk [i] on. *)
Fixpoint sliceRanges (audioSize : Z) (remaining : nat) (i : Z) : list (Z * Z) :=
  match remaining with
  | O => []
  | S remaining' =>
      ((i * chunkSize)%Z, Z.min (i * chunkSize + chunkSize) audioSize)
        :: sliceRanges audioSize remaining' (i + 1)
  end.

(** The results of the chunks from chunk [i] on, one list per chunk. *)
Fixpoint chunkResults (random : Random) (options : Options) (totalChunks : Z)
    (remaining : nat) (i : Z) (draws : nat) : list (list Segment) :=
  match remaining with
  | O => []
  | S remaining' =>
      let chunkDuration :=
        Js.orElse (duration options) 60 / inject_Z totalChunks in
      let chunkResult :=
        generateOptimizedTranscription random draws chunkDuration
                                       (inject_Z i * chunkDuration) in
      fst chunkResult
        :: chunkResults random options totalChunks remaining' (i + 1)
                        (snd chunkResult)
  end.

(** The end time of the last segment, [start] if there is none. *)
Definition finalTime (segments : list Segment) (start : Q) : Q :=
  last (map endTime segments) start.


(** ** Sample runs *)

Definition constantRandom (q : Q) : Random := fun _ => q.

(** A 60MB audio blob. *)
Definition blob60MB : Js.Blob := Js.mkBlob (60 * 1024 * 1024) "audio/webm".

Definition optionsFor (seconds : Q) (callback : bool) : Options :=
  mkOptions (Some "en-US") None (Some seconds) callback.

End Transcription.

(* ===================================================================== *)
(** * The transcription panel *)
(* ===================================================================== *)

Module Panel.
Import Transcription.

(** The component's state. *)
Record State : Type := mkState {
  searchTerm : string;
  editingId  : option Z;
  editText   : string;
  editedData : list Segment
}.

(** [{ ...item, text: newText }] *)
Definition withText (item : Segment) (newText : string) : Segment :=
  mkSegment (id item) (startTime item) (endTime item) newText (confidence item).

Definition handleEdit (item : Segment) (st : State) : State :=
  mkState (searchTerm st) (Some (id item)) (text item) (editedData st).

(** Typing in the edit box: [setEditText(e.target.value)]. *)
Definition setEditText (value : string) (st : State) : State :=
  mkState (searchTerm st) (editingId st) value (editedData st).

Definition handleSaveEdit (id_ : Z) (st : State) : State :=
  mkState (searchTerm st) None ""
    (map (fun item =>
            if (id item =? id_)%Z then withText item (editText st) else item)
         (editedData st)).

(** [edit(id, newText)]: type the text, then save it. *)
Definition edit (id_ : Z) (newText : string) (st : State) : State :=
  handleSaveEdit id_ (setEditText newText st).

(** Reading a segment back by its id: the first one that carries it. *)
Definition readText (id_ : Z) (st : State) : option string :=
  option_map text (find (fun item => (id item =? id_)%Z) (editedData st)).

End Panel.

(* ===================================================================== *)
(** * exportService.js and ExportModal.jsx *)
(* ===================================================================== *)

Module Exports.
Import Transcription.

(** The content of an export: a text, or the list of key points. *)
Inductive Content : Type :=
| Text (s : string)
| Points (l : list string).

(** The return value of [exportTranscription]. *)
Record ExportResult : Type := mkExportResult {
  success  : bool;
  filename : string
}.

(** One line of the modal's result list. *)
Record ResultEntry : Type := mkEntry {
  entryType     : string;
  entryFormat   : string;
  entryFilename : option string;
  entrySuccess  : bool;
  entryError    : option string
}.

(** [{ enabled, format }] *)
Record Config : Type := mkConfig {
  enabled : bool;
  format  : string
}.

(** The modal's state; [selectedExports] in key order. *)
Record ModalState : Type := mkModal {
  selectedExports : list (string * Config);
  isExporting     : bool;
  exportResults   : list ResultEntry;
  error           : option string
}.

Section Collaborators.

(** The two summarisers of exportService.js, as functions of the segments. *)
Variable generateSummary : list Segment -> string.
Variable generateKeyPoints : list Segment -> list string.

(** The libraries: the message [saveAs] throws for a file name and
    [Packer.toBlob] rejects with for a document title, if they fail. *)
Variable saveAsFails : string -> option string.
Variable packerFails : string -> option string.

Definition saveAs (file : string) (content : option string) : Js.Async unit :=
  Js.emit (Js.SaveAs file content) ;;
  match saveAsFails file with
  | Some msg => Js.throw (Js.newError msg)
  | None => Js.ret tt
  end.

Definition exportAsTxt (content fileName : string) : Js.Async unit :=
  saveAs (fileName ++ ".txt") (Some content).

Definition exportAsHtml (content : Content) (fileName title type_ : string)
  : Js.Async unit :=
  saveAs (fileName ++ ".html") None.

Definition exportAsDocx (content : Content) (fileName title type_ : string)
  : Js.Async unit :=
  Js.try_catch
    (match packerFails title with
     | Some msg => Js.throw (Js.newError msg)
     | None => Js.ret tt
     end ;;
     saveAs (fileName ++ ".docx") None)
    (fun error =>
       Js.console "error" "Error creating DOCX file:" ;;
       Js.throw (Js.newError
         "Failed to create DOCX file. Please try a different format.")).

(** The numbered list written for key points in a text file. *)
Definition numberedPoints (points : list string) : string :=
  String.concat (Js.nl ++ Js.nl)
    (Js.mapi (fun point index => Js.numToString (index + 1) ++ ". " ++ point)
             points).

Definition exportTranscription
    (transcriptionData : option (list Segment))
    (exportType fileFormat baseFilename : string)
  : Js.Async ExportResult :=
  Js.try_catch
    (match transcriptionData with
     | None => Js.throw (Js.newError "No transcription data available for export.")
     | Some data =>
         if (List.length data =? 0)%nat then
           Js.throw (Js.newError "No transcription data available for export.")
         else
           selected <-
             (if String.eqb exportType "full" then
                Js.ret (Text (String.concat (Js.nl ++ Js.nl) (map text data)),
                        baseFilename ++ "_full_transcript",
                        baseFilename ++ " - Full Transcript")
              else if String.eqb exportType "summary" then
                Js.ret (Text (generateSummary data),
                        baseFilename ++ "_summary",
                        baseFilename ++ " - Summary")
              else if String.eqb exportType "keypoints" then
                Js.ret (Points (generateKeyPoints data),
                        baseFilename ++ "_key_points",
                        baseFilename ++ " - Key Points")
              else Js.throw (Js.newError "Invalid export type specified.")) ;;
           let content := fst (fst selected) in
           let fileName := snd (fst selected) in
           let title := snd selected in
           let lower := Js.toLowerCase fileFormat in
           (if String.eqb lower "txt" then
              exportAsTxt
                match content with
                | Points points => numberedPoints points
                | Text t => t
                end
                fileName
            else if String.eqb lower "html" then
              exportAsHtml content fileName title exportType
            else if String.eqb lower "docx" then
              exportAsDocx content fileName title exportType
            else Js.throw (Js.newError "Invalid file format specified.")) ;;
           Js.ret (mkExportResult true (fileName ++ "." ++ fileFormat))
     end)
    (fun error =>
       Js.console "error" "Export error:" ;;
       Js.throw error).

(** The loop of [handleExportAll] over the enabled exports. *)
Fixpoint exportLoop (transcriptionData : option (list Segment))
    (baseFilename : string) (enabledExports : list (string * Config))
    (results : list ResultEntry) : Js.Async (list ResultEntry) :=
  match enabledExports with
  | [] => Js.ret results
  | (exportType, config) :: rest =>
      results' <-
        Js.try_catch
          (result <- exportTranscription transcriptionData exportType
                       (format config) baseFilename ;;
           Js.ret (results ++ [mkEntry exportType (format config)
                                       (Some (filename result)) true None])%list)
          (fun err =>
             Js.console "error" ("Export failed for " ++ exportType ++ ":") ;;
             Js.ret (results ++ [mkEntry exportType (format config) None false
                                         (Some (Js.message err))])%list) ;;
      exportLoop transcriptionData baseFilename rest results'
  end.

Definition baseFilenameOf (videoFileName : option string) : string :=
  match videoFileName with
  | Some n => if (String.length n =? 0)%nat then "transcription"
              else Js.beforeDot n
  | None => "transcription"
  end.

(** [handleExportAll], up to the state it leaves when the exports are done
    (the modal closes itself three seconds later). *)
Definition handleExportAll
    (transcriptionData : option (list Segment))
    (videoFileName : option string) (st : ModalState)
  : Js.Async ModalState :=
  let baseFilename := baseFilenameOf videoFileName in
  let enabledExports :=
    filter (fun entry => enabled (snd entry)) (selectedExports st) in
  st' <-
    Js.try_catch
      (results <- exportLoop transcriptionData baseFilename enabledExports [] ;;
       Js.ret (mkModal (selectedExports st) true results None))
      (fun err =>
         Js.console "error" "Export process failed:" ;;
         Js.ret (mkModal (selectedExports st) true []
                   (Some (Js.orElseStr (Some (Js.message err))
                            "Failed to export files. Please try again.")))) ;;
  Js.ret (mkModal (selectedExports st') false (exportResults st') (error st')).

(** ** Vocabulary of the statements *)

(** The result line an export's outcome calls for. *)
Definition entryMatches (exportType : string) (config : Config)
    (outcome : Js.Outcome ExportResult) (entry : ResultEntry) : Prop :=
  entryType entry = exportType /\ entryFormat entry = format config /\
  match outcome with
  | Js.Resolved result =>
      entrySuccess entry = true /\
      entryFilename entry = Some (filename result) /\ entryError entry = None
  | Js.Rejected err =>
      entrySuccess entry = false /\
      entryFilename entry = None /\ entryError entry = Some (Js.message err)
  | Js.Pending => False
  end.

(** What one item of the run does: its export, and the log of its failure. *)
Definition itemTrace (transcriptionData : option (list Segment))
    (baseFilename : string) (item : string * Config) : list Js.Event :=
  let run := exportTranscription transcriptionData (fst item)
               (format (snd item)) baseFilename in
  (fst run
     ++ match snd run with
        | Js.Rejected _ =>
            [Js.Console "error" ("Export failed for " ++ fst item ++ ":")]
        | _ => []
        end)%list.

End Collaborators.

(** ** Sample run *)

Definition threeExports : ModalState :=
  mkModal [ ("full", mkConfig true "txt");
            ("summary", mkConfig true "docx");
            ("keypoints", mkConfig true "txt") ]
          false [] None.

(** The Word packer is broken; saving files works. *)
Definition brokenPacker (title : string) : option string :=
  Some "Packer failed".

Definition twoSegments : list Segment :=
  [ mkSegment 1 0 8 "Welcome to our comprehensive video presentation." (9 # 10);
    mkSegment 2 8 16 "Security is a top priority." (9 # 10) ].

End Exports.

(* ===================================================================== *)
(** * Further vocabulary for the services *)
(* ===================================================================== *)

Module Observed.
Import Transcription.

(** The operations a run performed on the engine's file system, in order. *)
Definition fsOps (trace : list Js.Event) : list (string * string) :=
  flat_map (fun ev => match ev with Js.FFmpegFS op f => [(op, f)] | _ => [] end)
           trace.

(** The names of the files a run handed to [saveAs], in order. *)
Definition savedFiles (trace : list Js.Event) : list string :=
  flat_map (fun ev => match ev with Js.SaveAs f _ => [f] | _ => [] end) trace.


(** Consecutive segments do not overlap. *)
Fixpoint timeOrdered (l : list Segment) : Prop :=
  match l with
  | [] => True
  | s :: rest =>
      match rest with
      | [] => True
      | s' :: _ => endTime s <= startTime s' /\ timeOrdered rest
      end
  end.


(** The elapsed times seen by the direct path's interval: from 0 on, never
    going back. *)
Definition elapsedAdvances (elapsed : list Q) : Prop :=
  Forall (fun e => 0 <= e) elapsed /\ Js.nondecreasing elapsed.

(** [first, first + 1, ...] as numbers, [n] of them. *)
Fixpoint countFrom (first : Z) (n : nat) : list Z :=
  match n with
  | O => []
  | S k => first :: countFrom (first + 1) k
  end.

End Observed.

(* ===================================================================== *)
(** * The callers of the services *)
(* ===================================================================== *)

(** ** transcriptionService.js: [extractAudioFromVideo] *)

Module Extract.
Import Compression.

Definition tooLargeMessage : string :=
  "File too large for browser processing. Try compressing the video or using a smaller file.".

Definition corruptedMessage : string :=
  "Failed to extract audio from video. The file may be corrupted or in an unsupported format.".

(** [processingTime] is [(Date.now() - startTime) / 1000] when the blob
    arrives. *)
Definition extractAudioFromVideo
    (env : Env) (processingTime : Q)
    (videoFile : Js.File) (progressCallback : bool)
  : Js.Async Js.Blob :=
  Js.try_catch
    (Js.report progressCallback 5 "Initializing optimized audio extraction..." ;;
     audioBlob <- extractAudioOnly env videoFile progressCallback ;;
     Js.console "log"
       ("Total audio extraction time: " ++ toFixed env processingTime 2%nat
          ++ " seconds") ;;
     Js.ret audioBlob)
    (fun error =>
       Js.console "error" "Error extracting audio:" ;;
       if Js.includes (Js.message error) "out of memory"
          || Js.includes (Js.message error) "memory"
       then Js.throw (Js.newError tooLargeMessage)
       else Js.throw (Js.newError corruptedMessage)).

(** ** Sample run *)

(** Playback is refused and the engine runs out of memory. *)
Definition outOfMemoryEnv : Env :=
  sampleEnv (PlayRejected (Js.newError "play() request was rejected"))
    (mkFFmpegEnv false None None
       (Some "Cannot enlarge memory arrays") None None 0).

End Extract.

(** ** transcriptionDbService.js and [saveTranscriptionToDatabase] *)

Module Database.
Import Transcription.

(** [transcriptionMetadata], as [saveTranscriptionToDatabase] builds it. *)
Record Metadata : Type := mkMetadata {
  title               : string;
  file_name           : string;
  duration            : Q;
  language            : string;
  file_size           : Z;
  file_type           : string;
  is_large_file       : bool;
  processing_notes    : option string;
  compression_applied : bool;
  original_size       : Z
}.

(** The [options] of [saveTranscriptionToDatabase]. *)
Record SaveOptions : Type := mkSaveOptions {
  opt_title              : option string;
  opt_duration           : option Q;
  opt_language           : option string;
  opt_compressionApplied : bool;
  opt_originalSize       : option Z
}.

(** A row of the transcriptions table, as inserted. *)
Record Row : Type := mkRow {
  row_user_id   : string;
  row_title     : string;
  row_file_name : string;
  row_duration  : Q;
  row_language  : string;
  row_status    : string;
  row_file_size : Z;
  row_file_type : string
}.

(** A row of the segments table, as inserted. *)
Record SegmentRow : Type := mkSegmentRow {
  transcription_id : Z;
  start_time       : Q;
  end_time         : Q;
  row_text         : string;
  speaker          : option string;
  row_confidence   : option Q
}.

(** The backend: the signed-in user's id, and what each insert answers. *)
Record Supabase : Type := mkSupabase {
  authUser            : option string;
  insertTranscription : Row -> Z + Js.Error;   (* the new id, or the error *)
  insertSegments      : list SegmentRow -> option Js.Error
}.

(** What a run does to the backend and the console, in order. *)
Inductive Op : Type :=
| GetUser
| InsertTranscription (row : Row)
| InsertSegments (rows : list SegmentRow)
| ConsoleError (text : string).

Definition segmentRow (transcriptionId : Z) (segment : Segment) : SegmentRow :=
  mkSegmentRow transcriptionId (startTime segment) (endTime segment)
    (text segment)
    None                                  (* segment.speaker || null *)
    (if Js.truthy (confidence segment) then Some (confidence segment)
     else None).

Definition saveTranscription
    (db : Supabase) (transcriptionData : Metadata) (segments : list Segment)
  : list Op * Js.Outcome Z :=
  let caught (ops : list Op) (error : Js.Error) : list Op * Js.Outcome Z :=
    ((ops ++ [ConsoleError "Error saving transcription:"])%list,
     Js.Rejected error) in
  match authUser db with
  | None => caught [GetUser] (Js.newError "User not authenticated")
  | Some userId =>
      let row :=
        mkRow userId
          (Js.orElseStr (Some (title transcriptionData))
                        (file_name transcriptionData))
          (file_name transcriptionData)
          (duration transcriptionData)
          (Js.orElseStr (Some (language transcriptionData)) "en-US")
          "completed"
          (file_size transcriptionData)
          (file_type transcriptionData) in
      match insertTranscription db row with
      | inr transcriptionError =>
          caught [GetUser; InsertTranscription row] transcriptionError
      | inl transcriptionId =>
          let segmentsToInsert := map (segmentRow transcriptionId) segments in
          match insertSegments db segmentsToInsert with
          | Some segmentsError =>
              caught [GetUser; InsertTranscription row;
                      InsertSegments segmentsToInsert] segmentsError
          | None =>
              ([GetUser; InsertTranscription row;
                InsertSegments segmentsToInsert],
               Js.Resolved transcriptionId)
          end
      end
  end.

(** [transcriptionData.reduce((max, segment) => Math.max(max, segment.endTime), 0)] *)
Definition latestEnd (transcriptionData : list Segment) : Q :=
  fold_left (fun max segment => Qmax max (endTime segment)) transcriptionData 0.

Definition metadataOf (videoFile : Js.File) (transcriptionData : list Segment)
    (options : SaveOptions) : Metadata :=
  let fileSizeGB := inject_Z (Js.size videoFile) / (1024 * 1024 * 1024) in
  mkMetadata
    (Js.orElseStr (opt_title options) (Js.beforeDot (Js.name videoFile)))
    (Js.name videoFile)
    (Js.orElse (opt_duration options) (latestEnd transcriptionData))
    (Js.orElseStr (opt_language options) "en-US")
    (Js.size videoFile)
    (Js.type videoFile)
    (Js.gt fileSizeGB 1)
    (if Js.gt fileSizeGB 2
     then Some "Large file processed with optimized settings" else None)
    (opt_compressionApplied options || false)
    (match opt_originalSize options with
     | Some n => if (n =? 0)%Z then Js.size videoFile else n
     | None => Js.size videoFile
     end).

Definition saveTranscriptionToDatabase
    (db : Supabase) (videoFile : option Js.File)
    (transcriptionData : option (list Segment)) (options : SaveOptions)
  : list Op * Js.Outcome Z :=
  let caught (ops : list Op) (error : Js.Error) : list Op * Js.Outcome Z :=
    ((ops ++ [ConsoleError "Error saving transcription to database:"])%list,
     Js.Rejected error) in
  let missing :=
    caught [] (Js.newError "Missing required data for saving transcription") in
  match videoFile, transcriptionData with
  | Some file, Some data =>
      if (List.length data =? 0)%nat then missing
      else
        let run := saveTranscription db (metadataOf file data options) data in
        match snd run with
        | Js.Rejected error => caught (fst run) error
        | _ => run
        end
  | _, _ => missing
  end.

(** ** Vocabulary of the statements *)

(** The rows a run inserted into the transcriptions table. *)
Definition insertedRows (ops : list Op) : list Row :=
  flat_map (fun op => match op with InsertTranscription r => [r] | _ => [] end)
           ops.

(** The batches a run inserted into the segments table. *)
Definition insertedSegments (ops : list Op) : list (list SegmentRow) :=
  flat_map (fun op => match op with InsertSegments rows => [rows] | _ => [] end)
           ops.

(** The run asked the backend for something. *)
Definition touchesBackend (ops : list Op) : bool :=
  existsb (fun op => match op with ConsoleError _ => false | _ => true end) ops.

(** ** Sample runs *)

(** A signed-in user; every insert goes through, the new row gets id 7. *)
Definition sampleDb : Supabase :=
  mkSupabase (Some "user-1") (fun _ => inl 7%Z) (fun _ => None).

Definition signedOutDb : Supabase :=
  mkSupabase None (fun _ => inl 7%Z) (fun _ => None).

(** The segments table refuses the batch. *)
Definition segmentsRefusedDb : Supabase :=
  mkSupabase (Some "user-1") (fun _ => inl 7%Z)
             (fun _ => Some (Js.newError "new row violates row-level security")).

Definition noOptions : SaveOptions := mkSaveOptions None None None false None.

End Database.

(** ** The transcription panel and the player: what is shown *)

Module PanelView.
Import Transcription Panel.

Definition filteredData (st : State) : list Segment :=
  filter (fun item =>
            Js.includes (Js.toLowerCase (text item))
                        (Js.toLowerCase (searchTerm st)))
         (editedData st).

(** Typing in the search box: [setSearchTerm(e.target.value)]. *)
Definition setSearchTerm (value : string) (st : State) : State :=
  mkState value (editingId st) (editText st) (editedData st).


(** [formatTime] of the panel and of the player. *)
Definition formatTime (time : Q) : string :=
  let minutes := Js.floor (time / 60) in
  let seconds := Js.floor (Js.rem time 60) in
  Js.numToString minutes ++ ":" ++ Js.padStart0 2 (Js.numToString seconds).

(** [currentTime >= item.startTime && currentTime <= item.endTime] *)
Definition isCurrentSegment (currentTime : Q) (item : Segment) : bool :=
  Qle_bool (startTime item) currentTime && Qle_bool currentTime (endTime item).

(** The player's [getCurrentTranscription]. *)
Definition getCurrentTranscription
    (transcriptionData : list Segment) (currentTime : Q) : option Segment :=
  find (isCurrentSegment currentTime) transcriptionData.

(** ** Vocabulary of the statements *)

(** Each segment starts where the one before it ended. *)
Fixpoint contiguous (l : list Segment) : Prop :=
  match l with
  | [] => True
  | s :: rest =>
      match rest with
      | [] => True
      | s' :: _ => startTime s' = endTime s /\ contiguous rest
      end
  end.

End PanelView.

(** ** ExportModal.jsx: the selection *)

Module Modal.
Import Exports.

(** [{ ...prev, [exportType]: change(prev[exportType]) }] on an object whose
    keys are kept in insertion order. *)
Fixpoint update (exportType : string) (change : Config -> Config)
    (selected : list (string * Config)) : list (string * Config) :=
  match selected with
  | [] => []
  | (key, config) :: rest =>
      if String.eqb key exportType then (key, change config) :: rest
      else (key, config) :: update exportType change rest
  end.

Definition lookup (exportType : string) (selected : list (string * Config))
  : option Config :=
  option_map snd (find (fun entry => String.eqb (fst entry) exportType) selected).

(** Reading [prev[exportType].enabled] of a key the object does not have
    throws a TypeError: [None]. *)
Definition handleExportToggle (exportType : string) (st : ModalState)
  : option ModalState :=
  match lookup exportType (selectedExports st) with
  | None => None
  | Some _ =>
      Some (mkModal
              (update exportType
                 (fun config => mkConfig (negb (enabled config)) (format config))
                 (selectedExports st))
              (isExporting st) (exportResults st) (error st))
  end.

(** For a key the object does not have, the new entry has no [enabled]
    field, which reads as false. *)
Definition handleFormatChange (exportType format_ : string) (st : ModalState)
  : ModalState :=
  mkModal
    (match lookup exportType (selectedExports st) with
     | Some _ =>
         update exportType (fun config => mkConfig (enabled config) format_)
                (selectedExports st)
     | None => (selectedExports st ++ [(exportType, mkConfig false format_)])%list
     end)
    (isExporting st) (exportResults st) (error st).

Definition getSelectedCount (st : ModalState) : nat :=
  List.length (filter enabled (map snd (selectedExports st))).

(** The modal's initial selection. *)
Definition initialModal : ModalState :=
  mkModal [ ("full", mkConfig true "txt");
            ("summary", mkConfig true "txt");
            ("keypoints", mkConfig true "txt") ]
          false [] None.

End Modal.

(** ** TranscriptionPage.jsx: [startTranscription] *)

Module Page.
Import Transcription.

(** What a run does to the page, in order. *)
Inductive Update : Type :=
| SetIsTranscribing (b : bool)
| SetProgress (p : Q)
| SetProgressStage (stage : string)
| SetError (e : option string)
| SetTranscriptionData (data : list Segment)
| SetShowLargeFileWarning (b : bool)
| Did (ev : Js.Event).   (* what the services did besides calling back *)

(** [localStorage.getItem('transcriptionSettings')], parsed. *)
Inductive StoredSettings : Type :=
| NotStored                                  (* null, or a falsy value *)
| Malformed (msg : string)                   (* JSON.parse throws *)
| Stored (language model : option string).

Definition audioExtractionCallback (progress : Q) (stage : string)
  : list Update :=
  [SetProgress (Qmin (progress * (4 # 10)) 40); SetProgressStage stage].

Definition transcriptionCallback (progress : Q) (stage : string)
  : list Update :=
  SetProgress (50 + progress * (4 # 10))
    :: (if (String.length stage =? 0)%nat then [] else [SetProgressStage stage]).

(** A service's run as the page sees it: each progress report goes through
    the callback. *)
Definition through (callback : Q -> string -> list Update)
    (trace : list Js.Event) : list Update :=
  flat_map (fun ev => match ev with
                      | Js.Progress p stage => callback p stage
                      | _ => [Did ev]
                      end)
           trace.

(** The [catch] of [startTranscription]. *)
Definition failed (updates : list Update) (err : Js.Error)
  : list Update * Js.Outcome unit :=
  ((updates
      ++ [ Did (Js.Console "error" "Transcription failed:");
           SetError (Some ("Transcription failed: " ++ Js.message err)%string);
           SetIsTranscribing false ])%list,
   Js.Resolved tt).

(** "Extract audio or use audio file directly": the updates of the step and
    the blob it leaves in [audioBlob]. *)
Definition audioStep
    (env : Compression.Env) (processingTime : Q)
    (file : Js.File) (isAudioOnly : bool)
  : list Update * Js.Outcome Js.Blob :=
  if isAudioOnly then
    ([SetProgress 40; SetProgressStage "Using audio file directly..."],
     Js.Resolved (Js.mkBlob (Js.size file) (Js.type file)))
  else
    let run := Extract.extractAudioFromVideo env processingTime file true in
    (through audioExtractionCallback (fst run), snd run).

(** [transcriptionOptions], from the stored settings or the defaults. *)
Definition transcriptionOptions (stored : StoredSettings) (videoDuration : Q)
  : Options :=
  let settings :=
    match stored with
    | Stored language model => (language, model)
    | _ => (Some "en-US", Some "standard")
    end in
  mkOptions (fst settings) (snd settings) (Some videoDuration) true.

(** [startTranscription]; the updates of its 500ms timer are the last ones
    of a run that succeeds. *)
Definition startTranscription
    (env : Compression.Env) (processingTime : Q)
    (random : Random) (elapsed : list Q) (stored : StoredSettings)
    (videoFile : option Js.File) (isAudioOnly : bool) (videoDuration : Q)
  : list Update * Js.Outcome unit :=
  match videoFile with
  | None => ([], Js.Resolved tt)
  | Some file =>
      let begun := [SetIsTranscribing true; SetProgress 0; SetError None] in
      let fileSizeGB := inject_Z (Js.size file) / (1024 * 1024 * 1024) in
      let isLargeFile := Js.gt fileSizeGB 1 in
      let audio := audioStep env processingTime file isAudioOnly in
      match snd audio with
      | Js.Pending => ((begun ++ fst audio)%list, Js.Pending)
      | Js.Rejected err => failed (begun ++ fst audio)%list err
      | Js.Resolved audioBlob =>
          let staged :=
            (begun ++ fst audio
               ++ [ SetProgressStage
                      (if isLargeFile
                       then "Processing large file - this may take several minutes..."
                       else "Processing speech to text...");
                    SetProgress 50 ])%list in
          match stored with
          | Malformed msg => failed staged (Js.newError msg)
          | _ =>
              let run :=
                transcribeAudio random elapsed audioBlob
                  (transcriptionOptions stored videoDuration) in
              let transcribed :=
                (staged ++ through transcriptionCallback (fst run))%list in
              match snd run with
              | Js.Pending => (transcribed, Js.Pending)
              | Js.Rejected err => failed transcribed err
              | Js.Resolved transcriptionResult =>
                  ((transcribed
                      ++ [ SetProgress 95;
                           SetProgressStage "Finalizing transcription...";
                           SetTranscriptionData transcriptionResult;
                           SetProgress 100;
                           SetIsTranscribing false;
                           SetProgressStage "";
                           SetShowLargeFileWarning false ])%list,
                   Js.Resolved tt)
              end
          end
      end
  end.

(** ** Vocabulary of the statements *)

(** The values the progress bar took, in order. *)
Definition bar (updates : list Update) : list Q :=
  flat_map (fun u => match u with SetProgress p => [p] | _ => [] end) updates.

(** The transcripts the page was given. *)
Definition transcripts (updates : list Update) : list (list Segment) :=
  flat_map (fun u => match u with SetTranscriptionData d => [d] | _ => [] end)
           updates.

(** The error messages the page showed. *)
Definition errorsShown (updates : list Update) : list string :=
  flat_map (fun u => match u with SetError (Some m) => [m] | _ => [] end)
           updates.

(** The values of the busy flag, in order. *)
Definition busy (updates : list Update) : list bool :=
  flat_map (fun u => match u with SetIsTranscribing b => [b] | _ => [] end)
           updates.

(** The last value of the busy flag. *)
Definition busyAtEnd (updates : list Update) : bool :=
  last (busy updates) false.

(** ** Sample runs *)

(** An audio file of 5MB. *)
Definition audioFile : Js.File :=
  Js.mkFile (5 * 1024 * 1024) "talk.mp3" "audio/mpeg".

(** The recorder refuses to start; the engine works. *)
Definition recorderThrowsEnv : Compression.Env :=
  Compression.sampleEnv (Compression.RecorderThrows "NotSupportedError")
                        Compression.healthyFFmpeg.

End Page.

(** ** VideoCompression: [startCompression], and the page taking its file *)

Module CompressionPanel.
Import Compression.

(** The characters after a dot that make an extension: none is a dot or a
    slash. *)
Fixpoint noDotOrSlash (s : string) : bool :=
  match s with
  | EmptyString => true
  | String c rest =>
      negb (Ascii.eqb c "."%char || Ascii.eqb c "/"%char) && noDotOrSlash rest
  end.

(** [name.replace(/\.[^/.]+$/, "")] *)
Fixpoint stripExtension (s : string) : string :=
  match s with
  | EmptyString => EmptyString
  | String c rest =>
      if Ascii.eqb c "."%char && negb (String.length rest =? 0)%nat
         && noDotOrSlash rest
      then EmptyString
      else String c (stripExtension rest)
  end.

(** [parseFloat(x.toFixed(2))] of a finite number: [toFixed] rounds the
    magnitude, halves upwards. *)
Definition toHundredths (x : Q) : Q :=
  let magnitude (y : Q) := inject_Z (Js.round (y * 100)) / 100 in
  if Qle_bool 0 x then magnitude x else - magnitude (- x).

Inductive Mode : Type := audio | video.

(** What [compressVideo] resolves with. *)
Record Compressed : Type := mkCompressed {
  c_blob             : Js.Blob;
  c_originalSize     : Z;
  c_compressedSize   : Z;
  c_compressionRatio : option Q;    (* [None]: not a finite number *)
  c_savedSpaceMB     : Q
}.

(** The [results] object. *)
Record Results : Type := mkResults {
  blob             : Js.Blob;
  originalSize     : Z;
  compressedSize   : Z;
  compressionRatio : option Q;      (* [None]: not a finite number *)
  savedSpaceMB     : Q;
  audioOnly        : bool;          (* absent in video mode: reads as false *)
  file             : Js.File;
  processingTime   : Q
}.

(** What a run does to the panel, in order. *)
Inductive Update : Type :=
| SetIsCompressing (b : bool)
| SetCompressionProgress (p : Q)
| SetCompressionStage (stage : string)
| SetError (e : option string)
| SetCompressionResults (results : option Results)
| SetShowFallbackUI (b : bool)
| OnCompressionComplete (file : Js.File) (results : Results)
| Did (ev : Js.Event).

Definition progressCallback (progress : Q) (stage : string) : list Update :=
  [SetCompressionProgress progress; SetCompressionStage stage].

Definition through (trace : list Js.Event) : list Update :=
  flat_map (fun ev => match ev with
                      | Js.Progress p stage => progressCallback p stage
                      | _ => [Did ev]
                      end)
           trace.

Section Collaborators.

(** [compressVideo], given the file and the settings, with a callback. *)
Variable compressVideo : Js.File -> CompressionSettings -> Js.Async Compressed.

(** How a number is printed inside a template string. *)
Variable numberToString : option Q -> string.

(** [blob.type || fallback] *)
Definition typeOr (b : Js.Blob) (fallback : string) : string :=
  Js.orElseStr (Some (Js.blobType b)) fallback.

(** [startCompression]; [seconds] is [(Date.now() - startTime) / 1000]
    when the service returns, and the updates of the one-second timer are
    the last ones of a run that succeeds. *)
Definition startCompression
    (env : Env) (seconds : Q) (compressionMode : Mode)
    (compressionSettings : CompressionSettings) (videoFile : Js.File)
  : list Update * Js.Outcome unit :=
  let begun :=
    [ SetIsCompressing true; SetCompressionProgress 0; SetError None;
      SetCompressionResults None ] in
  let service : list Js.Event * Js.Outcome Results :=
    match compressionMode with
    | audio =>
        let run := extractAudioOnly env videoFile true in
        (fst run,
         match snd run with
         | Js.Resolved audioBlob =>
             let audioFileName :=
               stripExtension (Js.name videoFile) ++ "_audio.webm" in
             let audioFile :=
               Js.mkFile (Js.blobSize audioBlob) audioFileName
                         (typeOr audioBlob "audio/webm") in
             Js.Resolved
               (mkResults audioBlob (Js.size videoFile) (Js.blobSize audioBlob)
                  (if (Js.blobSize audioBlob =? 0)%Z then None
                   else Some (toHundredths
                                (inject_Z (Js.size videoFile)
                                   / inject_Z (Js.blobSize audioBlob))))
                  (toHundredths
                     (inject_Z (Js.size videoFile - Js.blobSize audioBlob)
                        / (1024 * 1024)))
                  true audioFile seconds)
         | Js.Rejected err => Js.Rejected err
         | Js.Pending => Js.Pending
         end)
    | video =>
        let run := compressVideo videoFile compressionSettings in
        (fst run,
         match snd run with
         | Js.Resolved results =>
             let compressedFileName :=
               stripExtension (Js.name videoFile) ++ "_compressed.webm" in
             let compressedFile :=
               Js.mkFile (Js.blobSize (c_blob results)) compressedFileName
                         (typeOr (c_blob results) "video/webm") in
             Js.Resolved
               (mkResults (c_blob results) (c_originalSize results)
                  (c_compressedSize results) (c_compressionRatio results)
                  (c_savedSpaceMB results) false compressedFile seconds)
         | Js.Rejected err => Js.Rejected err
         | Js.Pending => Js.Pending
         end)
    end in
  match snd service with
  | Js.Pending => ((begun ++ through (fst service))%list, Js.Pending)
  | Js.Rejected err =>
      ((begun ++ through (fst service)
          ++ [ Did (Js.Console "error" "Compression failed:");
               SetError (Some ("Processing failed: " ++ Js.message err)%string);
               SetIsCompressing false;
               SetShowFallbackUI true ])%list,
       Js.Resolved tt)
  | Js.Resolved results =>
      ((begun ++ through (fst service)
          ++ [ SetCompressionResults (Some results);
               Did (Js.Console "log"
                      ((match compressionMode with
                        | audio => "audio" | video => "video"
                        end)
                         ++ " processing completed in "
                         ++ toFixed env (processingTime results) 2%nat
                         ++ " seconds")%string);
               Did (Js.Console "log"
                      ("Size reduction: "
                         ++ numberToString (compressionRatio results)
                         ++ "x (saved "
                         ++ numberToString (Some (savedSpaceMB results))
                         ++ " MB)")%string);
               SetIsCompressing false;
               OnCompressionComplete (file results) results ])%list,
       Js.Resolved tt)
  end.

End Collaborators.

(** The page's [handleCompressionComplete]: the file it holds from now on and
    its [isAudioOnly] flag. *)
Definition handleCompressionComplete (compressedFile : Js.File)
    (results : Results) : Js.File * bool :=
  (compressedFile, audioOnly results || false).

(** ** Vocabulary of the statements *)

(** The files and results the panel handed to the page. *)
Definition completions (updates : list Update) : list (Js.File * Results) :=
  flat_map (fun u => match u with
                     | OnCompressionComplete f r => [(f, r)]
                     | _ => []
                     end)
           updates.

End CompressionPanel.

(** ** Vocabulary for single exports *)

Module Requests.
Import Transcription.

(** [!transcriptionData || transcriptionData.length === 0] *)
Definition missingData (transcriptionData : option (list Segment)) : bool :=
  match transcriptionData with
  | None => true
  | Some data => (List.length data =? 0)%nat
  end.

(** The file name, without extension, of each export type. *)
Definition stemOf (exportType baseFilename : string) : option string :=
  if String.eqb exportType "full" then Some (baseFilename ++ "_full_transcript")
  else if String.eqb exportType "summary" then Some (baseFilename ++ "_summary")
  else if String.eqb exportType "keypoints" then Some (baseFilename ++ "_key_points")
  else None.

(** The format is one of txt, html, docx, letter case ignored. *)
Definition knownFormat (fileFormat : string) : bool :=
  let lower := Js.toLowerCase fileFormat in
  String.eqb lower "txt" || String.eqb lower "html" || String.eqb lower "docx".

(** The message a request is turned down with before anything is written. *)
Definition turnedDown (transcriptionData : option (list Segment))
    (exportType fileFormat : string) : option string :=
  if missingData transcriptionData
  then Some "No transcription data available for export."
  else match stemOf exportType "" with
       | None => Some "Invalid export type specified."
       | Some _ =>
           if knownFormat fileFormat then None
           else Some "Invalid file format specified."
       end.

End Requests.

(* ===================================================================== *)
(** * Properties *)
(* ===================================================================== *)

Local Open Scope list_scope.

Lemma js_gt_true x y : Js.gt x y = true <-> y < x.
Proof.
  unfold Js.gt. rewrite negb_true_iff, <- not_true_iff_false, Qle_bool_iff.
  split; [apply Qnot_le_lt | apply Qlt_not_le].
Qed.

Lemma js_gt_false x y : Js.gt x y = false <-> x <= y.
Proof.
  unfold Js.gt. rewrite negb_false_iff. apply Qle_bool_iff.
Qed.

Lemma js_gt_spec x y : BoolSpec (y < x) (x <= y) (Js.gt x y).
Proof.
  destruct (Js.gt x y) eqn:E; constructor;
    [ now apply js_gt_true | now apply js_gt_false ].
Qed.

Section RecommendedSettings.
Import Compression.

(** Dividing by [1024^3] and comparing with a threshold is comparing the
    byte size with that many gigabytes. *)
Lemma sizeGB_gt (s c : Q) :
  c < s / (1024 * 1024 * 1024) <-> c * GB < s.
Proof.
  unfold GB, Qdiv.
  change (/ (1024 * 1024 * 1024)) with (1 # 1073741824). lra.
Qed.

Lemma sizeGB_le (s c : Q) :
  s / (1024 * 1024 * 1024) <= c <-> s <= c * GB.
Proof.
  unfold GB, Qdiv.
  change (/ (1024 * 1024 * 1024)) with (1 # 1073741824). lra.
Qed.

Lemma GB_pos : 0 < GB.
Proof. reflexivity. Qed.

(** The four branches of the step function, one lemma each. *)
Lemma recommended_over_4GB s :
  4 * GB < s ->
  getRecommendedCompressionSettings s = mkSettings low 854 480 24 "96k".
Proof.
  intros H. unfold getRecommendedCompressionSettings.
  destruct (js_gt_spec (s / (1024 * 1024 * 1024)) 4) as [_|C]; [reflexivity|].
  apply sizeGB_le in C. lra.
Qed.

Lemma recommended_2GB_4GB s :
  2 * GB < s -> s <= 4 * GB ->
  getRecommendedCompressionSettings s = mkSettings low 1280 720 24 "128k".
Proof.
  intros H2 H4. unfold getRecommendedCompressionSettings.
  destruct (js_gt_spec (s / (1024 * 1024 * 1024)) 4) as [C|_].
  { apply sizeGB_gt in C. lra. }
  destruct (js_gt_spec (s / (1024 * 1024 * 1024)) 2) as [_|C]; [reflexivity|].
  apply sizeGB_le in C. lra.
Qed.

Lemma recommended_1GB_2GB s :
  1 * GB < s -> s <= 2 * GB ->
  getRecommendedCompressionSettings s = mkSettings medium 1280 720 30 "128k".
Proof.
  intros H1 H2. pose proof GB_pos as Hpos.
  unfold getRecommendedCompressionSettings.
  destruct (js_gt_spec (s / (1024 * 1024 * 1024)) 4) as [C|_].
  { apply sizeGB_gt in C. lra. }
  destruct (js_gt_spec (s / (1024 * 1024 * 1024)) 2) as [C|_].
  { apply sizeGB_gt in C. lra. }
  destruct (js_gt_spec (s / (1024 * 1024 * 1024)) 1) as [_|C]; [reflexivity|].
  apply sizeGB_le in C. lra.
Qed.

Lemma recommended_upto_1GB s :
  s <= 1 * GB ->
  getRecommendedCompressionSettings s = mkSettings high 1920 1080 30 "192k".
Proof.
  intros H1. pose proof GB_pos as Hpos.
  unfold getRecommendedCompressionSettings.
  destruct (js_gt_spec (s / (1024 * 1024 * 1024)) 4) as [C|_].
  { apply sizeGB_gt in C. lra. }
  destruct (js_gt_spec (s / (1024 * 1024 * 1024)) 2) as [C|_].
  { apply sizeGB_gt in C. lra. }
  destruct (js_gt_spec (s / (1024 * 1024 * 1024)) 1) as [C|_]; [|reflexivity].
  apply sizeGB_gt in C. lra.
Qed.

(** The tier as a function of the size, read off the branches. *)
Lemma recommended_tier_cases s :
  (4 * GB < s /\ quality (getRecommendedCompressionSettings s) = low) \/
  (2 * GB < s <= 4 * GB /\ quality (getRecommendedCompressionSettings s) = low) \/
  (1 * GB < s <= 2 * GB /\ quality (getRecommendedCompressionSettings s) = medium) \/
  (s <= 1 * GB /\ quality (getRecommendedCompressionSettings s) = high).
Proof.
  destruct (Qlt_le_dec (4 * GB) s) as [H4|H4].
  { left. now rewrite recommended_over_4GB. }
  destruct (Qlt_le_dec (2 * GB) s) as [H2|H2].
  { right; left. now rewrite recommended_2GB_4GB. }
  destruct (Qlt_le_dec (1 * GB) s) as [H1|H1].
  { right; right; left. now rewrite recommended_1GB_2GB. }
  right; right; right. now rewrite recommended_upto_1GB.
Qed.

Lemma recommended_tier_antitone s1 s2 :
  s1 <= s2 ->
  (tierRank (quality (getRecommendedCompressionSettings s2)) <=
   tierRank (quality (getRecommendedCompressionSettings s1)))%nat.
Proof.
  intros Hle.
  destruct (recommended_tier_cases s1) as [[A ->]|[[A ->]|[[A ->]|[A ->]]]];
  destruct (recommended_tier_cases s2) as [[B ->]|[[B ->]|[[B ->]|[B ->]]]];
  simpl; try lia; exfalso; pose proof GB_pos; lra.
Qed.

(** C1. For every non-negative size in bytes the recommended settings are
    the step function of the size in GB: above 4GB Low/854x480/24fps/96k,
    above 2GB up to 4GB Low/1280x720/24fps/128k, above 1GB up to 2GB
    Medium/1280x720/30fps/128k, otherwise High/1920x1080/30fps/192k; and the
    selected tier never rises when the size grows.  The function is a total
    Rocq function, hence defined and single-valued on every input. *)
Theorem recommended_settings_step_function (s s' : Q) :
  0 <= s -> s <= s' ->
  (4 * GB < s ->
     getRecommendedCompressionSettings s = mkSettings low 854 480 24 "96k") /\
  (2 * GB < s -> s <= 4 * GB ->
     getRecommendedCompressionSettings s = mkSettings low 1280 720 24 "128k") /\
  (1 * GB < s -> s <= 2 * GB ->
     getRecommendedCompressionSettings s = mkSettings medium 1280 720 30 "128k") /\
  (s <= 1 * GB ->
     getRecommendedCompressionSettings s = mkSettings high 1920 1080 30 "192k") /\
  (tierRank (quality (getRecommendedCompressionSettings s')) <=
   tierRank (quality (getRecommendedCompressionSettings s)))%nat.
Proof.
  intros _ Hle. repeat split.
  - apply recommended_over_4GB.
  - apply recommended_2GB_4GB.
  - apply recommended_1GB_2GB.
  - apply recommended_upto_1GB.
  - now apply recommended_tier_antitone.
Qed.

(** Witness of C1 at 1.5GB and 3GB: the tier drops from Medium to Low. *)
Lemma recommended_settings_step_function_witness :
  getRecommendedCompressionSettings (3 * GB / 2)
    = mkSettings medium 1280 720 30 "128k" /\
  (tierRank (quality (getRecommendedCompressionSettings (3 * GB))) <=
   tierRank (quality (getRecommendedCompressionSettings (3 * GB / 2))))%nat.
Proof.
  assert (H0 : 0 <= 3 * GB / 2) by (vm_compute; discriminate).
  assert (H1 : 3 * GB / 2 <= 3 * GB) by (vm_compute; discriminate).
  destruct (recommended_settings_step_function (3 * GB / 2) (3 * GB) H0 H1)
    as (_ & _ & Hmed & _ & Hmono).
  split; [apply Hmed; vm_compute; [reflexivity | discriminate] | exact Hmono].
Defined.

(** C7 as stated fails: at 600MB the result is not the Medium setting. *)
Lemma recommended_600MB_not_medium :
  getRecommendedCompressionSettings size_600MB
    <> mkSettings medium 1280 720 30 "128k".
Proof. vm_compute. discriminate. Qed.

(** C7, amended. For an input size of 600MB (below 1GB) the recommended
    settings are quality High with maxWidth 1920, maxHeight 1080,
    frameRate 30 and audioBitrate 192k. *)
Theorem recommended_600MB_high :
  getRecommendedCompressionSettings size_600MB
    = mkSettings high 1920 1080 30 "192k".
Proof. apply recommended_upto_1GB. vm_compute. discriminate. Qed.

End RecommendedSettings.

(* --------------------------------------------------------------------- *)
(** ** Traces of asynchronous computations *)
(* --------------------------------------------------------------------- *)

Section Traces.

Lemma percents_app t1 t2 :
  Js.percents (t1 ++ t2) = Js.percents t1 ++ Js.percents t2.
Proof. unfold Js.percents. apply flat_map_app. Qed.

Lemma bind_resolved {A B} (m : Js.Async A) (f : A -> Js.Async B) a :
  snd m = Js.Resolved a ->
  Js.bind m f = (fst m ++ fst (f a), snd (f a)).
Proof. intros H. unfold Js.bind. now rewrite H. Qed.

Lemma bind_rejected {A B} (m : Js.Async A) (f : A -> Js.Async B) e :
  snd m = Js.Rejected e -> Js.bind m f = (fst m, Js.Rejected e).
Proof. intros H. unfold Js.bind. now rewrite H. Qed.

Lemma try_catch_rejected {A} (m : Js.Async A) h e :
  snd m = Js.Rejected e ->
  Js.try_catch m h = (fst m ++ fst (h e), snd (h e)).
Proof. intros H. unfold Js.try_catch. now rewrite H. Qed.

Lemma try_catch_resolved {A} (m : Js.Async A) h a :
  snd m = Js.Resolved a -> Js.try_catch m h = m.
Proof. intros H. unfold Js.try_catch. now rewrite H. Qed.

Lemma nondecreasing_cons x l :
  Js.nondecreasing (x :: l) <->
  (match l with [] => True | y :: _ => x <= y end) /\ Js.nondecreasing l.
Proof. destruct l; simpl; tauto. Qed.

(** In a non-decreasing list the head is below every later element. *)
Lemma nondecreasing_head x l :
  Js.nondecreasing (x :: l) -> Forall (fun y => x <= y) l.
Proof.
  revert x. induction l as [|y l IH]; intros x H; constructor.
  - now destruct H.
  - destruct H as [Hxy H]. specialize (IH _ H).
    eapply Forall_impl; [|exact IH]. intros z Hz. simpl in Hz.
    apply Qle_trans with y; assumption.
Qed.

(** A non-decreasing list whose elements are all at most [b], followed by
    a non-decreasing list starting at [b] or above. *)
Lemma nondecreasing_app_bounded l1 b l2 :
  Js.nondecreasing l1 -> Forall (fun x => x <= b) l1 ->
  Js.nondecreasing (b :: l2) ->
  Js.nondecreasing (l1 ++ b :: l2).
Proof.
  intros H1 Hb H2. induction l1 as [|x l1 IH]; [exact H2|].
  apply Forall_cons_iff in Hb. destruct Hb as [Hx Hb].
  apply nondecreasing_cons in H1. destruct H1 as [Hh H1].
  change ((x :: l1) ++ b :: l2) with (x :: (l1 ++ b :: l2)).
  apply nondecreasing_cons. split; [|now apply IH].
  destruct l1; simpl; assumption.
Qed.

End Traces.

(* --------------------------------------------------------------------- *)
(** ** Audio extraction: progress and fallback *)
(* --------------------------------------------------------------------- *)

Section Extraction.
Import Compression.

(** The interval never fails and never blocks. *)
Lemma progressTicks_resolved cb d ps :
  snd (progressTicks cb d ps) = Js.Resolved tt.
Proof.
  induction ps as [|t ps IH]; [reflexivity|].
  simpl. unfold Js.bind at 1.
  assert (Ht : snd (progressTick cb d t) = Js.Resolved tt).
  { unfold progressTick, Js.report.
    destruct (Js.truthy d && Js.truthy t), cb; reflexivity. }
  rewrite Ht. simpl. exact IH.
Qed.

Lemma progressTicks_no_engine cb d ps :
  Forall (fun ev => isEngineEvent ev = false) (fst (progressTicks cb d ps)).
Proof.
  induction ps as [|t ps IH]; [constructor|].
  simpl. unfold Js.bind at 1.
  assert (Ht : snd (progressTick cb d t) = Js.Resolved tt).
  { unfold progressTick, Js.report.
    destruct (Js.truthy d && Js.truthy t), cb; reflexivity. }
  rewrite Ht. simpl. apply Forall_app. split; [|exact IH].
  unfold progressTick, Js.report.
  destruct (Js.truthy d && Js.truthy t), cb; repeat constructor.
Qed.

(** A trace without engine events holds no engine attempt. *)
Lemma no_engine_no_attempt trace :
  Forall (fun ev => isEngineEvent ev = false) trace ->
  engineAttempts trace = 0%nat.
Proof.
  unfold engineAttempts. induction 1 as [|ev t Hev _ IH]; [reflexivity|].
  simpl. destruct ev; try exact IH; discriminate Hev.
Qed.

Lemma native_outcome env file cb :
  snd (nativeBrowserAudioExtraction env file cb) = nativeOutcome env.
Proof.
  unfold nativeBrowserAudioExtraction, nativeOutcome.
  destruct (native env) as [msg| |msg|msg|e|d ps fin];
    try (destruct cb; reflexivity).
  destruct cb; cbn -[progressTicks String.append];
    rewrite (bind_resolved _ _ tt (progressTicks_resolved _ d ps));
    destruct fin; reflexivity.
Qed.

Lemma native_percents env file :
  Js.percents (fst (nativeBrowserAudioExtraction env file true))
  = nativePercents env.
Proof.
  unfold nativeBrowserAudioExtraction, nativePercents.
  destruct (native env) as [msg| |msg|msg|e|d ps fin]; try reflexivity.
  cbn -[progressTicks String.append].
  rewrite (bind_resolved _ _ tt (progressTicks_resolved _ d ps)).
  cbn -[progressTicks String.append]. rewrite percents_app.
  destruct fin; reflexivity.
Qed.

Lemma native_no_engine env file cb :
  Forall (fun ev => isEngineEvent ev = false)
         (fst (nativeBrowserAudioExtraction env file cb)).
Proof.
  unfold nativeBrowserAudioExtraction.
  destruct (native env) as [msg| |msg|msg|e|d ps fin];
    try (destruct cb; repeat constructor).
  all: cbn -[progressTicks String.append];
    rewrite (bind_resolved _ _ tt (progressTicks_resolved _ d ps));
    cbn -[progressTicks String.append];
    repeat (apply Forall_cons; [reflexivity|]);
    apply Forall_app; split; [apply progressTicks_no_engine|];
    destruct fin; repeat constructor.
Qed.

(** *** The engine path *)

(** The engine settled: it produced the mp3 blob, or it failed with the
    wrapped message. *)
Lemma ffmpeg_outcome env file cb :
  snd (ffmpegAudioExtraction env file cb)
    = Js.Resolved (Js.mkBlob (outputBytes (ffmpeg env)) "audio/mp3")
  \/ exists msg,
       snd (ffmpegAudioExtraction env file cb)
         = Js.Rejected
             (Js.newError ("FFmpeg audio extraction failed: " ++ msg)%string).
Proof.
  unfold ffmpegAudioExtraction, ensureFFmpegLoaded.
  destruct (ffmpeg env) as [il lf wf rf rdf uf ob].
  destruct il, lf, wf, rf, rdf, uf, cb; cbn -[String.append];
    solve [ left; reflexivity | right; eexists; reflexivity ].
Qed.


(** When the engine delivers, it reported 20, 40, 80, 100. *)
Lemma ffmpeg_percents_resolved env file blob :
  snd (ffmpegAudioExtraction env file true) = Js.Resolved blob ->
  Js.percents (fst (ffmpegAudioExtraction env file true)) = [20; 40; 80; 100].
Proof.
  unfold ffmpegAudioExtraction, ensureFFmpegLoaded.
  destruct (ffmpeg env) as [il lf wf rf rdf uf ob].
  destruct il, lf, wf, rf, rdf, uf; cbn -[String.append];
    intros H; solve [ discriminate H | reflexivity ].
Qed.


(** *** The orchestrator *)

(** The caught branch of [extractAudioOnly]. *)
Lemma extractAudioOnly_fallback env file cb e :
  snd (nativeBrowserAudioExtraction env file cb) = Js.Rejected e ->
  extractAudioOnly env file cb
  = (fst (Js.report cb 5 "Initializing fast audio extraction...")
       ++ fst (nativeBrowserAudioExtraction env file cb)
       ++ [ Js.Console "error" "Error extracting audio:";
            Js.Console "warn"
              "Native audio extraction failed, falling back to FFmpeg..." ]
       ++ fst (ffmpegAudioExtraction env file cb),
     snd (ffmpegAudioExtraction env file cb)).
Proof.
  intros H. unfold extractAudioOnly.
  remember (nativeBrowserAudioExtraction env file cb) as nat_run eqn:En.
  remember (ffmpegAudioExtraction env file cb) as eng_run eqn:Ee.
  destruct nat_run as [t o]. simpl in H. subst o.
  destruct cb; reflexivity.
Qed.

(** The uncaught branches: the native path resolved, or never settles. *)
Lemma extractAudioOnly_native env file cb :
  (forall e, snd (nativeBrowserAudioExtraction env file cb) <> Js.Rejected e) ->
  extractAudioOnly env file cb
  = (fst (Js.report cb 5 "Initializing fast audio extraction...")
       ++ fst (nativeBrowserAudioExtraction env file cb),
     snd (nativeBrowserAudioExtraction env file cb)).
Proof.
  intros H. unfold extractAudioOnly.
  remember (nativeBrowserAudioExtraction env file cb) as nat_run eqn:En.
  destruct nat_run as [t o]. simpl in H.
  destruct o as [b|e|]; [| now elim (H e) |]; destruct cb; reflexivity.
Qed.

(** *** Progress percentages *)

Lemma tickPercent_mono d t1 t2 :
  0 < d -> t1 <= t2 -> tickPercent d t1 <= tickPercent d t2.
Proof.
  intros Hd Ht. unfold tickPercent, Qdiv.
  assert (Hi : 0 <= / d) by (apply Qinv_le_0_compat; lra).
  pose proof (Qmult_le_compat_r _ _ (/ d) Ht Hi). lra.
Qed.

Lemma tickPercent_range d t :
  0 < d -> 0 <= t -> t <= d -> 30 <= tickPercent d t /\ tickPercent d t <= 90.
Proof.
  intros Hd H0 H1. unfold tickPercent, Qdiv.
  assert (Hi : 0 <= / d) by (apply Qinv_le_0_compat; lra).
  pose proof (Qmult_le_compat_r _ _ (/ d) H0 Hi) as Hlo.
  pose proof (Qmult_le_compat_r _ _ (/ d) H1 Hi) as Hhi.
  rewrite Qmult_inv_r in Hhi by lra. lra.
Qed.

(** The interval reports the tick percentage of every position it sees,
    skipping the falsy ones. *)
Lemma progressTicks_percents d ps :
  Js.percents (fst (progressTicks true d ps))
  = map (tickPercent d) (filter (fun t => Js.truthy d && Js.truthy t) ps).
Proof.
  induction ps as [|t ps IH]; [reflexivity|].
  cbn [progressTicks].
  assert (Ht : snd (progressTick true d t) = Js.Resolved tt).
  { unfold progressTick, Js.report.
    destruct (Js.truthy d && Js.truthy t); reflexivity. }
  rewrite (bind_resolved _ _ tt Ht). cbn [fst]. rewrite percents_app, IH.
  cbn [filter]. unfold progressTick, Js.report.
  destruct (Js.truthy d && Js.truthy t); reflexivity.
Qed.

Lemma nondecreasing_cons_above x l :
  Forall (fun y => x <= y) l -> Js.nondecreasing l -> Js.nondecreasing (x :: l).
Proof.
  intros Hx Hl. apply nondecreasing_cons. split; [|exact Hl].
  destruct l; [exact I | now inversion Hx].
Qed.

(** With playback advancing, the interval's reports stay between 30 and 90
    and never decrease. *)
Lemma progressTicks_monotone d ps :
  0 < d -> Forall (fun t => 0 <= t /\ t <= d) ps -> Js.nondecreasing ps ->
  Js.nondecreasing (Js.percents (fst (progressTicks true d ps))) /\
  Forall (fun p => 30 <= p /\ p <= 90)
         (Js.percents (fst (progressTicks true d ps))).
Proof.
  intros Hd Hr Hs. rewrite progressTicks_percents.
  induction ps as [|t ps IH]; [split; constructor|].
  apply Forall_cons_iff in Hr. destruct Hr as [[Ht0 Ht1] Hr].
  pose proof (nondecreasing_head _ _ Hs) as Hhead.
  apply nondecreasing_cons in Hs. destruct Hs as [_ Hs].
  specialize (IH Hr Hs). destruct IH as [IHs IHr].
  cbn [filter]. destruct (Js.truthy d && Js.truthy t); [|now split].
  cbn [map]. split.
  - apply nondecreasing_cons_above; [|exact IHs].
    apply Forall_forall. intros p Hp.
    apply in_map_iff in Hp. destruct Hp as (t' & <- & Hin).
    apply filter_In in Hin. destruct Hin as [Hin _].
    rewrite Forall_forall in Hhead.
    apply tickPercent_mono; [exact Hd | now apply Hhead].
  - constructor; [now apply tickPercent_range | exact IHr].
Qed.

(** The native path's own reports never decrease. *)
Lemma native_percents_monotone env :
  playbackAdvances env -> Js.nondecreasing (nativePercents env).
Proof.
  unfold playbackAdvances, nativePercents.
  destruct (native env) as [msg| |msg|msg|e|d ps fin]; intros H;
    try (simpl; repeat split; lra).
  destruct H as (Hd & Hr & Hs).
  destruct (progressTicks_monotone d ps Hd Hr Hs) as [Hm Hb].
  set (ticks := Js.percents (fst (progressTicks true d ps))) in *.
  assert (Hticks : forall tl, Js.nondecreasing (90 :: tl) \/ tl = [] ->
            Js.nondecreasing (ticks ++ match tl with [] => [] | _ => 90 :: tl end)).
  { intros tl [Htl| ->].
    - destruct tl; [rewrite app_nil_r; exact Hm|].
      apply nondecreasing_app_bounded; [exact Hm | | exact Htl].
      eapply Forall_impl; [|exact Hb]. intros p [_ Hp]. exact Hp.
    - rewrite app_nil_r. exact Hm. }
  assert (Hpre : forall l, Js.nondecreasing l -> Forall (fun p => 30 <= p) l ->
            Js.nondecreasing ([10; 20; 30] ++ l)).
  { intros l Hl H30. cbn [app].
    apply nondecreasing_cons_above.
    { repeat constructor; try lra.
      eapply Forall_impl; [|exact H30]. intros; simpl in *; lra. }
    apply nondecreasing_cons_above.
    { repeat constructor; try lra.
      eapply Forall_impl; [|exact H30]. intros; simpl in *; lra. }
    apply nondecreasing_cons_above; assumption. }
  apply Hpre.
  - destruct fin.
    + apply (Hticks [100]). left. simpl. split; [lra | exact I].
    + apply (Hticks []). now right.
    + apply (Hticks []). now right.
  - apply Forall_app. split.
    + eapply Forall_impl; [|exact Hb]. intros p [Hp _]. exact Hp.
    + destruct fin; repeat constructor; lra.
Qed.

Lemma last_app_cons {A} (l : list A) x tl d :
  last (l ++ x :: tl) d = last (x :: tl) d.
Proof.
  induction l as [|y l IH]; [reflexivity|].
  change ((y :: l) ++ x :: tl) with (y :: (l ++ x :: tl)).
  destruct (l ++ x :: tl) eqn:E; [now destruct l|].
  exact IH.
Qed.

(** A non-decreasing list containing a 30 cannot be followed by a 20. *)
Lemma not_nondecreasing_30_20 (pre post l : list Q) :
  ~ Js.nondecreasing (pre ++ 30 :: l ++ 20 :: post).
Proof.
  induction pre as [|x pre IH]; intros H.
  - apply nondecreasing_head in H. rewrite Forall_forall in H.
    specialize (H 20). cbv beta in H.
    assert (Hin : In 20 (l ++ 20 :: post)) by (apply in_or_app; right; now left).
    specialize (H Hin). lra.
  - change ((x :: pre) ++ 30 :: l ++ 20 :: post)
      with (x :: (pre ++ 30 :: l ++ 20 :: post)) in H.
    apply nondecreasing_cons in H. destruct H as [_ H]. exact (IH H).
Qed.

(** The fallback run at the autoplay rejection. *)
Lemma play_rejected_run_percents :
  Js.percents (fst (extractAudioOnly playRejectedEnv sampleFile true))
  = [5; 10; 20; 30; 20; 40; 80; 100].
Proof. reflexivity. Qed.

(** C2 as stated fails: the native path reports 30, [video.play()] rejects,
    the engine completes the extraction, and its first report is 20. *)
Lemma extraction_progress_drops_on_fallback :
  (exists e, snd (nativeBrowserAudioExtraction playRejectedEnv sampleFile true)
             = Js.Rejected e) /\
  (exists blob, snd (extractAudioOnly playRejectedEnv sampleFile true)
                = Js.Resolved blob) /\
  ~ Js.nondecreasing
      (Js.percents (fst (extractAudioOnly playRejectedEnv sampleFile true))).
Proof.
  split; [eexists; reflexivity|]. split; [eexists; reflexivity|].
  rewrite play_rejected_run_percents. simpl. intros (_ & _ & _ & H & _).
  revert H. apply Qlt_not_le. reflexivity.
Qed.

(** When the engine fails too, the run ends in an error and its last report
    is the engine's 40, not 100. *)
Lemma both_paths_fail_reports_no_100 :
  snd (extractAudioOnly (sampleEnv (RecorderThrows "NotSupportedError")
                                   failingFFmpeg) sampleFile true)
  = Js.Rejected
      (Js.newError "FFmpeg audio extraction failed: Conversion failed") /\
  Js.percents
    (fst (extractAudioOnly (sampleEnv (RecorderThrows "NotSupportedError")
                                      failingFFmpeg) sampleFile true))
  = [5; 10; 20; 30; 20; 40].
Proof. split; reflexivity. Qed.

(** C2, amended. For every run of [extractAudioOnly] with a progress callback
    that returns a blob, playback advancing within the duration, the last
    reported percentage is exactly 100.  When the native path produced the
    blob the percentages never decrease.  When the native path failed and the
    engine produced the blob, the percentages are 5, the native path's, then
    20, 40, 80, 100: each path's own part never decreases, and the whole
    sequence is non-decreasing exactly when the native path threw during
    setup, before its 30% report. *)
Theorem extraction_progress_by_path env file blob :
  snd (extractAudioOnly env file true) = Js.Resolved blob ->
  playbackAdvances env ->
  let ps := Js.percents (fst (extractAudioOnly env file true)) in
  let native_ps :=
    Js.percents (fst (nativeBrowserAudioExtraction env file true)) in
  last ps 0 = 100 /\
  Js.nondecreasing native_ps /\
  match snd (nativeBrowserAudioExtraction env file true) with
  | Js.Resolved _ => ps = 5 :: native_ps /\ Js.nondecreasing ps
  | Js.Rejected _ =>
      ps = 5 :: native_ps ++ [20; 40; 80; 100] /\
      Js.nondecreasing [20; 40; 80; 100] /\
      (Js.nondecreasing ps <-> nativeFailsInSetup env)
  | Js.Pending => False
  end.
Proof.
  intros Hres Hadv ps native_ps.
  pose proof (native_percents_monotone env Hadv) as Hnat.
  assert (Enat : native_ps = nativePercents env) by apply native_percents.
  destruct (snd (nativeBrowserAudioExtraction env file true)) as [b|e|] eqn:Eo.
  - (* the native path resolved *)
    assert (Eps : ps = 5 :: native_ps).
    { unfold ps. rewrite extractAudioOnly_native by (intros e He; congruence).
      cbn [fst]. rewrite percents_app. reflexivity. }
    assert (Hfin : exists d positions recorded seconds,
               native env = Plays d positions (Ended recorded seconds)).
    { rewrite native_outcome in Eo. unfold nativeOutcome in Eo.
      destruct (native env) as [msg| |msg|msg|e|d positions fin];
        try discriminate Eo.
      destruct fin; try discriminate Eo. now eauto. }
    destruct Hfin as (d & positions & recorded & seconds & En).
    rewrite Eps, Enat. repeat split.
    + unfold nativePercents. rewrite En.
      change (5 :: [10; 20; 30] ++ ?t ++ [90; 100])
        with ((5 :: [10; 20; 30] ++ t) ++ 90 :: [100]).
      cbn [app]. rewrite !app_comm_cons.
      rewrite (last_app_cons _ 90 [100] 0). reflexivity.
    + rewrite <- Enat. rewrite Enat. exact Hnat.
    + apply nondecreasing_cons_above; [|exact Hnat].
      clear - Hnat. unfold nativePercents in *.
      destruct (native env); cbn [app] in *;
        apply nondecreasing_head in Hnat;
        (constructor; [lra|]);
        (eapply Forall_impl; [|exact Hnat]); intros; simpl in *; lra.
  - (* the native path failed and the engine took over *)
    assert (Eps : ps = 5 :: native_ps ++ [20; 40; 80; 100]).
    { unfold ps. revert Hres. rewrite (extractAudioOnly_fallback _ _ _ _ Eo).
      cbn [fst snd]. intros Hres. rewrite !percents_app.
      rewrite (ffmpeg_percents_resolved _ _ _ Hres). reflexivity. }
    rewrite Eps. split; [|split; [|split; [|split]]].
    + rewrite app_comm_cons.
      rewrite (last_app_cons _ 20 [40; 80; 100] 0). reflexivity.
    + rewrite Enat. exact Hnat.
    + reflexivity.
    + simpl. repeat split; lra.
    + rewrite Enat. rewrite native_outcome in Eo.
      unfold nativeOutcome in Eo. unfold nativeFailsInSetup, nativePercents.
      destruct (native env) as [msg| |msg|msg|e'|d positions fin];
        try discriminate Eo.
      * simpl. split; [tauto|]. intros _. repeat split; lra.
      * simpl. split; [tauto|]. intros _. repeat split; lra.
      * split; [|tauto]. intros H.
        exact (not_nondecreasing_30_20 [5; 10; 20] [40; 80; 100] [] H).
      * split; [|tauto]. intros H.
        exact (not_nondecreasing_30_20 [5; 10; 20] [40; 80; 100] [] H).
      * split; [|tauto]. intros H.
        cbn [app] in H. rewrite <- app_assoc in H.
        rewrite (app_assoc (Js.percents _)) in H.
        exact (not_nondecreasing_30_20 [5; 10; 20] [40; 80; 100] _ H).
  - (* the native path never settles: the run returns nothing *)
    revert Hres. rewrite extractAudioOnly_native by (intros e He; congruence).
    cbn [snd]. rewrite Eo. discriminate.
Qed.

(** C2, amended, on a clip played to its end: 5, 10, 20, 30, the interval's
    reports, 90, 100. *)
Lemma extraction_progress_by_path_witness :
  last (Js.percents (fst (extractAudioOnly playsThroughEnv sampleFile true))) 0
  = 100 /\
  Js.nondecreasing
    (Js.percents (fst (extractAudioOnly playsThroughEnv sampleFile true))).
Proof.
  assert (Hadv : playbackAdvances playsThroughEnv).
  { unfold playbackAdvances. simpl.
    split; [reflexivity|]. split.
    - repeat constructor; discriminate.
    - repeat split; discriminate. }
  destruct (extraction_progress_by_path playsThroughEnv sampleFile
              (Js.mkBlob 96000 "audio/webm") eq_refl Hadv)
    as (Hlast & _ & Hcase).
  split; [exact Hlast|].
  exact (proj2 Hcase).
Defined.



(** A native promise that never settles is not a failure: nothing is caught
    and the engine is never tried. *)
Lemma native_pending_no_fallback env file cb :
  snd (nativeBrowserAudioExtraction env file cb) = Js.Pending ->
  snd (extractAudioOnly env file cb) = Js.Pending /\
  engineAttempts (fst (extractAudioOnly env file cb)) = 0%nat.
Proof.
  intros Hp. rewrite extractAudioOnly_native by (intros e He; congruence).
  cbn [fst snd]. split; [exact Hp|].
  apply no_engine_no_attempt, Forall_app. split.
  - destruct cb; repeat constructor.
  - apply native_no_engine.
Qed.

End Extraction.

(* --------------------------------------------------------------------- *)
(** ** The simulated recogniser *)
(* --------------------------------------------------------------------- *)

Section Recogniser.
Import Transcription.

Lemma js_lt_spec x y : BoolSpec (x < y) (y <= x) (Js.lt x y).
Proof.
  unfold Js.lt. destruct (Qle_bool y x) eqn:E; constructor.
  - now apply Qle_bool_iff.
  - apply Qnot_le_lt. intros H. apply Qle_bool_iff in H. congruence.
Qed.

(** One iteration of the loop, when the loop test holds. *)
Lemma segmentLoop_step random d off count rem i cur sid draws :
  cur < off + d ->
  exists txt,
    fst (segmentLoop random d off count (S rem) i cur sid draws)
    = mkSegment sid cur
        (cur + Qmin (8 + (random draws * 4 - 2)) ((off + d) - cur))
        txt (random (draws + 2)%nat * (15 # 100) + (85 # 100))
      :: fst (segmentLoop random d off count rem (i + 1)
                (cur + Qmin (8 + (random draws * 4 - 2)) ((off + d) - cur))
                (sid + 1) (draws + 3)%nat)
    /\ snd (segmentLoop random d off count (S rem) i cur sid draws)
       = snd (segmentLoop random d off count rem (i + 1)
                (cur + Qmin (8 + (random draws * 4 - 2)) ((off + d) - cur))
                (sid + 1) (draws + 3)%nat).
Proof.
  intros Hlt. cbn [segmentLoop].
  destruct (js_lt_spec cur (off + d)) as [_|Hge]; [|lra].
  eexists. split; reflexivity.
Qed.

(** The loop stops when the time is used up. *)
Lemma segmentLoop_stop random d off count rem i cur sid draws :
  off + d <= cur ->
  segmentLoop random d off count rem i cur sid draws = ([], draws).
Proof.
  intros Hge. destruct rem; [reflexivity|]. cbn [segmentLoop].
  destruct (js_lt_spec cur (off + d)) as [Hlt|_]; [lra|reflexivity].
Qed.

(** Within one call the ids are consecutive from the first one. *)
Lemma segmentLoop_ids random d off count rem i cur sid draws :
  map id (fst (segmentLoop random d off count rem i cur sid draws))
  = consecutive sid
      (List.length (fst (segmentLoop random d off count rem i cur sid draws))).
Proof.
  revert i cur sid draws.
  induction rem as [|rem IH]; intros i cur sid draws; [reflexivity|].
  destruct (Qlt_le_dec cur (off + d)) as [Hlt|Hge].
  - destruct (segmentLoop_step random d off count rem i cur sid draws Hlt)
      as (txt & -> & _).
    cbn [map id List.length consecutive]. now rewrite IH.
  - now rewrite segmentLoop_stop.
Qed.

(** A random segment lasts at least 6 and less than 10 seconds. *)
Lemma drawn_duration random k :
  inUnitInterval random ->
  6 <= 8 + (random k * 4 - 2) /\ 8 + (random k * 4 - 2) < 10.
Proof. intros H. destruct (H k). split; lra. Qed.

(** When even segments of 10 seconds would not use up the time before the
    last iteration, every iteration pushes a segment. *)
Lemma segmentLoop_full random d off count rem i cur sid draws :
  inUnitInterval random ->
  cur < off + d ->
  cur + 10 * (inject_Z (Z.of_nat rem) - 1) <= off + d ->
  List.length (fst (segmentLoop random d off count rem i cur sid draws)) = rem.
Proof.
  intros Hr. revert i cur sid draws.
  induction rem as [|rem IH]; intros i cur sid draws Hlt Hroom; [reflexivity|].
  destruct (segmentLoop_step random d off count rem i cur sid draws Hlt)
    as (txt & -> & _).
  cbn [List.length]. f_equal.
  destruct rem as [|rem']; [reflexivity|].
  destruct (drawn_duration random draws Hr) as [H6 H10].
  rewrite Nat2Z.inj_succ in Hroom. unfold Z.succ in Hroom.
  rewrite inject_Z_plus in Hroom.
  change (inject_Z 1) with 1 in Hroom.
  assert (Hpos : 0 <= inject_Z (Z.of_nat (S rem')) - 1).
  { rewrite Nat2Z.inj_succ. unfold Z.succ. rewrite inject_Z_plus.
    change (inject_Z 1) with 1.
    assert (0 <= inject_Z (Z.of_nat rem')).
    { change 0 with (inject_Z 0). rewrite <- Zle_Qle. lia. }
    lra. }
  destruct (Q.min_spec (8 + (random draws * 4 - 2)) (off + d - cur))
    as [[Hm Hmin]|[Hm Hmin]].
  - apply IH; rewrite Hmin; lra.
  - exfalso. lra.
Qed.

End Recogniser.

(* --------------------------------------------------------------------- *)
(** ** Direct and chunked transcription *)
(* --------------------------------------------------------------------- *)

Section Driver.
Import Transcription.

Lemma bind_emit {B} ev (f : unit -> Js.Async B) :
  Js.bind (Js.emit ev) f = (ev :: fst (f tt), snd (f tt)).
Proof. reflexivity. Qed.

Lemma bind_report {B} cb p label (f : unit -> Js.Async B) :
  Js.bind (Js.report cb p label) f
  = (fst (Js.report cb p label) ++ fst (f tt), snd (f tt)).
Proof. destruct cb; reflexivity. Qed.

Lemma slices_app t1 t2 : slices (t1 ++ t2) = slices t1 ++ slices t2.
Proof. unfold slices. apply flat_map_app. Qed.

Lemma submissions_app t1 t2 :
  submissions (t1 ++ t2) = submissions t1 ++ submissions t2.
Proof. unfold submissions. apply flat_map_app. Qed.

Lemma report_slices cb p label : slices (fst (Js.report cb p label)) = [].
Proof. destruct cb; reflexivity. Qed.

Lemma report_submissions cb p label :
  submissions (fst (Js.report cb p label)) = [].
Proof. destruct cb; reflexivity. Qed.

(** The chunk loop always completes, with the chunks' segments appended in
    chunk order. *)
Lemma chunkLoop_outcome random size options total rem i chunks draws :
  snd (chunkLoop random size options total rem i chunks draws)
  = Js.Resolved
      (chunks ++ List.concat (chunkResults random options total rem i draws)).
Proof.
  revert i chunks draws.
  induction rem as [|rem IH]; intros i chunks draws.
  - cbn. now rewrite app_nil_r.
  - cbn [chunkLoop chunkResults]. rewrite bind_emit. cbn [snd].
    rewrite bind_report. cbn [snd]. rewrite IH.
    cbn [List.concat]. now rewrite app_assoc.
Qed.

(** It slices one byte range per chunk. *)
Lemma chunkLoop_slices random size options total rem i chunks draws :
  slices (fst (chunkLoop random size options total rem i chunks draws))
  = sliceRanges size rem i.
Proof.
  revert i chunks draws.
  induction rem as [|rem IH]; intros i chunks draws; [reflexivity|].
  cbn [chunkLoop sliceRanges]. rewrite bind_emit. cbn [fst].
  rewrite bind_report. cbn [fst].
  change (slices (?ev :: ?t)) with (slices [ev] ++ slices t).
  rewrite slices_app, report_slices, IH. reflexivity.
Qed.

(** It never submits the blob whole. *)
Lemma chunkLoop_submissions random size options total rem i chunks draws :
  submissions (fst (chunkLoop random size options total rem i chunks draws))
  = [].
Proof.
  revert i chunks draws.
  induction rem as [|rem IH]; intros i chunks draws; [reflexivity|].
  cbn [chunkLoop]. rewrite bind_emit. cbn [fst].
  rewrite bind_report. cbn [fst].
  change (submissions (?ev :: ?t)) with (submissions [ev] ++ submissions t).
  rewrite submissions_app, report_submissions, IH. reflexivity.
Qed.

Lemma directTicks_resolved cb base elapsed :
  snd (directTicks cb base elapsed) = Js.Resolved tt.
Proof.
  induction elapsed as [|e rest IH]; [reflexivity|].
  cbn [directTicks]. rewrite bind_report. exact IH.
Qed.

Lemma directTicks_slices cb base elapsed :
  slices (fst (directTicks cb base elapsed)) = [] /\
  submissions (fst (directTicks cb base elapsed)) = [].
Proof.
  induction elapsed as [|e rest [IH1 IH2]]; [split; reflexivity|].
  cbn [directTicks]. rewrite bind_report. cbn [fst].
  rewrite slices_app, submissions_app, report_slices, report_submissions.
  now rewrite IH1, IH2.
Qed.

(** The chunked path, as a whole. *)
Lemma transcribeAudioInChunks_run random audioBlob options :
  let total := totalChunksOf (Js.blobSize audioBlob) in
  snd (transcribeAudioInChunks random audioBlob options)
  = Js.Resolved
      (List.concat (chunkResults random options total (Z.to_nat total) 0 0%nat)) /\
  slices (fst (transcribeAudioInChunks random audioBlob options))
  = sliceRanges (Js.blobSize audioBlob) (Z.to_nat total) 0 /\
  submissions (fst (transcribeAudioInChunks random audioBlob options)) = [].
Proof.
  intros total. unfold transcribeAudioInChunks. fold total.
  rewrite bind_report.
  pose proof (chunkLoop_outcome random (Js.blobSize audioBlob) options total
                (Z.to_nat total) 0 [] 0%nat) as Ho.
  cbn [app] in Ho.
  rewrite (bind_resolved _ _ _ Ho). rewrite bind_report.
  cbn [fst snd Js.ret].
  rewrite !slices_app, !submissions_app, !report_slices, !report_submissions.
  rewrite chunkLoop_slices, chunkLoop_submissions.
  cbn [app]. rewrite !app_nil_r. auto.
Qed.

(** The direct path, as a whole. *)
Lemma transcribeAudioDirect_run random elapsed audioBlob options :
  snd (transcribeAudioDirect random elapsed audioBlob options)
  = Js.Resolved
      (fst (generateOptimizedTranscription random 0
              (Js.orElse (duration options) 60) 0)) /\
  slices (fst (transcribeAudioDirect random elapsed audioBlob options)) = [] /\
  submissions (fst (transcribeAudioDirect random elapsed audioBlob options))
  = [Js.blobSize audioBlob].
Proof.
  unfold transcribeAudioDirect.
  rewrite bind_report, !bind_emit.
  rewrite (bind_resolved _ _ tt (directTicks_resolved _ _ _)).
  rewrite bind_report. cbn [fst snd Js.ret].
  destruct (directTicks_slices (progressCallback options)
              (Qmin (inject_Z (Js.blobSize audioBlob) / (1024 * 1024) * 50) 3000)
              elapsed) as [Hs Hb].
  rewrite !slices_app, !submissions_app, !report_slices, !report_submissions.
  change (slices (?a :: ?b :: ?c :: ?t)) with (slices t).
  change (submissions (Js.FormAppendFile ?n ?f :: ?b :: ?c :: ?t))
    with (n :: submissions t).
  rewrite !slices_app, !submissions_app, !report_slices, !report_submissions.
  rewrite Hs, Hb. auto.
Qed.

(** The size test of [transcribeAudio], on bytes. *)
Lemma isLargeAudio_spec (size : Z) :
  Js.gt (inject_Z size / (1024 * 1024)) 25 = true
  <-> (25 * 1024 * 1024 < size)%Z.
Proof.
  rewrite js_gt_true. unfold Qdiv.
  change (/ (1024 * 1024)) with (1 # 1048576).
  rewrite Zlt_Qlt. change (inject_Z (25 * 1024 * 1024)) with 26214400.
  split; intros H; lra.
Qed.

(** Nothing in the simulated backend throws: [transcribeAudio] is the body of
    its [try]. *)
Lemma transcribeAudio_body random elapsed audioBlob options :
  transcribeAudio random elapsed audioBlob options
  = (Js.report (progressCallback options) 10 "Preparing transcription..." ;;
     if Js.gt (inject_Z (Js.blobSize audioBlob) / (1024 * 1024)) 25
        && progressCallback options
     then
       Js.emit (Js.Progress 20 "Processing large audio file with chunking...") ;;
       transcribeAudioInChunks random audioBlob options
     else transcribeAudioDirect random elapsed audioBlob options)%async.
Proof.
  unfold transcribeAudio. cbv zeta.
  match goal with |- Js.try_catch ?m _ = _ => set (body := m) end.
  assert (Hres : exists r, snd body = Js.Resolved r).
  { unfold body. rewrite bind_report. cbn [snd].
    destruct (Js.gt _ 25 && progressCallback options).
    - rewrite bind_emit. cbn [snd].
      destruct (transcribeAudioInChunks_run random audioBlob options) as [-> _].
      eauto.
    - destruct (transcribeAudioDirect_run random elapsed audioBlob options)
        as [-> _].
      eauto. }
  destruct Hres as [r Hr]. now rewrite (try_catch_resolved _ _ _ Hr).
Qed.

(** The number of chunks: the least [n] with [n * chunkSize >= size]. *)
Lemma totalChunks_bounds size :
  ((totalChunksOf size - 1) * chunkSize < size <= totalChunksOf size * chunkSize)%Z.
Proof.
  unfold totalChunksOf, Js.ceil.
  set (x := inject_Z size / inject_Z chunkSize).
  pose proof (Qle_ceiling x) as Hle. pose proof (Qceiling_lt x) as Hlt.
  set (n := Qceiling x) in *.
  assert (Ex : x == inject_Z size * (1 # 20971520)) by reflexivity.
  rewrite Ex in Hle, Hlt.
  rewrite Zlt_Qlt, Zle_Qle, !inject_Z_mult.
  unfold Zminus in *. rewrite inject_Z_plus in *.
  change (inject_Z (-1)) with (-1) in *.
  change (inject_Z chunkSize) with 20971520.
  split; lra.
Qed.

(** The loop's ranges tile the bytes still to be sliced. *)
Lemma sliceRanges_tiles size rem i :
  (i * chunkSize < size)%Z ->
  ((i + Z.of_nat rem - 1) * chunkSize < size <= (i + Z.of_nat rem) * chunkSize)%Z ->
  tiles (i * chunkSize) (sliceRanges size rem i) size.
Proof.
  assert (Hcs : chunkSize = 20971520%Z) by reflexivity.
  revert i. induction rem as [|rem IH]; intros i Hi [Hlo Hhi].
  - exfalso. rewrite Hcs in *. lia.
  - cbn [sliceRanges].
    remember (sliceRanges size rem (i + 1)) as rest eqn:Erest.
    cbn [tiles]. split; [reflexivity|].
    destruct rem as [|rem'].
    + (* the last chunk *)
      rewrite Z.min_r by (rewrite Hcs in *; lia).
      subst rest. cbn [sliceRanges tiles].
      split; [lia|]. split; [rewrite Hcs in *; lia|].
      split; [intros H; now elim H | reflexivity].
    + rewrite Z.min_l by (rewrite Hcs in *; lia).
      split; [rewrite Hcs; lia|]. split; [lia|]. split; [intros _; ring|].
      replace (i * chunkSize + chunkSize)%Z with ((i + 1) * chunkSize)%Z by ring.
      subst rest. apply IH; [|split]; rewrite Hcs in *; lia.
Qed.

(** C3 as stated fails: a 60MB blob passed without a progress callback is
    submitted whole, in direct mode. *)
Lemma large_blob_without_callback_is_direct :
  (25 * 1024 * 1024 < Js.blobSize blob60MB)%Z /\
  usesDirectMode blob60MB
    (fst (transcribeAudio (constantRandom (1 # 2)) []
            blob60MB (optionsFor 120 false))) /\
  ~ usesChunkedMode
      (fst (transcribeAudio (constantRandom (1 # 2)) []
              blob60MB (optionsFor 120 false))).
Proof.
  split; [reflexivity|]. split.
  - split; reflexivity.
  - intros [H _]. now apply H.
Qed.

(** C3, amended. For every audio blob passed to [transcribeAudio], chunked
    mode is used if and only if the blob's size exceeds 25MB and a progress
    callback was supplied; otherwise a single direct submission of the whole
    blob is used.  In chunked mode the sliced byte ranges tile the blob from
    byte 0 to its size: contiguous, non-empty, each at most 20MB and all but
    the last exactly 20MB. *)
Theorem transcribe_mode_rule random elapsed audioBlob options :
  let trace := fst (transcribeAudio random elapsed audioBlob options) in
  let chunked :=
    (25 * 1024 * 1024 < Js.blobSize audioBlob)%Z /\
    progressCallback options = true in
  (usesChunkedMode trace <-> chunked) /\
  (usesDirectMode audioBlob trace <-> ~ chunked) /\
  (chunked ->
   slices trace
   = sliceRanges (Js.blobSize audioBlob)
       (Z.to_nat (totalChunksOf (Js.blobSize audioBlob))) 0 /\
   tiles 0 (slices trace) (Js.blobSize audioBlob)).
Proof.
  intros trace chunked.
  assert (Hcs : chunkSize = 20971520%Z) by reflexivity.
  pose proof (totalChunks_bounds (Js.blobSize audioBlob)) as Hn.
  pose proof (isLargeAudio_spec (Js.blobSize audioBlob)) as Hlarge.
  assert (Hcases :
    (chunked /\
     slices trace
     = sliceRanges (Js.blobSize audioBlob)
         (Z.to_nat (totalChunksOf (Js.blobSize audioBlob))) 0 /\
     submissions trace = []) \/
    (~ chunked /\ slices trace = [] /\
     submissions trace = [Js.blobSize audioBlob])).
  { unfold trace, chunked. rewrite transcribeAudio_body.
    rewrite bind_report. cbn [fst].
    rewrite slices_app, submissions_app, report_slices, report_submissions.
    cbn [app].
    destruct (Js.gt _ 25) eqn:Eg; destruct (progressCallback options) eqn:Ecb;
      cbn [andb].
    - left. split; [split; [now apply Hlarge | reflexivity]|].
      rewrite bind_emit. cbn [fst].
      change (slices (?ev :: ?t)) with (slices t).
      change (submissions (?ev :: ?t)) with (submissions t).
      destruct (transcribeAudioInChunks_run random audioBlob options)
        as (_ & Hs & Hb).
      cbv zeta in Hs. now rewrite Hs, Hb.
    - right. split; [intros [_ H]; discriminate H|].
      now destruct (transcribeAudioDirect_run random elapsed audioBlob options)
        as (_ & Hs & Hb).
    - right. split.
      { intros [H _]. apply Hlarge in H. congruence. }
      now destruct (transcribeAudioDirect_run random elapsed audioBlob options)
        as (_ & Hs & Hb).
    - right. split; [intros [_ H]; discriminate H|].
      now destruct (transcribeAudioDirect_run random elapsed audioBlob options)
        as (_ & Hs & Hb). }
  assert (Htiles : chunked ->
            tiles 0 (sliceRanges (Js.blobSize audioBlob)
                       (Z.to_nat (totalChunksOf (Js.blobSize audioBlob))) 0)
                  (Js.blobSize audioBlob)).
  { intros [Hbig _].
    change 0%Z with (0 * chunkSize)%Z at 1.
    apply sliceRanges_tiles; rewrite Hcs in *; [lia|].
    rewrite Z2Nat.id by lia. lia. }
  assert (Hnonempty : chunked ->
            sliceRanges (Js.blobSize audioBlob)
              (Z.to_nat (totalChunksOf (Js.blobSize audioBlob))) 0 <> []).
  { intros [Hbig _].
    destruct (Z.to_nat (totalChunksOf (Js.blobSize audioBlob))) eqn:E;
      [rewrite Hcs in *; lia | discriminate]. }
  destruct Hcases as [(Hc & Hs & Hb)|(Hc & Hs & Hb)].
  - split; [|split].
    + split; [intros _; exact Hc|]. intros _. split; [|exact Hb].
      rewrite Hs. now apply Hnonempty.
    + split; [|intros H; now elim H]. intros [Hd _].
      rewrite Hs in Hd. now elim (Hnonempty Hc).
    + intros _. split; [exact Hs|]. rewrite Hs. now apply Htiles.
  - split; [|split].
    + split; [|intros H; now elim Hc]. intros [Hd _]. now elim Hd.
    + split; [intros _; exact Hc|]. intros _. now split.
    + intros H. now elim Hc.
Qed.

(** C3, amended, on a 60MB blob with a callback: three ranges of 20MB. *)
Lemma transcribe_mode_rule_witness :
  slices (fst (transcribeAudio (constantRandom (1 # 2)) []
                 blob60MB (optionsFor 120 true)))
  = [ (0, 20971520); (20971520, 41943040); (41943040, 62914560) ]%Z /\
  tiles 0
    (slices (fst (transcribeAudio (constantRandom (1 # 2)) []
                    blob60MB (optionsFor 120 true))))
    (Js.blobSize blob60MB).
Proof.
  destruct (transcribe_mode_rule (constantRandom (1 # 2)) []
              blob60MB (optionsFor 120 true)) as (_ & _ & H).
  destruct (H (conj eq_refl eq_refl)) as [Hs Ht].
  split; [rewrite Hs; reflexivity | exact Ht].
Defined.

End Driver.

(* --------------------------------------------------------------------- *)
(** ** Segment ids across chunks *)
(* --------------------------------------------------------------------- *)

Section SegmentIds.
Import Transcription.

(** A positive duration asks for at least one segment. *)
Lemma segmentCount_pos d : 0 < d -> (1 <= Js.ceil (d / 8))%Z.
Proof.
  intros Hd. unfold Js.ceil.
  pose proof (Qle_ceiling (d / 8)) as H.
  assert (Hp : 0 < d / 8).
  { unfold Qdiv. change (/ 8) with (1 # 8). lra. }
  assert (Hc : 0 < inject_Z (Qceiling (d / 8))) by lra.
  change 0 with (inject_Z 0) in Hc. rewrite <- Zlt_Qlt in Hc. lia.
Qed.

(** The ids of a call whose every iteration pushes a segment. *)
Lemma generate_ids_full random draws d off :
  inUnitInterval random -> 0 < d ->
  10 * (inject_Z (Js.ceil (d / 8)) - 1) <= d ->
  map id (fst (generateOptimizedTranscription random draws d off))
  = consecutive (Js.floor (off / 8) + 1) (Z.to_nat (Js.ceil (d / 8))).
Proof.
  intros Hr Hd Hroom. unfold generateOptimizedTranscription. cbv zeta.
  rewrite segmentLoop_ids. f_equal.
  apply segmentLoop_full; [exact Hr | lra |].
  rewrite Z2Nat.id by (pose proof (segmentCount_pos d Hd); lia). lra.
Qed.

(** The run of the claim's setting at 60 seconds: a 60MB blob, so three
    chunks of 20 seconds. *)
Lemma ids_60MB_60s random elapsed :
  inUnitInterval random ->
  exists segments,
    snd (transcribeAudio random elapsed blob60MB (optionsFor 60 true))
      = Js.Resolved segments /\
    map id segments = [1; 2; 3; 3; 4; 5; 6; 7; 8]%Z.
Proof.
  intros Hr. rewrite transcribeAudio_body. rewrite bind_report. cbn [snd].
  change (Js.gt (inject_Z (Js.blobSize blob60MB) / (1024 * 1024)) 25
          && progressCallback (optionsFor 60 true)) with true.
  cbv iota. rewrite bind_emit. cbn [snd].
  destruct (transcribeAudioInChunks_run random blob60MB (optionsFor 60 true))
    as (Ho & _). cbv zeta in Ho. rewrite Ho.
  eexists. split; [reflexivity|].
  change (totalChunksOf (Js.blobSize blob60MB)) with 3%Z.
  change (Z.to_nat 3) with 3%nat.
  cbn [chunkResults List.concat]. rewrite !map_app.
  change (Js.orElse (duration (optionsFor 60 true)) 60 / inject_Z 3)
    with (60 / 3).
  rewrite !generate_ids_full;
    try exact Hr; try reflexivity; try (vm_compute; discriminate).
Qed.

(** *** The failing run *)

Lemma halves_in_unit_interval : inUnitInterval (constantRandom (1 # 2)).
Proof. intros k. split; [discriminate | reflexivity]. Qed.

(** C4, on the code: a 60MB blob with a duration hint of 60 seconds is cut
    into three chunks of 20 seconds; each chunk yields three segments and
    numbers them from [floor(offset / 8) + 1], that is from 1, 3 and 6.  The
    returned ids are 1, 2, 3, 3, 4, 5, 6, 7, 8 whatever [Math.random()]
    returns: id 3 is given twice and the nine segments are not numbered
    1..9. *)
Theorem chunked_ids_collide random elapsed :
  inUnitInterval random ->
  exists segments,
    snd (transcribeAudio random elapsed blob60MB (optionsFor 60 true))
      = Js.Resolved segments /\
    map id segments = [1; 2; 3; 3; 4; 5; 6; 7; 8]%Z /\
    map id segments <> consecutive 1 (List.length segments) /\
    ~ NoDup (map id segments).
Proof.
  intros Hr. destruct (ids_60MB_60s random elapsed Hr) as (segments & Ho & Hids).
  exists segments. split; [exact Ho|]. split; [exact Hids|]. split.
  - rewrite <- (length_map id segments), Hids. discriminate.
  - rewrite Hids. intros Hnd.
    inversion Hnd as [|? ? _ Hnd1]; subst.
    inversion Hnd1 as [|? ? _ Hnd2]; subst.
    inversion Hnd2 as [|? ? Hnotin _]; subst.
    apply Hnotin. now left.
Qed.

(** C4 on the code, with every draw of [Math.random()] at 0.5. *)
Lemma chunked_ids_collide_witness :
  exists segments,
    snd (transcribeAudio (constantRandom (1 # 2)) [] blob60MB
           (optionsFor 60 true))
      = Js.Resolved segments /\
    map id segments = [1; 2; 3; 3; 4; 5; 6; 7; 8]%Z.
Proof.
  destruct (chunked_ids_collide (constantRandom (1 # 2)) []
              halves_in_unit_interval) as (segments & Ho & Hids & _).
  exists segments. split; [exact Ho | exact Hids].
Defined.

End SegmentIds.

(* --------------------------------------------------------------------- *)
(** ** Timestamps across chunks *)
(* --------------------------------------------------------------------- *)

Section Timestamps.
Import Transcription.

(** The clipped random duration is positive and fits the time left. *)
Lemma clipped_duration random k room :
  inUnitInterval random -> 0 < room ->
  0 < Qmin (8 + (random k * 4 - 2)) room /\
  Qmin (8 + (random k * 4 - 2)) room <= room /\
  (6 <= Qmin (8 + (random k * 4 - 2)) room \/
   Qmin (8 + (random k * 4 - 2)) room == room).
Proof.
  intros Hr Hroom. destruct (drawn_duration random k Hr) as [H6 H10].
  destruct (Q.min_spec (8 + (random k * 4 - 2)) room) as [[Hm ->]|[Hm ->]].
  - split; [lra|]. split; [lra|]. left. lra.
  - split; [lra|]. split; [lra|]. right. reflexivity.
Qed.


(** The first segment of a call starts at the current time. *)
Lemma segmentLoop_first random d off count rem i cur sid draws :
  cur < off + d ->
  exists s rest,
    fst (segmentLoop random d off count (S rem) i cur sid draws) = s :: rest /\
    startTime s = cur.
Proof.
  intros Hlt.
  destruct (segmentLoop_step random d off count rem i cur sid draws Hlt)
    as (txt & -> & _).
  eexists. eexists. split; reflexivity.
Qed.

Lemma last_cons_default {A} (x : A) l d : last (x :: l) d = last l x.
Proof.
  revert x d. induction l as [|y l IH]; intros x d; [reflexivity|].
  change (last (x :: y :: l) d) with (last (y :: l) d).
  now rewrite !IH.
Qed.

Lemma finalTime_cons s rest start :
  finalTime (s :: rest) start = finalTime rest (endTime s).
Proof. unfold finalTime. cbn [map]. apply last_cons_default. Qed.


(** The end of a call: never beyond the window, and at least 6 seconds per
    iteration unless the window is filled. *)
Lemma segmentLoop_final random d off count rem i cur sid draws :
  inUnitInterval random -> cur <= off + d ->
  let final :=
    finalTime (fst (segmentLoop random d off count rem i cur sid draws)) cur in
  final <= off + d /\
  (off + d <= final \/ cur + 6 * inject_Z (Z.of_nat rem) <= final).
Proof.
  intros Hr. revert i cur sid draws.
  induction rem as [|rem IH]; intros i cur sid draws Hle final.
  - unfold final, finalTime. cbn [segmentLoop fst map last].
    change (inject_Z (Z.of_nat 0)) with 0.
    split; [exact Hle|]. right. lra.
  - destruct (Qlt_le_dec cur (off + d)) as [Hlt|Hge].
    + unfold final.
      destruct (segmentLoop_step random d off count rem i cur sid draws Hlt)
        as (txt & -> & _).
      rewrite finalTime_cons. cbn [endTime].
      assert (Hroom : 0 < off + d - cur) by lra.
      destruct (clipped_duration random draws _ Hr Hroom)
        as (Hpos & Hfit & Hlong).
      set (cur' := cur + Qmin (8 + (random draws * 4 - 2)) (off + d - cur)) in *.
      assert (Hle' : cur' <= off + d) by (unfold cur'; lra).
      destruct (IH (i + 1)%Z cur' (sid + 1)%Z (draws + 3)%nat Hle')
        as [Hup Hlow].
      split; [exact Hup|].
      destruct Hlow as [Hlow|Hlow]; [now left|].
      rewrite Nat2Z.inj_succ. unfold Z.succ. rewrite inject_Z_plus.
      change (inject_Z 1) with 1.
      assert (Hstep : cur + 6 <= cur' \/ cur' == off + d).
      { unfold cur'. destruct Hlong as [Hlong|Hfull]; [left|right]; lra. }
      assert (Hrem : 0 <= inject_Z (Z.of_nat rem)).
      { change 0 with (inject_Z 0). rewrite <- Zle_Qle. lia. }
      clearbody cur'.
      destruct Hstep as [Hstep|Hstep]; [right|left]; lra.
    + unfold final. rewrite segmentLoop_stop by exact Hge.
      unfold finalTime. cbn [fst map last].
      split; [exact Hle|]. left. exact Hge.
Qed.


(** *** One call of the recogniser *)


Lemma generate_first random draws d off :
  0 < d ->
  exists s rest,
    fst (generateOptimizedTranscription random draws d off) = s :: rest /\
    startTime s = off.
Proof.
  intros Hd. unfold generateOptimizedTranscription. cbv zeta.
  pose proof (segmentCount_pos d Hd) as Hc.
  destruct (Z.to_nat (Js.ceil (d / 8))) as [|rem] eqn:E; [lia|].
  apply segmentLoop_first. lra.
Qed.

Lemma finalTime_nonempty s rest x y :
  finalTime (s :: rest) x = finalTime (s :: rest) y.
Proof. now rewrite !finalTime_cons. Qed.

(** A call ends within its window and covers at least three quarters of it. *)
Lemma generate_final random draws d off start :
  inUnitInterval random -> 0 < d ->
  off + d * (3 # 4)
    <= finalTime (fst (generateOptimizedTranscription random draws d off)) start
  /\ finalTime (fst (generateOptimizedTranscription random draws d off)) start
     <= off + d.
Proof.
  intros Hr Hd.
  destruct (generate_first random draws d off Hd) as (s & rest & E & _).
  rewrite E, (finalTime_nonempty s rest start off), <- E.
  unfold generateOptimizedTranscription. cbv zeta.
  assert (Hle : off <= off + d) by lra.
  destruct (segmentLoop_final random d off (Js.ceil (d / 8))
              (Z.to_nat (Js.ceil (d / 8))) 0 off
              (Js.floor (off / 8) + 1) draws Hr Hle) as [Hup Hlow].
  split; [|exact Hup].
  rewrite Z2Nat.id in Hlow by (pose proof (segmentCount_pos d Hd); lia).
  pose proof (Qle_ceiling (d / 8)) as Hceil. unfold Js.ceil in *.
  set (n := inject_Z (Qceiling (d / 8))) in *. clearbody n.
  unfold Qdiv in Hceil. change (/ 8) with (1 # 8) in Hceil.
  destruct Hlow as [Hlow|Hlow]; lra.
Qed.


(** *** The chunks of a run *)



(** *** The whole chunked run *)




End Timestamps.

(* --------------------------------------------------------------------- *)
(** ** Editing a segment *)
(* --------------------------------------------------------------------- *)

Section Editing.
Import Transcription Panel.

Lemma edit_data id_ newText st :
  editedData (edit id_ newText st)
  = map (fun item => if (id item =? id_)%Z then withText item newText else item)
        (editedData st).
Proof. reflexivity. Qed.

(** Editing an id no segment carries changes nothing. *)
Lemma edit_absent id_ newText (data : list Segment) :
  ~ In id_ (map id data) ->
  map (fun item => if (id item =? id_)%Z then withText item newText else item)
      data = data.
Proof.
  induction data as [|item data IH]; intros Hnot; [reflexivity|].
  cbn [map] in *. destruct (Z.eqb_spec (id item) id_) as [E|_].
  - exfalso. apply Hnot. now left.
  - f_equal. apply IH. intros H. apply Hnot. now right.
Qed.

(** After the edit, the first segment carrying the id has the new text. *)
Lemma edit_read_back id_ newText (data : list Segment) :
  In id_ (map id data) ->
  option_map text
    (find (fun item => (id item =? id_)%Z)
       (map (fun item =>
               if (id item =? id_)%Z then withText item newText else item)
            data))
  = Some newText.
Proof.
  induction data as [|item data IH]; intros Hin; [contradiction|].
  cbn [map find]. destruct (Z.eqb_spec (id item) id_) as [E|N].
  - cbn [withText id]. destruct (Z.eqb_spec (id item) id_); [reflexivity|].
    contradiction.
  - destruct (Z.eqb_spec (id item) id_); [contradiction|].
    apply IH. destruct Hin as [Hin|Hin]; [contradiction | exact Hin].
Qed.

(** With distinct ids, only one position carries a given id. *)
Lemma edit_unique_position id_ newText (data : list Segment) k k' item :
  NoDup (map id data) ->
  nth_error data k = Some item -> id item = id_ -> k' <> k ->
  nth_error
    (map (fun item =>
            if (id item =? id_)%Z then withText item newText else item) data)
    k'
  = nth_error data k'.
Proof.
  intros Hnd Hk Hid Hne. rewrite nth_error_map.
  destruct (nth_error data k') as [item'|] eqn:Hk'; [|reflexivity].
  cbn [option_map]. destruct (Z.eqb_spec (id item') id_) as [E|_]; [|reflexivity].
  exfalso. apply Hne.
  rewrite NoDup_nth_error in Hnd. apply Hnd.
  - rewrite length_map. apply nth_error_Some. congruence.
  - rewrite !nth_error_map, Hk, Hk'. cbn. congruence.
Qed.

(** C8. [edit(id, text)] keeps the list's length and order; at every
    position the segment keeps its id, start time, end time and confidence;
    a segment carrying the id gets exactly [text] as its text and any other
    segment is unchanged: with distinct ids, every position but the one of
    the id is left as it was.  When the id is present, reading it back gives
    [text]; when it is absent the list is left as it was. *)
Theorem edit_replaces_text_only (st : State) (id_ : Z) (newText : string) :
  List.length (editedData (edit id_ newText st))
    = List.length (editedData st) /\
  (forall k item,
     nth_error (editedData st) k = Some item ->
     exists item',
       nth_error (editedData (edit id_ newText st)) k = Some item' /\
       id item' = id item /\ startTime item' = startTime item /\
       endTime item' = endTime item /\ confidence item' = confidence item /\
       (id item = id_ -> text item' = newText) /\
       (id item <> id_ -> item' = item)) /\
  (NoDup (map id (editedData st)) ->
   forall k k' item,
     nth_error (editedData st) k = Some item -> id item = id_ -> k' <> k ->
     nth_error (editedData (edit id_ newText st)) k'
     = nth_error (editedData st) k') /\
  (In id_ (map id (editedData st)) ->
   readText id_ (edit id_ newText st) = Some newText) /\
  (~ In id_ (map id (editedData st)) ->
   editedData (edit id_ newText st) = editedData st).
Proof.
  rewrite edit_data. split; [apply length_map|]. split; [|split; [|split]].
  - intros k item Hk.
    rewrite nth_error_map, Hk. cbn [option_map].
    destruct (Z.eqb_spec (id item) id_) as [E|N].
    + exists (withText item newText). repeat split; try reflexivity.
      intros H. contradiction.
    + exists item. repeat split; try reflexivity.
      intros H. contradiction.
  - intros Hnd k k' item Hk Hid Hne.
    now apply (edit_unique_position id_ newText _ k k' item).
  - intros Hin. unfold readText. rewrite edit_data.
    now apply edit_read_back.
  - apply edit_absent.
Qed.

(** C8 on a list of two segments: the second one gets the new text, the
    first one stays. *)
Lemma edit_replaces_text_only_witness :
  readText 2
    (edit 2 "Privacy first."
       (mkState "" None "" Exports.twoSegments))
  = Some "Privacy first."%string /\
  nth_error
    (editedData (edit 2 "Privacy first."
                   (mkState "" None "" Exports.twoSegments))) 0
  = nth_error Exports.twoSegments 0.
Proof.
  destruct (edit_replaces_text_only
              (mkState "" None "" Exports.twoSegments) 2 "Privacy first.")
    as (_ & Hpos & _ & Hread & _).
  split.
  - apply Hread. cbn. tauto.
  - destruct (Hpos 0%nat _ eq_refl) as (item' & -> & _ & _ & _ & _ & _ & Hsame).
    rewrite Hsame; [reflexivity | discriminate].
Defined.

(** With the ids of the chunked run of 60 seconds, where id 3 is given
    twice, one edit of id 3 rewrites two segments. *)
Lemma edit_hits_both_duplicates :
  match snd (transcribeAudio (constantRandom (1 # 2)) [] blob60MB
               (optionsFor 60 true)) with
  | Js.Resolved segments =>
      List.length
        (filter (fun item => String.eqb (text item) "edited")
           (editedData (edit 3 "edited" (mkState "" None "" segments))))
      = 2%nat
  | _ => False
  end.
Proof. vm_compute. reflexivity. Qed.

End Editing.

(* --------------------------------------------------------------------- *)
(** ** Exporting several items *)
(* --------------------------------------------------------------------- *)

Section ExportAll.
Import Transcription Exports.

Variable generateSummary : list Segment -> string.
Variable generateKeyPoints : list Segment -> list string.
Variable saveAsFails : string -> option string.
Variable packerFails : string -> option string.

Local Notation "'exportOne'" :=
  (exportTranscription generateSummary generateKeyPoints saveAsFails packerFails).
Local Notation "'exportMany'" :=
  (exportLoop generateSummary generateKeyPoints saveAsFails packerFails).

Ltac split_branches :=
  repeat match goal with
         | |- context [match ?x with _ => _ end] => destruct x; cbn
         end.

(** An export settles: it returns its file name or throws. *)
Lemma exportTranscription_settles data exportType fileFormat base :
  snd (exportOne data exportType fileFormat base) <> Js.Pending.
Proof.
  unfold exportTranscription, exportAsTxt, exportAsHtml, exportAsDocx, saveAs.
  cbn. split_branches; discriminate.
Qed.

(** The loop goes through every item: each one adds the line its own
    outcome calls for, and the loop performs each item's export in turn. *)
Lemma exportLoop_run data base items results :
  exists added,
    snd (exportMany data base items results) = Js.Resolved (results ++ added) /\
    Forall2 (fun item entry =>
               entryMatches (fst item) (snd item)
                 (snd (exportOne data (fst item) (format (snd item)) base))
                 entry)
            items added /\
    fst (exportMany data base items results)
    = flat_map (itemTrace generateSummary generateKeyPoints
                          saveAsFails packerFails data base) items.
Proof.
  revert results. induction items as [|[exportType config] items IH];
    intros results.
  - exists []. cbn. rewrite app_nil_r. repeat split. constructor.
  - cbn [exportLoop flat_map].
    unfold itemTrace at 1. cbn [fst snd].
    pose proof (exportTranscription_settles data exportType (format config) base)
      as Hsettles.
    destruct (exportOne data exportType (format config) base) as [t o] eqn:E.
    cbn [fst snd] in *.
    destruct o as [result|err|]; [| |now elim Hsettles].
    + (* this export succeeded *)
      set (entry := mkEntry exportType (format config)
                            (Some (filename result)) true None).
      destruct (IH (results ++ [entry])) as (added & Ho & Hall & Ht).
      exists (entry :: added). split; [|split].
      * unfold Js.try_catch, Js.bind. cbn [fst snd Js.ret].
        fold entry. rewrite Ho, <- app_assoc. reflexivity.
      * constructor; [|exact Hall].
        unfold entryMatches. cbn [fst snd]. rewrite E.
        cbn. repeat split.
      * unfold Js.try_catch, Js.bind. cbn [fst snd Js.ret].
        fold entry. rewrite Ht. now rewrite !app_nil_r.
    + (* this export failed: the failure is recorded and the loop goes on *)
      set (entry := mkEntry exportType (format config) None false
                            (Some (Js.message err))).
      destruct (IH (results ++ [entry])) as (added & Ho & Hall & Ht).
      exists (entry :: added). split; [|split].
      * unfold Js.try_catch, Js.bind. cbn [fst snd Js.ret Js.console Js.emit].
        fold entry. rewrite Ho, <- app_assoc. reflexivity.
      * constructor; [|exact Hall].
        unfold entryMatches. cbn [fst snd]. rewrite E.
        cbn. repeat split.
      * unfold Js.try_catch, Js.bind. cbn [fst snd Js.ret Js.console Js.emit].
        fold entry. rewrite Ht. now rewrite <- !app_assoc.
Qed.

(** C9. [handleExportAll] always completes, with no run-level error: its
    result list has one line per enabled export, in order, each line saying
    what that export's own call of [exportTranscription] did (the file name
    when it returned, the error message when it threw); and the run performs
    every enabled item's export in turn, whatever the earlier ones did. *)
Theorem export_all_collects_each_outcome
    (data : option (list Segment)) (videoFileName : option string)
    (st : ModalState) :
  let base := baseFilenameOf videoFileName in
  let items := filter (fun entry => enabled (snd entry)) (selectedExports st) in
  let run := handleExportAll generateSummary generateKeyPoints
               saveAsFails packerFails data videoFileName st in
  exists st',
    snd run = Js.Resolved st' /\
    isExporting st' = false /\ error st' = None /\
    List.length (exportResults st') = List.length items /\
    Forall2 (fun item entry =>
               entryMatches (fst item) (snd item)
                 (snd (exportOne data (fst item) (format (snd item)) base))
                 entry)
            items (exportResults st') /\
    fst run = flat_map (itemTrace generateSummary generateKeyPoints
                                  saveAsFails packerFails data base) items.
Proof.
  intros base items run.
  destruct (exportLoop_run data base items []) as (added & Ho & Hall & Ht).
  cbn [app] in Ho.
  exists (mkModal (selectedExports st) false added None).
  assert (Hrun : run = (fst (exportMany data base items []),
                        Js.Resolved (mkModal (selectedExports st) false added None))).
  { unfold run, handleExportAll. fold base. fold items.
    unfold Js.try_catch, Js.bind. rewrite Ho. cbn [fst snd Js.ret].
    now rewrite !app_nil_r. }
  rewrite Hrun. cbn [fst snd exportResults isExporting error].
  repeat split; try assumption.
  symmetry. eapply Forall2_length. exact Hall.
Qed.

End ExportAll.

Section ExportAllSample.
Import Transcription Exports.

Local Notation "'sampleExport'" :=
  (exportTranscription (fun _ => "A summary."%string)
     (fun _ => ["One point."%string]) (fun _ => None) brokenPacker
     (Some twoSegments)).

(** The three exports of the sample, one by one. *)
Lemma sample_export_outcomes :
  snd (sampleExport "full" "txt" (baseFilenameOf (Some "talk.mp4")))%string
    = Js.Resolved (mkExportResult true "talk_full_transcript.txt") /\
  snd (sampleExport "summary" "docx" (baseFilenameOf (Some "talk.mp4")))%string
    = Js.Rejected
        (Js.newError "Failed to create DOCX file. Please try a different format.") /\
  snd (sampleExport "keypoints" "txt" (baseFilenameOf (Some "talk.mp4")))%string
    = Js.Resolved (mkExportResult true "talk_key_points.txt").
Proof. repeat split. Qed.

(** C9 on three enabled exports with the Word packer broken: the summary
    fails, the full transcript before it and the key points after it are
    both saved. *)
Lemma export_all_collects_each_outcome_witness :
  exists st',
    snd (handleExportAll (fun _ => "A summary."%string)
           (fun _ => ["One point."%string])
           (fun _ => None) brokenPacker
           (Some twoSegments) (Some "talk.mp4"%string) threeExports)
      = Js.Resolved st' /\
    map entrySuccess (exportResults st') = [true; false; true] /\
    map entryFilename (exportResults st')
      = [ Some "talk_full_transcript.txt"%string; None;
          Some "talk_key_points.txt"%string ].
Proof.
  destruct (export_all_collects_each_outcome
              (fun _ => "A summary."%string) (fun _ => ["One point."%string])
              (fun _ => None) brokenPacker
              (Some twoSegments) (Some "talk.mp4"%string) threeExports)
    as (st' & Ho & _ & _ & _ & Hall & _).
  exists st'. split; [exact Ho|].
  destruct sample_export_outcomes as (Efull & Esummary & Epoints).
  cbn [filter selectedExports threeExports enabled snd] in Hall.
  inversion Hall as [|? e1 ? l1 (_ & _ & Hfull) Hall1]; subst.
  inversion Hall1 as [|? e2 ? l2 (_ & _ & Hsummary) Hall2]; subst.
  inversion Hall2 as [|? e3 ? l3 (_ & _ & Hpoints) Hall3]; subst.
  inversion Hall3; subst.
  cbn [fst snd format] in Hfull, Hsummary, Hpoints.
  rewrite Efull in Hfull. rewrite Esummary in Hsummary.
  rewrite Epoints in Hpoints.
  destruct Hfull as (S1 & F1 & _), Hsummary as (S2 & F2 & _),
           Hpoints as (S3 & F3 & _).
  cbn [map]. rewrite S1, S2, S3, F1, F2, F3. split; reflexivity.
Defined.

End ExportAllSample.

(* --------------------------------------------------------------------- *)
(** ** The export text of a transcript *)
(* --------------------------------------------------------------------- *)

Section ExportText.
Import Transcription.

(** The plain-text form: the segment texts separated by blank lines. *)
Lemma format_default_branch (data : list Segment) (fmt : string) :
  Js.toLowerCase fmt <> "txt"%string ->
  Js.toLowerCase fmt <> "srt"%string ->
  Js.toLowerCase fmt <> "vtt"%string ->
  formatTranscriptionForExport (Some data) fmt
  = String.concat (Js.nl ++ Js.nl) (map text data).
Proof.
  intros Htxt Hsrt Hvtt. unfold formatTranscriptionForExport.
  destruct data as [|segment data]; [reflexivity|].
  cbn [List.length Nat.eqb].
  destruct (String.eqb_spec (Js.toLowerCase fmt) "txt"); [contradiction|].
  destruct (String.eqb_spec (Js.toLowerCase fmt) "srt"); [contradiction|].
  destruct (String.eqb_spec (Js.toLowerCase fmt) "vtt"); [contradiction|].
  reflexivity.
Qed.

(** C10. Whatever the format, [formatTranscriptionForExport] of [null] or of
    an empty list is the empty string; and for a format that is none of txt,
    srt, vtt (letter case ignored) the result is the segment texts joined by
    blank lines. *)
Theorem format_empty_and_default (data : list Segment) (fmt : string) :
  formatTranscriptionForExport None fmt = ""%string /\
  formatTranscriptionForExport (Some []) fmt = ""%string /\
  (Js.toLowerCase fmt <> "txt"%string ->
   Js.toLowerCase fmt <> "srt"%string ->
   Js.toLowerCase fmt <> "vtt"%string ->
   formatTranscriptionForExport (Some data) fmt
   = String.concat (Js.nl ++ Js.nl) (map text data)).
Proof.
  split; [reflexivity|]. split; [reflexivity|]. apply format_default_branch.
Qed.

(** C10 on the format ["JSON"]: two texts, a blank line between them. *)
Lemma format_empty_and_default_witness :
  formatTranscriptionForExport (Some Exports.twoSegments) "JSON"
  = ("Welcome to our comprehensive video presentation." ++ Js.nl ++ Js.nl
       ++ "Security is a top priority.")%string.
Proof.
  destruct (format_empty_and_default Exports.twoSegments "JSON")
    as (_ & _ & Hdefault).
  rewrite Hdefault; [reflexivity | discriminate | discriminate | discriminate].
Defined.

End ExportText.

(* ===================================================================== *)
(** * Further properties of the services *)
(* ===================================================================== *)

(* --------------------------------------------------------------------- *)
(** ** The native extractor's choices *)
(* --------------------------------------------------------------------- *)

Section NativeChoices.
Import Compression Observed.





(** X2. The recorder's MIME type is negotiated by preference: when the
    browser supports some candidate, the selected type is supported and no
    candidate listed before it is; when it supports none, the selection
    falls back to ['audio/webm']. *)
Theorem selected_mime_type_is_first_supported env :
  (forall t, In t audioMimeTypes -> isTypeSupported env t = false) /\
    selectedMimeType env = "audio/webm"%string
  \/
  isTypeSupported env (selectedMimeType env) = true /\
  exists before after,
    audioMimeTypes = before ++ selectedMimeType env :: after /\
    forall t, In t before -> isTypeSupported env t = false.
Proof.
  unfold selectedMimeType.
  generalize audioMimeTypes as candidates.
  intros candidates.
  destruct (find (isTypeSupported env) candidates) as [t|] eqn:E.
  - right. split; [now destruct (find_some _ _ E)|].
    revert E. induction candidates as [|c cs IH]; [discriminate|].
    cbn [find]. destruct (isTypeSupported env c) eqn:Ec.
    + intros [= <-]. exists [], cs. split; [reflexivity | contradiction].
    + intros E. destruct (IH E) as (before & after & -> & Hb).
      exists (c :: before), after. split; [reflexivity|].
      intros t' [<-|Hin]; [exact Ec | now apply Hb].
  - left. split; [|reflexivity].
    intros t Hin. exact (find_none _ _ E t Hin).
Qed.

End NativeChoices.

(* --------------------------------------------------------------------- *)
(** ** The engine's file system *)
(* --------------------------------------------------------------------- *)

Section EngineFiles.
Import Compression Observed.

(** X3. A successful engine extraction writes [input.mp4], reads
    [output.mp3] and removes both, in this order.  When the conversion or the
    read fails, the input file has been written and nothing is removed: the
    engine's file system keeps [input.mp4]. *)
Theorem engine_files_removed_only_on_success env file cb :
  (forall blob,
     snd (ffmpegAudioExtraction env file cb) = Js.Resolved blob ->
     fsOps (fst (ffmpegAudioExtraction env file cb))
     = [ ("writeFile", "input.mp4"); ("readFile", "output.mp3");
         ("unlink", "input.mp4"); ("unlink", "output.mp3") ]%string) /\
  (isLoaded (ffmpeg env) = true \/ loadFails (ffmpeg env) = None ->
   writeFails (ffmpeg env) = None ->
   runFails (ffmpeg env) <> None \/ readFails (ffmpeg env) <> None ->
   In ("writeFile", "input.mp4")%string
      (fsOps (fst (ffmpegAudioExtraction env file cb))) /\
   forall f, ~ In ("unlink"%string, f)
                  (fsOps (fst (ffmpegAudioExtraction env file cb)))).
Proof.
  unfold ffmpegAudioExtraction, ensureFFmpegLoaded.
  destruct (ffmpeg env) as [il lf wf rf rdf uf ob]. cbn [isLoaded loadFails
    writeFails runFails readFails unlinkFails outputBytes].
  split.
  - intros blob.
    destruct il, lf, wf, rf, rdf, uf, cb; cbn -[String.append];
      intros H; solve [discriminate H | reflexivity].
  - intros Hload Hwrite Hfail. subst wf.
    assert (Hcases : (il = true \/ lf = None) /\
                     (rf <> None \/ rdf <> None)) by tauto.
    clear Hload Hfail.
    destruct il, lf, rf, rdf, uf, cb; cbn -[String.append];
      destruct Hcases as [[L|L] [F|F]];
      try discriminate L; try (now elim F);
      (split; [tauto|]);
      intros f Hin;
      repeat (destruct Hin as [Hin|Hin]; [discriminate Hin|]);
      contradiction.
Qed.

(** X3 on an engine whose conversion fails. *)
Lemma engine_files_removed_only_on_success_witness :
  In ("writeFile", "input.mp4")%string
     (fsOps (fst (ffmpegAudioExtraction
                    (sampleEnv NoMetadata failingFFmpeg) sampleFile true))) /\
  forall f, ~ In ("unlink"%string, f)
                 (fsOps (fst (ffmpegAudioExtraction
                                (sampleEnv NoMetadata failingFFmpeg)
                                sampleFile true))).
Proof.
  apply (proj2 (engine_files_removed_only_on_success
                  (sampleEnv NoMetadata failingFFmpeg) sampleFile true)).
  - right. reflexivity.
  - reflexivity.
  - left. discriminate.
Defined.

End EngineFiles.

(* --------------------------------------------------------------------- *)
(** ** The transcript a run returns *)
(* --------------------------------------------------------------------- *)

Section ReturnedTranscript.
Import Transcription Observed.

(** What [transcribeAudio] returns, by mode. *)
Lemma transcribeAudio_outcome random elapsed audioBlob options :
  snd (transcribeAudio random elapsed audioBlob options)
  = Js.Resolved
      (if Js.gt (inject_Z (Js.blobSize audioBlob) / (1024 * 1024)) 25
          && progressCallback options
       then List.concat
              (chunkResults random options
                 (totalChunksOf (Js.blobSize audioBlob))
                 (Z.to_nat (totalChunksOf (Js.blobSize audioBlob))) 0 0%nat)
       else fst (generateOptimizedTranscription random 0
                   (Js.orElse (duration options) 60) 0)).
Proof.
  rewrite transcribeAudio_body, bind_report. cbn [snd].
  destruct (Js.gt _ 25 && progressCallback options).
  - rewrite bind_emit. cbn [snd].
    now destruct (transcribeAudioInChunks_run random audioBlob options)
      as (Ho & _).
  - now destruct (transcribeAudioDirect_run random elapsed audioBlob options)
      as (Ho & _).
Qed.


(** X4. Outside chunked mode the returned segments are numbered 1, 2, ...
    without gap or repetition, whatever [Math.random()] returns. *)
Theorem direct_mode_ids_are_sequential random elapsed audioBlob options :
  ~ ((25 * 1024 * 1024 < Js.blobSize audioBlob)%Z /\
     progressCallback options = true) ->
  exists segments,
    snd (transcribeAudio random elapsed audioBlob options)
      = Js.Resolved segments /\
    map id segments = consecutive 1 (List.length segments) /\
    NoDup (map id segments).
Proof.
  intros Hdirect. rewrite transcribeAudio_outcome.
  assert (Hmode : Js.gt (inject_Z (Js.blobSize audioBlob) / (1024 * 1024)) 25
                  && progressCallback options = false).
  { destruct (Js.gt _ 25) eqn:Eg; [|reflexivity].
    destruct (progressCallback options) eqn:Ecb; [|reflexivity].
    exfalso. apply Hdirect. split; [now apply isLargeAudio_spec | reflexivity]. }
  rewrite Hmode. eexists. split; [reflexivity|].
  unfold generateOptimizedTranscription. cbv zeta.
  rewrite segmentLoop_ids.
  change (Js.floor (0 / 8) + 1)%Z with 1%Z. split; [reflexivity|].
  generalize (List.length
    (fst (segmentLoop random (Js.orElse (duration options) 60) 0
            (Js.ceil (Js.orElse (duration options) 60 / 8))
            (Z.to_nat (Js.ceil (Js.orElse (duration options) 60 / 8)))
            0 0 1 0))) as n.
  intros n. generalize 1%Z as first.
  assert (Hlow : forall m first k, In k (consecutive first m) -> (first <= k)%Z).
  { induction m as [|m IHm]; intros first k Hin; [contradiction|].
    destruct Hin as [<-|Hin]; [lia|]. specialize (IHm _ _ Hin). lia. }
  induction n as [|n IHn]; intros first; constructor.
  - intros Hin. apply Hlow in Hin. lia.
  - apply IHn.
Qed.

(** X4 on a small blob. *)
Lemma direct_mode_ids_are_sequential_witness :
  exists segments,
    snd (transcribeAudio (constantRandom (1 # 2)) []
           (Js.mkBlob (3 * 1024 * 1024) "audio/webm") (optionsFor 60 true))
      = Js.Resolved segments /\
    map id segments = consecutive 1 (List.length segments).
Proof.
  destruct (direct_mode_ids_are_sequential (constantRandom (1 # 2)) []
              (Js.mkBlob (3 * 1024 * 1024) "audio/webm") (optionsFor 60 true))
    as (segments & Ho & Hids & _).
  - intros [Hbig _]. vm_compute in Hbig. discriminate Hbig.
  - exists segments. split; [exact Ho | exact Hids].
Defined.




End ReturnedTranscript.

Section TranscriptOrder.
Import Transcription Observed.

Lemma timeOrdered_cons s l :
  timeOrdered (s :: l) <->
  (match l with [] => True | s' :: _ => endTime s <= startTime s' end) /\
  timeOrdered l.
Proof. destruct l; simpl; tauto. Qed.


(** The first segment the loop pushes starts at the current time. *)
Lemma segmentLoop_head random d off count rem i cur sid draws :
  match fst (segmentLoop random d off count rem i cur sid draws) with
  | [] => True
  | s :: _ => startTime s = cur
  end.
Proof.
  destruct rem as [|rem]; [exact I|].
  destruct (Qlt_le_dec cur (off + d)) as [Hlt|Hge].
  - now destruct (segmentLoop_step random d off count rem i cur sid draws Hlt)
      as (txt & -> & _).
  - now rewrite segmentLoop_stop.
Qed.






End TranscriptOrder.

(* --------------------------------------------------------------------- *)
(** ** The progress a transcription reports *)
(* --------------------------------------------------------------------- *)

Section TranscriptionProgress.
Import Transcription Observed.

Lemma report_percents p label :
  Js.percents (fst (Js.report true p label)) = [p].
Proof. reflexivity. Qed.

(** The chunk loop reports [25 + (i / totalChunks) * 60] for each chunk. *)
Lemma chunkLoop_percents random size options total rem i chunks draws :
  progressCallback options = true ->
  Js.percents (fst (chunkLoop random size options total rem i chunks draws))
  = map (fun k => 25 + (inject_Z k / inject_Z total) * 60) (countFrom i rem).
Proof.
  intros Hcb. revert i chunks draws.
  induction rem as [|rem IH]; intros i chunks draws; [reflexivity|].
  cbn [chunkLoop countFrom map]. rewrite bind_emit. cbn [fst].
  rewrite bind_report. cbn [fst].
  change (Js.percents (Js.BlobSlice ?a ?b :: ?t)) with (Js.percents t).
  rewrite percents_app, Hcb, report_percents, IH. reflexivity.
Qed.

(** The interval of the direct path reports
    [30 + min((elapsed / base) * 60, 60)] at each firing. *)
Lemma directTicks_percents base elapsed :
  Js.percents (fst (directTicks true base elapsed))
  = map (fun e => 30 + Qmin ((e / base) * 60) 60) elapsed.
Proof.
  induction elapsed as [|e rest IH]; [reflexivity|].
  cbn [directTicks map]. rewrite bind_report. cbn [fst].
  rewrite percents_app, report_percents, IH. reflexivity.
Qed.

(** The percentages of a run with a callback, by mode. *)
Lemma transcribeAudio_percents random elapsed audioBlob options :
  progressCallback options = true ->
  Js.percents (fst (transcribeAudio random elapsed audioBlob options))
  = if Js.gt (inject_Z (Js.blobSize audioBlob) / (1024 * 1024)) 25
    then 10 :: 20 :: 25
           :: map (fun k => 25 + (inject_Z k
                                    / inject_Z (totalChunksOf (Js.blobSize audioBlob)))
                                 * 60)
                  (countFrom 0 (Z.to_nat (totalChunksOf (Js.blobSize audioBlob))))
           ++ [90]
    else 10 :: 30
           :: map (fun e =>
                     30 + Qmin ((e / Qmin (inject_Z (Js.blobSize audioBlob)
                                             / (1024 * 1024) * 50) 3000)
                                * 60) 60)
                  elapsed
           ++ [90].
Proof.
  intros Hcb. rewrite transcribeAudio_body, Hcb, bind_report. cbn [fst].
  rewrite percents_app, report_percents. cbn [app]. f_equal.
  rewrite andb_true_r.
  destruct (Js.gt _ 25).
  - rewrite bind_emit. cbn [fst].
    change (Js.percents (Js.Progress 20 ?l :: ?t)) with (20 :: Js.percents t).
    f_equal.
    unfold transcribeAudioInChunks. rewrite Hcb, bind_report. cbn [fst].
    rewrite percents_app, report_percents. cbn [app]. f_equal.
    rewrite (bind_resolved _ _ _ (chunkLoop_outcome _ _ _ _ _ _ _ _)).
    cbn [fst]. rewrite percents_app, bind_report. cbn [fst Js.ret].
    rewrite percents_app, report_percents, app_nil_r.
    now rewrite chunkLoop_percents by exact Hcb.
  - unfold transcribeAudioDirect. rewrite Hcb, bind_report. cbn [fst].
    rewrite percents_app, report_percents. cbn [app]. f_equal.
    rewrite !bind_emit. cbn [fst].
    change (Js.percents (?a :: ?b :: ?c :: ?t)) with (Js.percents t) at 1.
    rewrite (bind_resolved _ _ tt (directTicks_resolved _ _ _)).
    cbn [fst]. rewrite percents_app, bind_report. cbn [fst Js.ret].
    rewrite percents_app, report_percents, app_nil_r.
    now rewrite directTicks_percents.
Qed.

Lemma nondecreasing_map_adjacent (g : Z -> Q) i rem :
  (forall k, g k <= g (k + 1)%Z) ->
  Js.nondecreasing (map g (countFrom i rem)).
Proof.
  intros Hg. revert i. induction rem as [|rem IH]; intros i; [exact I|].
  cbn [countFrom map]. apply nondecreasing_cons. split; [|apply IH].
  destruct rem; cbn [countFrom map]; [exact I | apply Hg].
Qed.

Lemma countFrom_range i rem k :
  In k (countFrom i rem) -> (i <= k < i + Z.of_nat rem)%Z.
Proof.
  revert i. induction rem as [|rem IH]; intros i Hin; [contradiction|].
  destruct Hin as [<-|Hin]; [lia|]. specialize (IH _ Hin). lia.
Qed.

Lemma nondecreasing_map_monotone (f : Q -> Q) l :
  (forall x y, x <= y -> f x <= f y) ->
  Js.nondecreasing l -> Js.nondecreasing (map f l).
Proof.
  intros Hf. induction l as [|x l IH]; intros Hl; [exact I|].
  apply nondecreasing_cons in Hl. destruct Hl as [Hh Hl].
  cbn [map]. apply nondecreasing_cons. split; [|now apply IH].
  destruct l; cbn [map]; [exact I | now apply Hf].
Qed.

(** A run of reports between [b] and 90, framed by [a], [b] and 90. *)
Lemma progress_frame a b l :
  a <= b -> b <= 90 -> Js.nondecreasing l ->
  Forall (fun p => b <= p /\ p <= 90) l ->
  Js.nondecreasing (a :: b :: l ++ [90]) /\ last (a :: b :: l ++ [90]) 0 = 90.
Proof.
  intros Hab Hb Hl Hr. split.
  - apply nondecreasing_cons_above.
    { constructor; [exact Hab|]. apply Forall_app. split.
      - eapply Forall_impl; [|exact Hr]. intros p [Hp _]. cbv beta. lra.
      - repeat constructor. lra. }
    apply nondecreasing_cons_above.
    { apply Forall_app. split.
      - eapply Forall_impl; [|exact Hr]. intros p [Hp _]. exact Hp.
      - repeat constructor. exact Hb. }
    apply nondecreasing_app_bounded; [exact Hl | | exact I].
    eapply Forall_impl; [|exact Hr]. intros p [_ Hp]. exact Hp.
  - rewrite !app_comm_cons. now rewrite (last_app_cons _ 90 [] 0).
Qed.

(** The shape of the reports of a run with a callback: never decreasing,
    between 10 and 90, ending at 90. *)
Lemma transcribeAudio_progress_shape random elapsed audioBlob options :
  progressCallback options = true ->
  (0 < Js.blobSize audioBlob)%Z ->
  elapsedAdvances elapsed ->
  let ps := Js.percents (fst (transcribeAudio random elapsed audioBlob options)) in
  Js.nondecreasing ps /\ last ps 0 = 90 /\
  Forall (fun p => 10 <= p /\ p <= 90) ps.
Proof.
  intros Hcb Hsize [He0 Hemono] ps. unfold ps.
  rewrite (transcribeAudio_percents _ _ _ _ Hcb).
  destruct (js_gt_spec (inject_Z (Js.blobSize audioBlob) / (1024 * 1024)) 25)
    as [Hbig|Hsmall].
  - (* chunked mode *)
    set (N := totalChunksOf (Js.blobSize audioBlob)).
    pose proof (totalChunks_bounds (Js.blobSize audioBlob)) as Hn. fold N in Hn.
    assert (Hcs : chunkSize = 20971520%Z) by reflexivity.
    assert (HN : (1 <= N)%Z) by (rewrite Hcs in Hn; lia).
    assert (HNq : 0 < inject_Z N).
    { change 0 with (inject_Z 0). rewrite <- Zlt_Qlt. lia. }
    assert (Hinv : 0 < / inject_Z N) by now apply Qinv_lt_0_compat.
    set (g := fun k => 25 + inject_Z k / inject_Z N * 60).
    assert (Hgmono : forall k, g k <= g (k + 1)%Z).
    { intros k. unfold g, Qdiv. rewrite inject_Z_plus.
      change (inject_Z 1) with 1.
      set (x := / inject_Z N) in *. nra. }
    assert (Hgrange : forall k, (0 <= k < N)%Z -> 25 <= g k /\ g k <= 90).
    { intros k [Hk0 HkN]. unfold g, Qdiv.
      assert (Hkq : 0 <= inject_Z k).
      { change 0 with (inject_Z 0). rewrite <- Zle_Qle. lia. }
      assert (HkNq : inject_Z k <= inject_Z N) by (rewrite <- Zle_Qle; lia).
      pose proof (Qmult_le_compat_r _ _ (/ inject_Z N) HkNq
                    (Qlt_le_weak _ _ Hinv)) as Hquot.
      rewrite Qmult_inv_r in Hquot by lra.
      pose proof (Qmult_le_0_compat _ _ Hkq (Qlt_le_weak _ _ Hinv)).
      split; lra. }
    assert (Hl : Js.nondecreasing (map g (countFrom 0 (Z.to_nat N))))
      by now apply nondecreasing_map_adjacent.
    assert (Hr : Forall (fun p => 25 <= p /\ p <= 90)
                        (map g (countFrom 0 (Z.to_nat N)))).
    { apply Forall_forall. intros p Hin. apply in_map_iff in Hin.
      destruct Hin as (k & <- & Hin). apply countFrom_range in Hin.
      apply Hgrange. lia. }
    destruct (progress_frame 20 25 _ ltac:(lra) ltac:(lra) Hl Hr) as [Hnd Hlast].
    split; [|split].
    + apply nondecreasing_cons_above; [|exact Hnd].
      apply nondecreasing_head. apply nondecreasing_cons_above; [|exact Hnd].
      apply nondecreasing_head in Hnd.
      constructor; [lra|].
      eapply Forall_impl; [|exact Hnd]. intros; cbv beta in *; lra.
    + exact Hlast.
    + constructor; [split; lra|]. constructor; [split; lra|].
      constructor; [split; lra|]. apply Forall_app. split.
      * eapply Forall_impl; [|exact Hr]. intros p [H1 H2]. split; lra.
      * repeat constructor; lra.
  - (* direct mode *)
    set (base := Qmin (inject_Z (Js.blobSize audioBlob) / (1024 * 1024) * 50) 3000).
    assert (Hbase : 0 < base).
    { unfold base.
      assert (Hs : 0 < inject_Z (Js.blobSize audioBlob)).
      { change 0 with (inject_Z 0). rewrite <- Zlt_Qlt. exact Hsize. }
      unfold Qdiv. change (/ (1024 * 1024)) with (1 # 1048576).
      destruct (Q.min_spec (inject_Z (Js.blobSize audioBlob) * (1 # 1048576) * 50)
                           3000) as [[_ ->]|[_ ->]]; lra. }
    assert (Hinv : 0 < / base) by now apply Qinv_lt_0_compat.
    set (f := fun e => 30 + Qmin (e / base * 60) 60).
    assert (Hfmono : forall x y, x <= y -> f x <= f y).
    { intros x y Hxy. unfold f, Qdiv.
      pose proof (Qmult_le_compat_r _ _ (/ base) Hxy (Qlt_le_weak _ _ Hinv)).
      destruct (Q.min_spec (x * / base * 60) 60) as [[Hx ->]|[Hx ->]];
      destruct (Q.min_spec (y * / base * 60) 60) as [[Hy ->]|[Hy ->]]; lra. }
    assert (Hfrange : forall e, 0 <= e -> 30 <= f e /\ f e <= 90).
    { intros e He. unfold f, Qdiv.
      pose proof (Qmult_le_0_compat _ _ He (Qlt_le_weak _ _ Hinv)).
      destruct (Q.min_spec (e * / base * 60) 60) as [[? ->]|[? ->]];
        split; lra. }
    assert (Hl : Js.nondecreasing (map f elapsed))
      by now apply nondecreasing_map_monotone.
    assert (Hr : Forall (fun p => 30 <= p /\ p <= 90) (map f elapsed)).
    { apply Forall_forall. intros p Hin. apply in_map_iff in Hin.
      destruct Hin as (e & <- & Hin). apply Hfrange.
      rewrite Forall_forall in He0. now apply He0. }
    destruct (progress_frame 10 30 _ ltac:(lra) ltac:(lra) Hl Hr) as [Hnd Hlast].
    split; [exact Hnd|]. split; [exact Hlast|].
    constructor; [split; lra|]. constructor; [split; lra|].
    apply Forall_app. split.
    + eapply Forall_impl; [|exact Hr]. intros p [H1 H2]. split; lra.
    + repeat constructor; lra.
Qed.

(** X7. With a progress callback, a non-empty blob and elapsed times that
    advance, the percentages [transcribeAudio] reports never decrease, stay
    between 10 and 90, and end at 90 in either mode: the service never
    reports 100. *)
Theorem transcription_progress_ends_at_90 random elapsed audioBlob options :
  progressCallback options = true ->
  (0 < Js.blobSize audioBlob)%Z ->
  elapsedAdvances elapsed ->
  let ps := Js.percents (fst (transcribeAudio random elapsed audioBlob options)) in
  Js.nondecreasing ps /\ last ps 0 = 90 /\
  Forall (fun p => 10 <= p /\ p <= 90) ps.
Proof. apply transcribeAudio_progress_shape. Qed.

(** X7 on the 60MB blob: 10, 20, 25, 25, 45, 65, 90. *)
Lemma transcription_progress_ends_at_90_witness :
  last (Js.percents (fst (transcribeAudio (constantRandom (1 # 2)) []
                            blob60MB (optionsFor 120 true)))) 0 = 90.
Proof.
  assert (He : elapsedAdvances []) by (split; constructor).
  exact (proj1 (proj2 (transcription_progress_ends_at_90
                         (constantRandom (1 # 2)) [] blob60MB
                         (optionsFor 120 true) eq_refl eq_refl He))).
Defined.

End TranscriptionProgress.

(* --------------------------------------------------------------------- *)
(** ** Subtitle export *)
(* --------------------------------------------------------------------- *)

Section SubtitleExport.
Import Transcription Observed.




End SubtitleExport.

Section SubtitleClock.
Import Transcription.

(** The integer whose unit interval holds [y] is its floor. *)
Lemma floor_unique (k : Z) (y : Q) :
  inject_Z k <= y -> y < inject_Z k + 1 -> Qfloor y = k.
Proof.
  intros Hlo Hhi.
  pose proof (Qfloor_le y) as Hf. pose proof (Qlt_floor y) as Hl.
  rewrite inject_Z_plus in Hl. change (inject_Z 1) with 1 in Hl.
  assert (H1 : inject_Z (Qfloor y) < inject_Z (k + 1)).
  { rewrite inject_Z_plus. change (inject_Z 1) with 1. lra. }
  assert (H2 : inject_Z k < inject_Z (Qfloor y + 1)).
  { rewrite inject_Z_plus. change (inject_Z 1) with 1. lra. }
  rewrite <- Zlt_Qlt in H1, H2. lia.
Qed.

(** Where [y] lies around its floor. *)
Lemma floor_bounds (y : Q) :
  inject_Z (Qfloor y) <= y /\ y < inject_Z (Qfloor y) + 1.
Proof.
  split; [apply Qfloor_le|].
  pose proof (Qlt_floor y) as Hl.
  rewrite inject_Z_plus in Hl. exact Hl.
Qed.

(** [x % y] on a non-negative [x]: what is left above the last multiple. *)
Lemma rem_nonneg (x y : Q) :
  0 <= x -> 0 < y ->
  Js.rem x y = x - inject_Z (Qfloor (x / y)) * y.
Proof.
  intros Hx Hy. unfold Js.rem. cbv zeta.
  assert (Hq : Qle_bool 0 (x / y) = true).
  { apply Qle_bool_iff. unfold Qdiv. apply Qmult_le_0_compat; [exact Hx|].
    apply Qlt_le_weak, Qinv_lt_0_compat, Hy. }
  now rewrite Hq.
Qed.


(** Numbers below [10^width] pad to exactly [width] characters. *)
Lemma padStart0_width2 (n : Z) :
  (0 <= n < 100)%Z ->
  String.length (Js.padStart0 2 (Js.numToString n)) = 2%nat.
Proof.
  intros Hn.
  assert (Hall : forallb (fun k =>
            (String.length (Js.padStart0 2 (Js.numToString (Z.of_nat k))) =? 2)%nat)
            (seq 0 100) = true) by (vm_compute; reflexivity).
  rewrite forallb_forall in Hall.
  specialize (Hall (Z.to_nat n)). rewrite Z2Nat.id in Hall by lia.
  apply Nat.eqb_eq, Hall, in_seq. lia.
Qed.





End SubtitleClock.

(* --------------------------------------------------------------------- *)
(** ** One export *)
(* --------------------------------------------------------------------- *)

Section OneExport.
Import Transcription Exports Observed Requests.

Variable generateSummary : list Segment -> string.
Variable generateKeyPoints : list Segment -> list string.
Variable saveAsFails : string -> option string.
Variable packerFails : string -> option string.

Local Notation "'exportOne'" :=
  (exportTranscription generateSummary generateKeyPoints saveAsFails packerFails).

Ltac export_cases exportType fileFormat :=
  unfold exportTranscription, exportAsTxt, exportAsHtml, exportAsDocx, saveAs;
  destruct (String.eqb exportType "full");
  [|destruct (String.eqb exportType "summary");
    [|destruct (String.eqb exportType "keypoints")]];
  (destruct (String.eqb (Js.toLowerCase fileFormat) "txt");
   [|destruct (String.eqb (Js.toLowerCase fileFormat) "html");
     [|destruct (String.eqb (Js.toLowerCase fileFormat) "docx")]]).

(** X10. A request with no data, an unknown export type or an unknown file
    format is turned down with the message of the first of these checks that
    fails; the run only logs the error: no file is written and the Word
    packer is not called. *)
Theorem export_turned_down_writes_nothing data exportType fileFormat base msg :
  turnedDown data exportType fileFormat = Some msg ->
  exportOne data exportType fileFormat base
  = ([Js.Console "error" "Export error:"], Js.Rejected (Js.newError msg)) /\
  savedFiles (fst (exportOne data exportType fileFormat base)) = [].
Proof.
  unfold turnedDown, missingData, stemOf, knownFormat. intros H.
  assert (Hrun : exportOne data exportType fileFormat base
                 = ([Js.Console "error" "Export error:"],
                    Js.Rejected (Js.newError msg))).
  { destruct data as [data|]; [|injection H as <-; reflexivity].
    destruct data as [|segment data]; [injection H as <-; reflexivity|].
    cbn [List.length Nat.eqb] in H.
    export_cases exportType fileFormat; cbn in H;
      try discriminate H; injection H as <-; reflexivity. }
  split; [exact Hrun|]. rewrite Hrun. reflexivity.
Qed.

(** X11. When an export returns, exactly one file was handed to [saveAs]:
    its name is the stem of the export type followed by the format in lower
    case, while the file name returned to the caller carries the format as
    the caller spelled it. *)
Theorem export_saves_one_file_named_in_lower_case
    data exportType fileFormat base result :
  snd (exportOne data exportType fileFormat base) = Js.Resolved result ->
  exists stem,
    stemOf exportType base = Some stem /\
    savedFiles (fst (exportOne data exportType fileFormat base))
    = [(stem ++ "." ++ Js.toLowerCase fileFormat)%string] /\
    filename result = (stem ++ "." ++ fileFormat)%string /\
    success result = true.
Proof.
  unfold stemOf.
  destruct data as [data|]; [|discriminate].
  destruct data as [|segment data]; [discriminate|].
  unfold exportTranscription, exportAsTxt, exportAsHtml, exportAsDocx, saveAs.
  cbn [List.length Nat.eqb].
  destruct (String.eqb exportType "full");
  [|destruct (String.eqb exportType "summary");
    [|destruct (String.eqb exportType "keypoints")]];
  (destruct (String.eqb_spec (Js.toLowerCase fileFormat) "txt") as [->|_];
   [|destruct (String.eqb_spec (Js.toLowerCase fileFormat) "html") as [->|_];
     [|destruct (String.eqb_spec (Js.toLowerCase fileFormat) "docx") as [->|_]]]);
  cbn -[String.append];
  repeat match goal with
         | |- context [saveAsFails ?f] => destruct (saveAsFails f)
         | |- context [packerFails ?t] => destruct (packerFails t)
         end;
  cbn -[String.append]; intros H; try discriminate H;
  injection H as <-; eexists; repeat split.
Qed.

(** X12. A Word export that fails tells neither the packer's nor
    [saveAs]'s reason: whenever a request for the docx format that passed the
    checks is rejected, the message is the fixed one, and the run logged the
    failure twice, in [exportAsDocx] and in [exportTranscription]. *)
Theorem docx_failure_hides_its_cause data exportType fileFormat base e :
  turnedDown data exportType fileFormat = None ->
  Js.toLowerCase fileFormat = "docx"%string ->
  snd (exportOne data exportType fileFormat base) = Js.Rejected e ->
  Js.message e = "Failed to create DOCX file. Please try a different format."%string /\
  filter (fun ev => match ev with Js.Console _ _ => true | _ => false end)
         (fst (exportOne data exportType fileFormat base))
  = [ Js.Console "error" "Error creating DOCX file:";
      Js.Console "error" "Export error:" ].
Proof.
  unfold turnedDown, missingData, stemOf, knownFormat. intros Hok Hdocx.
  destruct data as [data|]; [|discriminate Hok].
  destruct data as [|segment data]; [discriminate Hok|].
  cbn [List.length Nat.eqb] in Hok.
  unfold exportTranscription, exportAsTxt, exportAsHtml, exportAsDocx, saveAs.
  cbn [List.length Nat.eqb]. rewrite Hdocx in *.
  change (String.eqb "docx" "txt") with false.
  change (String.eqb "docx" "html") with false.
  change (String.eqb "docx" "docx") with true.
  destruct (String.eqb exportType "full");
  [|destruct (String.eqb exportType "summary");
    [|destruct (String.eqb exportType "keypoints"); [|discriminate Hok]]];
  cbn -[String.append];
  repeat match goal with
         | |- context [saveAsFails ?f] => destruct (saveAsFails f)
         | |- context [packerFails ?t] => destruct (packerFails t)
         end;
  cbn -[String.append]; intros H; try discriminate H;
  injection H as <-; split; reflexivity.
Qed.

End OneExport.

Section OneExportSample.
Import Transcription Exports Observed Requests.

(** X10 on the format ["pdf"]. *)
Lemma export_turned_down_writes_nothing_witness :
  savedFiles
    (fst (exportTranscription (fun _ => "A summary.") (fun _ => ["One point."])
            (fun _ => None) (fun _ => None)
            (Some twoSegments) "full" "pdf" "talk")) = [].
Proof.
  exact (proj2 (export_turned_down_writes_nothing
                  (fun _ => "A summary."%string) (fun _ => ["One point."%string])
                  (fun _ => None) (fun _ => None)
                  (Some twoSegments) "full" "pdf" "talk"
                  "Invalid file format specified." eq_refl)).
Defined.

(** X11 on the format ["TXT"]: the file saved is [talk_summary.txt], the
    name returned is [talk_summary.TXT]. *)
Lemma export_saves_one_file_named_in_lower_case_witness :
  exists stem,
    stemOf "summary" "talk" = Some stem /\
    savedFiles
      (fst (exportTranscription (fun _ => "A summary.") (fun _ => ["One point."])
              (fun _ => None) (fun _ => None)
              (Some twoSegments) "summary" "TXT" "talk"))
    = [(stem ++ ".txt")%string] /\
    filename (mkExportResult true "talk_summary.TXT") = (stem ++ ".TXT")%string /\
    success (mkExportResult true "talk_summary.TXT") = true.
Proof.
  exact (export_saves_one_file_named_in_lower_case
           (fun _ => "A summary."%string) (fun _ => ["One point."%string])
           (fun _ => None) (fun _ => None)
           (Some twoSegments) "summary" "TXT" "talk"
           (mkExportResult true "talk_summary.TXT") eq_refl).
Defined.

(** X12 with the Word packer broken. *)
Lemma docx_failure_hides_its_cause_witness :
  Js.message
    (Js.newError "Failed to create DOCX file. Please try a different format.")
  = "Failed to create DOCX file. Please try a different format."%string /\
  filter (fun ev => match ev with Js.Console _ _ => true | _ => false end)
         (fst (exportTranscription (fun _ => "A summary.") (fun _ => ["One point."])
                 (fun _ => None) brokenPacker
                 (Some twoSegments) "summary" "docx" "talk"))
  = [ Js.Console "error" "Error creating DOCX file:";
      Js.Console "error" "Export error:" ].
Proof.
  exact (docx_failure_hides_its_cause
           (fun _ => "A summary."%string) (fun _ => ["One point."%string])
           (fun _ => None) brokenPacker
           (Some twoSegments) "summary" "docx" "talk"
           (Js.newError "Failed to create DOCX file. Please try a different format.")
           eq_refl eq_refl eq_refl).
Defined.

End OneExportSample.

(* --------------------------------------------------------------------- *)
(** ** The selection of the export modal *)
(* --------------------------------------------------------------------- *)

Section ModalSelection.
Import Transcription Exports Modal.

Lemma lookup_cons key config rest exportType :
  lookup exportType ((key, config) :: rest)
  = if String.eqb key exportType then Some config else lookup exportType rest.
Proof.
  unfold lookup. cbn [find fst]. now destruct (String.eqb key exportType).
Qed.

Lemma update_lookup_same exportType change selected config :
  lookup exportType selected = Some config ->
  lookup exportType (update exportType change selected) = Some (change config).
Proof.
  induction selected as [|[key c] rest IH]; [discriminate|].
  rewrite lookup_cons. cbn [update].
  destruct (String.eqb key exportType) eqn:E; rewrite lookup_cons, E.
  - now intros [= ->].
  - exact IH.
Qed.

Lemma update_lookup_other exportType change selected other :
  other <> exportType ->
  lookup other (update exportType change selected) = lookup other selected.
Proof.
  intros Hne. induction selected as [|[key c] rest IH]; [reflexivity|].
  cbn [update]. destruct (String.eqb_spec key exportType) as [->|_].
  - rewrite !lookup_cons.
    destruct (String.eqb_spec exportType other) as [<-|_]; [contradiction|].
    reflexivity.
  - rewrite !lookup_cons, IH. reflexivity.
Qed.

Lemma update_keys exportType change selected :
  map fst (update exportType change selected) = map fst selected.
Proof.
  induction selected as [|[key c] rest IH]; [reflexivity|].
  cbn [update]. destruct (String.eqb key exportType); cbn [map fst];
    [reflexivity | now rewrite IH].
Qed.

Lemma update_twice exportType f g selected :
  update exportType g (update exportType f selected)
  = update exportType (fun c => g (f c)) selected.
Proof.
  induction selected as [|[key c] rest IH]; [reflexivity|].
  cbn [update]. destruct (String.eqb key exportType) eqn:E; cbn [update];
    rewrite E; [reflexivity | now rewrite IH].
Qed.

Lemma update_nothing exportType f selected :
  (forall c, f c = c) -> update exportType f selected = selected.
Proof.
  intros Hf. induction selected as [|[key c] rest IH]; [reflexivity|].
  cbn [update]. destruct (String.eqb key exportType);
    [now rewrite Hf | now rewrite IH].
Qed.

(** The number of enabled entries, before and after a change of one entry. *)
Lemma update_count exportType change selected config :
  lookup exportType selected = Some config ->
  (List.length (filter enabled (map snd (update exportType change selected)))
   + (if enabled config then 1 else 0)
   = List.length (filter enabled (map snd selected))
     + (if enabled (change config) then 1 else 0))%nat.
Proof.
  induction selected as [|[key c] rest IH]; [discriminate|].
  rewrite lookup_cons. cbn [update].
  destruct (String.eqb key exportType).
  - intros [= ->]. cbn [map snd filter].
    destruct (enabled config), (enabled (change config)); cbn [List.length]; lia.
  - intros H. specialize (IH H). cbn [map snd filter].
    destruct (enabled c); cbn [List.length]; lia.
Qed.

(** X13. Ticking the box of an export the modal knows flips that export and
    nothing else: its format, the other exports and the order of the keys
    stay, the number of selected exports moves by exactly one, and ticking
    again restores the state. *)
Theorem toggle_flips_one_export exportType st config :
  lookup exportType (selectedExports st) = Some config ->
  exists st',
    handleExportToggle exportType st = Some st' /\
    lookup exportType (selectedExports st')
    = Some (mkConfig (negb (enabled config)) (format config)) /\
    (forall other, other <> exportType ->
       lookup other (selectedExports st') = lookup other (selectedExports st)) /\
    map fst (selectedExports st') = map fst (selectedExports st) /\
    getSelectedCount st'
    = (if enabled config then getSelectedCount st - 1
       else getSelectedCount st + 1)%nat /\
    (enabled config = true -> (1 <= getSelectedCount st)%nat) /\
    handleExportToggle exportType st' = Some st.
Proof.
  intros Hlook. unfold handleExportToggle. rewrite Hlook.
  set (flip := fun c : Config => mkConfig (negb (enabled c)) (format c)).
  eexists. split; [reflexivity|]. cbn [selectedExports].
  pose proof (update_count exportType flip _ _ Hlook) as Hcount.
  cbn [enabled flip] in Hcount.
  split; [exact (update_lookup_same _ flip _ _ Hlook)|].
  split; [intros other Hne; now apply update_lookup_other|].
  split; [apply update_keys|].
  unfold getSelectedCount. cbn [selectedExports].
  split; [destruct (enabled config); cbn [negb] in Hcount; lia|].
  split; [intros E; rewrite E in Hcount; cbn [negb] in Hcount; lia|].
  rewrite (update_lookup_same _ flip _ _ Hlook).
  cbn [isExporting exportResults error]. rewrite update_twice.
  rewrite update_nothing.
  - now destruct st.
  - intros [e f]. unfold flip. cbn. now rewrite negb_involutive.
Qed.

(** X13 on the initial selection: unticking the summary leaves two. *)
Lemma toggle_flips_one_export_witness :
  exists st',
    handleExportToggle "summary" initialModal = Some st' /\
    getSelectedCount st' = 2%nat.
Proof.
  destruct (toggle_flips_one_export "summary" initialModal
              (mkConfig true "txt") eq_refl)
    as (st' & Htoggle & _ & _ & _ & Hcount & _).
  exists st'. split; [exact Htoggle | exact Hcount].
Defined.

(** X14. Choosing a format for an export the modal knows changes that
    export's format and nothing else: what is selected, the other exports,
    the order of the keys and the number of selected exports all stay. *)
Theorem format_change_keeps_selection exportType format_ st config :
  lookup exportType (selectedExports st) = Some config ->
  let st' := handleFormatChange exportType format_ st in
  lookup exportType (selectedExports st')
  = Some (mkConfig (enabled config) format_) /\
  (forall other, other <> exportType ->
     lookup other (selectedExports st') = lookup other (selectedExports st)) /\
  map fst (selectedExports st') = map fst (selectedExports st) /\
  getSelectedCount st' = getSelectedCount st.
Proof.
  intros Hlook st'. unfold st', handleFormatChange. rewrite Hlook.
  cbn [selectedExports].
  set (change := fun c : Config => mkConfig (enabled c) format_).
  split; [exact (update_lookup_same _ change _ _ Hlook)|].
  split; [intros other Hne; now apply update_lookup_other|].
  split; [apply update_keys|].
  unfold getSelectedCount. cbn [selectedExports].
  pose proof (update_count exportType change _ _ Hlook) as Hcount.
  cbn [enabled change] in Hcount. lia.
Qed.

(** X14 on the initial selection: the key points as a Word file. *)
Lemma format_change_keeps_selection_witness :
  lookup "keypoints"
    (selectedExports (handleFormatChange "keypoints" "docx" initialModal))
  = Some (mkConfig true "docx") /\
  getSelectedCount (handleFormatChange "keypoints" "docx" initialModal)
  = getSelectedCount initialModal.
Proof.
  destruct (format_change_keeps_selection "keypoints" "docx" initialModal
              (mkConfig true "txt") eq_refl)
    as (Hlook & _ & _ & Hcount).
  split; [exact Hlook | exact Hcount].
Defined.

End ModalSelection.

(* --------------------------------------------------------------------- *)
(** ** The base file name *)
(* --------------------------------------------------------------------- *)

Section BaseFilename.
Import Exports.

(** [s.split('.')[0]] is what comes before the first dot of [s]. *)
Lemma beforeDot_split (s : string) :
  exists rest,
    s = (Js.beforeDot s ++ rest)%string /\
    (rest = ""%string \/ exists r, rest = String "."%char r) /\
    ~ In "."%char (list_ascii_of_string (Js.beforeDot s)).
Proof.
  induction s as [|c s (rest & Hs & Hrest & Hno)].
  - exists ""%string. cbn. tauto.
  - cbn [Js.beforeDot]. destruct (Ascii.eqb_spec c "."%char) as [->|Hc].
    + exists (String "."%char s). cbn. split; [reflexivity|].
      split; [right; now exists s | tauto].
    + exists rest. cbn [String.append list_ascii_of_string].
      split; [now rewrite <- Hs|]. split; [exact Hrest|].
      intros [E|Hin]; [now apply Hc | now apply Hno].
Qed.

(** X15. The base name of the exported files is the video's file name up to
    its first dot, not up to its extension: it contains no dot, and what it
    leaves out is empty or starts with a dot. *)
Theorem base_filename_stops_at_first_dot (videoFileName : string) :
  videoFileName <> ""%string ->
  exists rest,
    videoFileName = (baseFilenameOf (Some videoFileName) ++ rest)%string /\
    (rest = ""%string \/ exists r, rest = String "."%char r) /\
    ~ In "."%char
         (list_ascii_of_string (baseFilenameOf (Some videoFileName))).
Proof.
  intros Hne. unfold baseFilenameOf.
  destruct videoFileName as [|c s]; [contradiction|].
  cbn [String.length Nat.eqb]. apply beforeDot_split.
Qed.

(** X15 on [team.meeting.2024.mp4]: the base name is [team]. *)
Lemma base_filename_stops_at_first_dot_witness :
  exists rest,
    "team.meeting.2024.mp4"%string
    = (baseFilenameOf (Some "team.meeting.2024.mp4"%string) ++ rest)%string /\
    (rest = ""%string \/ exists r, rest = String "."%char r) /\
    ~ In "."%char
         (list_ascii_of_string
            (baseFilenameOf (Some "team.meeting.2024.mp4"%string))).
Proof.
  apply (base_filename_stops_at_first_dot "team.meeting.2024.mp4").
  discriminate.
Defined.

End BaseFilename.

(* --------------------------------------------------------------------- *)
(** ** Substrings *)
(* --------------------------------------------------------------------- *)

Section Strings.

Lemma includes_empty s : Js.includes s "" = true.
Proof. unfold Js.includes. destruct s; reflexivity. Qed.

(** [s.includes(t)]: [t] occurs somewhere in [s]. *)
Lemma includes_iff s t :
  t <> ""%string ->
  Js.includes s t = true <-> exists m, substring m (String.length t) s = t.
Proof.
  intros Ht. unfold Js.includes. split.
  - destruct (index 0 t s) as [m|] eqn:E; [|discriminate].
    intros _. exists m. now apply (index_correct1 0).
  - intros [m Hm]. destruct (index 0 t s) eqn:E; [reflexivity|].
    exfalso. apply (index_correct3 0 m t s E Ht); [apply Nat.le_0_l | exact Hm].
Qed.

Lemma toLowerCase_length s :
  String.length (Js.toLowerCase s) = String.length s.
Proof. induction s as [|c s IH]; cbn; [reflexivity | now rewrite IH]. Qed.

Lemma toLowerCase_substring m n s :
  substring m n (Js.toLowerCase s) = Js.toLowerCase (substring m n s).
Proof.
  revert m n. induction s as [|c s IH]; intros m n.
  - destruct m, n; reflexivity.
  - destruct m, n; cbn [Js.toLowerCase substring]; try reflexivity.
    + now rewrite IH.
    + apply IH.
    + apply IH.
Qed.

Lemma toLowerCase_empty s : Js.toLowerCase s = ""%string -> s = ""%string.
Proof. destruct s; [reflexivity | discriminate]. Qed.

(** An occurrence survives lower-casing both strings. *)
Lemma includes_toLowerCase s t :
  Js.includes s t = true ->
  Js.includes (Js.toLowerCase s) (Js.toLowerCase t) = true.
Proof.
  destruct t as [|c t]; [intros _; apply includes_empty|].
  intros H. apply includes_iff in H; [|discriminate].
  destruct H as [m Hm]. apply includes_iff; [discriminate|].
  exists m. rewrite toLowerCase_length, toLowerCase_substring. now rewrite Hm.
Qed.

Lemma lowerChar_lower c : Js.lowerChar (Js.lowerChar c) = Js.lowerChar c.
Proof.
  assert (Hall : forallb (fun n =>
            Ascii.eqb (Js.lowerChar (Js.lowerChar (ascii_of_nat n)))
                      (Js.lowerChar (ascii_of_nat n)))
            (seq 0 256) = true) by (vm_compute; reflexivity).
  rewrite forallb_forall in Hall.
  specialize (Hall (nat_of_ascii c)). rewrite ascii_nat_embedding in Hall.
  apply Ascii.eqb_eq, Hall, in_seq. pose proof (nat_ascii_bounded c). lia.
Qed.

Lemma toLowerCase_lower s :
  Js.toLowerCase (Js.toLowerCase s) = Js.toLowerCase s.
Proof.
  induction s as [|c s IH]; cbn; [reflexivity|].
  now rewrite lowerChar_lower, IH.
Qed.

Lemma substring_nothing a b : substring a b "" = ""%string.
Proof. destruct a, b; reflexivity. Qed.

(** A part of a part. *)
Lemma substring_substring m a b s :
  substring a b (substring m (a + b) s) = substring (m + a) b s.
Proof.
  revert m a. induction s as [|c s IH]; intros m a.
  - now rewrite !substring_nothing.
  - destruct m as [|m].
    + destruct a as [|a]; cbn [Nat.add].
      * clear IH. revert c s. induction b as [|b IHb]; intros c s;
          [reflexivity|].
        cbn [substring]. f_equal. destruct s as [|c' s]; [now destruct b|].
        apply IHb.
      * cbn [substring]. apply (IH 0%nat).
    + cbn [Nat.add substring]. apply IH.
Qed.

(** A message that mentions ["out of memory"] mentions ["memory"]. *)
Lemma includes_out_of_memory s :
  Js.includes s "out of memory" = true -> Js.includes s "memory" = true.
Proof.
  intros H. apply includes_iff in H; [|discriminate].
  destruct H as [m Hm]. apply includes_iff; [discriminate|].
  exists (m + 7)%nat. cbn [String.length] in *.
  rewrite <- (substring_substring m 7 6). cbn [Nat.add]. now rewrite Hm.
Qed.

End Strings.

(* --------------------------------------------------------------------- *)
(** ** The panel: searching *)
(* --------------------------------------------------------------------- *)

Section PanelSearch.
Import Transcription Panel PanelView.

(** X16. The search ignores letter case: a segment whose text contains the
    term is listed whatever case the term is typed in, and the list shown
    for a term is the list shown for the term in lower case.  With the
    search box empty every segment is listed. *)
Theorem search_ignores_letter_case (st : State) (term typed : string) :
  Js.toLowerCase typed = Js.toLowerCase term ->
  (forall item, In item (editedData st) ->
     Js.includes (text item) term = true ->
     In item (filteredData (setSearchTerm typed st))) /\
  filteredData (setSearchTerm typed st)
  = filteredData (setSearchTerm (Js.toLowerCase term) st) /\
  filteredData (setSearchTerm "" st) = editedData st.
Proof.
  intros Hcase. unfold filteredData, setSearchTerm.
  cbn [searchTerm editedData]. split; [|split].
  - intros item Hin Hhas. apply filter_In. split; [exact Hin|].
    rewrite Hcase. now apply includes_toLowerCase.
  - now rewrite Hcase, toLowerCase_lower.
  - cbn [Js.toLowerCase]. induction (editedData st) as [|item data IH];
      [reflexivity|].
    cbn [filter]. now rewrite includes_empty, IH.
Qed.

(** X16 on the term ["SECURITY"]: the second segment is listed. *)
Lemma search_ignores_letter_case_witness :
  In (mkSegment 2 8 16 "Security is a top priority." (9 # 10))
     (filteredData
        (setSearchTerm "SECURITY" (mkState "" None "" Exports.twoSegments))).
Proof.
  refine (proj1 (search_ignores_letter_case
                   (mkState "" None "" Exports.twoSegments)
                   "Security" "SECURITY" eq_refl) _ _ _).
  - cbn. tauto.
  - reflexivity.
Defined.

End PanelSearch.

(* --------------------------------------------------------------------- *)
(** ** The panel: copying *)
(* --------------------------------------------------------------------- *)

Section PanelCopy.
Import Transcription Panel PanelView Exports.

Variable generateSummary : list Segment -> string.
Variable generateKeyPoints : list Segment -> list string.
Variable saveAsFails : string -> option string.
Variable packerFails : string -> option string.



End PanelCopy.

Section PanelCopySample.
Import Transcription Panel PanelView Exports.


End PanelCopySample.

(* --------------------------------------------------------------------- *)
(** ** The panel and the player: times *)
(* --------------------------------------------------------------------- *)

Section Viewing.
Import Transcription Panel PanelView Observed.

(** Whole minutes and the seconds left, on a non-negative time. *)
Lemma minutes_seconds (x : Q) :
  0 <= x ->
  let m := Js.floor (x / 60) in
  let s := Js.floor (Js.rem x 60) in
  (0 <= m)%Z /\ (0 <= s < 60)%Z /\ (m * 60 + s)%Z = Js.floor x.
Proof.
  intros Hx.
  pose proof (rem_nonneg x 60 Hx ltac:(reflexivity)) as R60.
  unfold Js.floor.
  set (r60 := Js.rem x 60) in *.
  assert (R60' : r60 == x - inject_Z (Qfloor (x / 60)) * 60)
    by (rewrite R60; reflexivity).
  clearbody r60. clear R60.
  set (d60 := x / 60) in *.
  assert (E60 : d60 == x * (1 # 60)) by reflexivity.
  destruct (floor_bounds d60) as [Hq1 Hq2].
  destruct (floor_bounds r60) as [Hs1 Hs2].
  destruct (floor_bounds x) as [Hf1 Hf2].
  clearbody d60.
  set (m := Qfloor d60) in *. set (s := Qfloor r60) in *.
  clearbody m s. cbv zeta.
  assert (Zm : (0 <= m)%Z).
  { assert (H : inject_Z (-1) < inject_Z m) by (change (inject_Z (-1)) with (-1); lra).
    rewrite <- Zlt_Qlt in H. lia. }
  assert (Zs : (0 <= s < 60)%Z).
  { assert (H : inject_Z (-1) < inject_Z s) by (change (inject_Z (-1)) with (-1); lra).
    assert (H' : inject_Z s < inject_Z 60) by (change (inject_Z 60) with 60; lra).
    rewrite <- Zlt_Qlt in H, H'. lia. }
  split; [exact Zm|]. split; [exact Zs|].
  symmetry. apply floor_unique;
    rewrite inject_Z_plus, inject_Z_mult; change (inject_Z 60) with 60; lra.
Qed.

(** X18. For a non-negative time the panel and the player print whole
    minutes, a colon and two digits of seconds below 60, which together make
    the time cut to the second; there is no hours field, so from one hour on
    the minutes are 60 or more. *)
Theorem shown_time_is_minutes_and_seconds (time : Q) :
  0 <= time ->
  exists m s : Z,
    formatTime time
    = (Js.numToString m ++ ":" ++ Js.padStart0 2 (Js.numToString s))%string /\
    String.length (Js.padStart0 2 (Js.numToString s)) = 2%nat /\
    (0 <= m)%Z /\ (0 <= s < 60)%Z /\ (m * 60 + s)%Z = Js.floor time /\
    (3600 <= time -> (60 <= m)%Z).
Proof.
  intros Ht. destruct (minutes_seconds time Ht) as (Hm & Hs & Hsum).
  exists (Js.floor (time / 60)), (Js.floor (Js.rem time 60)).
  split; [reflexivity|]. split; [apply padStart0_width2; lia|].
  split; [exact Hm|]. split; [exact Hs|]. split; [exact Hsum|].
  intros Hhour.
  assert (Hf : (3600 <= Js.floor time)%Z).
  { unfold Js.floor. destruct (floor_bounds time) as [_ Hhi].
    assert (H : inject_Z 3599 < inject_Z (Qfloor time))
      by (change (inject_Z 3599) with 3599; lra).
    rewrite <- Zlt_Qlt in H. lia. }
  lia.
Qed.

(** X18 at 3725.5 seconds: 62:05. *)
Lemma shown_time_is_minutes_and_seconds_witness :
  exists m s : Z,
    formatTime (3725 + (1 # 2))
    = (Js.numToString m ++ ":" ++ Js.padStart0 2 (Js.numToString s))%string /\
    (m * 60 + s)%Z = 3725%Z.
Proof.
  assert (H0 : 0 <= 3725 + (1 # 2)) by discriminate.
  destruct (shown_time_is_minutes_and_seconds (3725 + (1 # 2)) H0)
    as (m & s & Hfmt & _ & _ & _ & Hsum & _).
  exists m, s. split; [exact Hfmt | exact Hsum].
Defined.

Lemma isCurrentSegment_spec t item :
  isCurrentSegment t item = true <-> startTime item <= t /\ t <= endTime item.
Proof.
  unfold isCurrentSegment. now rewrite andb_true_iff, !Qle_bool_iff.
Qed.

(** In a time-ordered list, everything after a segment starts no earlier
    than that segment ends. *)
Lemma ordered_after s l :
  timeOrdered (s :: l) ->
  Forall (fun s' => startTime s' < endTime s') l ->
  Forall (fun s' => endTime s <= startTime s') l.
Proof.
  revert s. induction l as [|s1 l IH]; intros s Ho Hw; [constructor|].
  apply timeOrdered_cons in Ho. destruct Ho as [Hhead Ho].
  apply Forall_cons_iff in Hw. destruct Hw as [Hw1 Hw].
  constructor; [exact Hhead|].
  eapply Forall_impl; [|exact (IH s1 Ho Hw)].
  intros s' Hs'. cbv beta in *. lra.
Qed.

(** Nothing that starts after [t] is current at [t]. *)
Lemma none_current_later t x l :
  t < x -> Forall (fun s' => x <= startTime s') l ->
  filter (isCurrentSegment t) l = [].
Proof.
  intros Htx Hl. induction Hl as [|s l Hs _ IH]; [reflexivity|].
  cbn [filter]. destruct (isCurrentSegment t s) eqn:E; [|exact IH].
  apply isCurrentSegment_spec in E. lra.
Qed.

(** At most one segment that starts at [t] or later is current at [t]. *)
Lemma one_current_from t x l :
  t <= x -> timeOrdered l ->
  Forall (fun s' => startTime s' < endTime s') l ->
  Forall (fun s' => x <= startTime s') l ->
  (List.length (filter (isCurrentSegment t) l) <= 1)%nat.
Proof.
  intros Htx Ho Hw Hx. induction l as [|s l IH]; [cbn; lia|].
  pose proof (ordered_after s l Ho (Forall_inv_tail Hw)) as Hafter.
  apply timeOrdered_cons in Ho. destruct Ho as [_ Ho].
  apply Forall_cons_iff in Hw. destruct Hw as [Hws Hw].
  apply Forall_cons_iff in Hx. destruct Hx as [Hxs Hx].
  cbn [filter]. destruct (isCurrentSegment t s) eqn:E.
  - apply isCurrentSegment_spec in E.
    rewrite (none_current_later t (endTime s) l); [cbn; lia | lra | exact Hafter].
  - now apply IH.
Qed.

(** X19. In a list of segments in time order, each ending after it starts,
    the panel highlights at most two segments at any time; and the caption
    the player shows is the first of the highlighted ones. *)
Theorem at_most_two_segments_highlighted (l : list Segment) (t : Q) :
  timeOrdered l ->
  Forall (fun s => startTime s < endTime s) l ->
  (List.length (filter (isCurrentSegment t) l) <= 2)%nat /\
  getCurrentTranscription l t = hd_error (filter (isCurrentSegment t) l).
Proof.
  intros Ho Hw. split.
  - induction l as [|s l IH]; [cbn; lia|].
    pose proof (ordered_after s l Ho (Forall_inv_tail Hw)) as Hafter.
    apply timeOrdered_cons in Ho. destruct Ho as [_ Ho].
    apply Forall_cons_iff in Hw. destruct Hw as [Hws Hw].
    cbn [filter]. destruct (isCurrentSegment t s) eqn:E.
    + apply isCurrentSegment_spec in E.
      pose proof (one_current_from t (endTime s) l (proj2 E) Ho Hw Hafter).
      cbn [List.length]. lia.
    + specialize (IH Ho Hw). lia.
  - unfold getCurrentTranscription. clear Ho Hw.
    induction l as [|s l IH]; [reflexivity|].
    cbn [find filter]. destruct (isCurrentSegment t s); [reflexivity | exact IH].
Qed.

(** X19 on two segments that meet at 8 seconds: both are highlighted there,
    the caption is the first one. *)
Lemma at_most_two_segments_highlighted_witness :
  (List.length (filter (isCurrentSegment 8) Exports.twoSegments) <= 2)%nat /\
  getCurrentTranscription Exports.twoSegments 8
  = hd_error (filter (isCurrentSegment 8) Exports.twoSegments).
Proof.
  apply at_most_two_segments_highlighted.
  - cbn. split; [discriminate | exact I].
  - repeat constructor.
Defined.

(** The loop's segments follow one another without a gap. *)
Lemma segmentLoop_contiguous random d off count rem i cur sid draws :
  contiguous (fst (segmentLoop random d off count rem i cur sid draws)).
Proof.
  revert i cur sid draws.
  induction rem as [|rem IH]; intros i cur sid draws; [exact I|].
  destruct (Qlt_le_dec cur (off + d)) as [Hlt|Hge].
  - destruct (segmentLoop_step random d off count rem i cur sid draws Hlt)
      as (txt & -> & _).
    set (cur' := cur + Qmin (8 + (random draws * 4 - 2)) (off + d - cur)).
    pose proof (segmentLoop_head random d off count rem (i + 1) cur'
                  (sid + 1) (draws + 3)) as Hhead.
    specialize (IH (i + 1)%Z cur' (sid + 1)%Z (draws + 3)%nat).
    destruct (fst (segmentLoop random d off count rem (i + 1) cur' (sid + 1)
                     (draws + 3))) as [|s' rest]; [exact I|].
    split; [exact Hhead | exact IH].
  - rewrite segmentLoop_stop by exact Hge. exact I.
Qed.

(** Without gaps, every time between the first start and the last end has a
    current segment. *)
Lemma contiguous_covered (l : list Segment) (t x : Q) :
  contiguous l ->
  match l with [] => False | s :: _ => startTime s <= t end ->
  t <= finalTime l x ->
  exists s, getCurrentTranscription l t = Some s /\
            startTime s <= t /\ t <= endTime s.
Proof.
  unfold getCurrentTranscription. revert x.
  induction l as [|s l IH]; intros x Hc Hfirst Hlast; [contradiction|].
  cbn [find]. destruct (isCurrentSegment t s) eqn:E.
  - exists s. split; [reflexivity|]. now apply isCurrentSegment_spec.
  - rewrite finalTime_cons in Hlast.
    assert (Hafter : endTime s < t).
    { apply Qnot_le_lt. intros Hle.
      assert (isCurrentSegment t s = true)
        by (apply isCurrentSegment_spec; split; assumption).
      congruence. }
    destruct l as [|s1 l].
    + unfold finalTime in Hlast. cbn in Hlast. lra.
    + destruct Hc as [Hmeet Hc].
      apply (IH (endTime s) Hc); [|exact Hlast].
      rewrite Hmeet. lra.
Qed.

(** X20. A transcript made in direct mode has no gaps: each segment starts
    where the one before it ended, so over the first three quarters of the
    duration (the given one, 60 seconds without one) the player always has a
    caption to show. *)
Theorem direct_transcript_always_has_a_caption
    random elapsed audioBlob options (t : Q) :
  inUnitInterval random ->
  Js.gt (inject_Z (Js.blobSize audioBlob) / (1024 * 1024)) 25
    && progressCallback options = false ->
  0 < Js.orElse (duration options) 60 ->
  0 <= t -> t <= Js.orElse (duration options) 60 * (3 # 4) ->
  exists segments s,
    snd (transcribeAudio random elapsed audioBlob options)
      = Js.Resolved segments /\
    contiguous segments /\
    getCurrentTranscription segments t = Some s /\
    startTime s <= t /\ t <= endTime s.
Proof.
  intros Hr Hmode Hd Ht0 Ht1. rewrite transcribeAudio_outcome, Hmode.
  set (d := Js.orElse (duration options) 60) in *.
  set (segments := fst (generateOptimizedTranscription random 0 d 0)).
  assert (Hc : contiguous segments).
  { unfold segments, generateOptimizedTranscription. cbv zeta.
    apply segmentLoop_contiguous. }
  destruct (generate_first random 0 d 0 Hd) as (s0 & rest & Hs0 & Hstart).
  destruct (generate_final random 0 d 0 0 Hr Hd) as [Hfinal _].
  fold segments in Hs0, Hfinal.
  destruct (contiguous_covered segments t 0 Hc) as (s & Hfind & Hin).
  - rewrite Hs0, Hstart. exact Ht0.
  - lra.
  - exists segments, s. repeat split; try assumption; apply Hin.
Qed.

(** X20 on a one-minute clip, 40 seconds in. *)
Lemma direct_transcript_always_has_a_caption_witness :
  exists segments s,
    snd (transcribeAudio (constantRandom (1 # 2)) []
           (Js.mkBlob (5 * 1024 * 1024) "audio/webm") (optionsFor 60 true))
      = Js.Resolved segments /\
    contiguous segments /\
    getCurrentTranscription segments 40 = Some s /\
    startTime s <= 40 /\ 40 <= endTime s.
Proof.
  apply (direct_transcript_always_has_a_caption (constantRandom (1 # 2)) []
           (Js.mkBlob (5 * 1024 * 1024) "audio/webm") (optionsFor 60 true) 40
           halves_in_unit_interval).
  - reflexivity.
  - reflexivity.
  - discriminate.
  - discriminate.
Defined.

End Viewing.

(* --------------------------------------------------------------------- *)
(** ** Extracting the audio for the page *)
(* --------------------------------------------------------------------- *)

Section ExtractionForThePage.
Import Compression Extract.

(** The outcome of [extractAudioFromVideo], from that of [extractAudioOnly]. *)
Lemma extractAudioFromVideo_outcome env time file cb :
  snd (extractAudioFromVideo env time file cb)
  = match snd (extractAudioOnly env file cb) with
    | Js.Resolved blob => Js.Resolved blob
    | Js.Rejected e0 =>
        Js.Rejected
          (Js.newError (if Js.includes (Js.message e0) "memory"
                        then tooLargeMessage else corruptedMessage))
    | Js.Pending => Js.Pending
    end.
Proof.
  unfold extractAudioFromVideo.
  destruct (extractAudioOnly env file cb) as [t o].
  destruct o as [blob|e0|]; [destruct cb; reflexivity| |destruct cb; reflexivity].
  assert (Hor : Js.includes (Js.message e0) "out of memory"
                || Js.includes (Js.message e0) "memory"
                = Js.includes (Js.message e0) "memory").
  { destruct (Js.includes (Js.message e0) "out of memory") eqn:E;
      [|reflexivity].
    now rewrite (includes_out_of_memory _ E). }
  destruct cb; cbn -[Js.includes tooLargeMessage corruptedMessage];
    rewrite Hor; now destruct (Js.includes (Js.message e0) "memory").
Qed.


(** X21. When [extractAudioFromVideo] fails, both extractors have failed,
    and the message shown is chosen from the engine's failure alone: the
    ["File too large"] message if the wrapped engine message mentions
    ["memory"], the ["corrupted or unsupported"] one otherwise.  Why the
    native extractor failed plays no part. *)
Theorem extraction_failure_blames_the_engine env time file cb e :
  snd (extractAudioFromVideo env time file cb) = Js.Rejected e ->
  exists nativeError engineMessage,
    snd (nativeBrowserAudioExtraction env file cb) = Js.Rejected nativeError /\
    snd (ffmpegAudioExtraction env file cb)
    = Js.Rejected
        (Js.newError ("FFmpeg audio extraction failed: " ++ engineMessage)%string) /\
    e = Js.newError
          (if Js.includes ("FFmpeg audio extraction failed: " ++ engineMessage)
                          "memory"
           then tooLargeMessage else corruptedMessage).
Proof.
  rewrite extractAudioFromVideo_outcome. intros H.
  destruct (snd (nativeBrowserAudioExtraction env file cb)) as [b|ne|] eqn:En.
  - rewrite extractAudioOnly_native in H by (rewrite En; discriminate).
    cbn [snd] in H. rewrite En in H. discriminate H.
  - rewrite (extractAudioOnly_fallback env file cb ne En) in H. cbn [snd] in H.
    destruct (ffmpeg_outcome env file cb) as [Hok|[msg Hfail]].
    + rewrite Hok in H. discriminate H.
    + rewrite Hfail in H. exists ne, msg.
      split; [reflexivity|]. split; [exact Hfail|].
      cbn [Js.message Js.newError] in H. now injection H as <-.
  - rewrite extractAudioOnly_native in H by (rewrite En; discriminate).
    cbn [snd] in H. rewrite En in H. discriminate H.
Qed.

End ExtractionForThePage.

Section ExtractionForThePageSample.
Import Compression Extract.

(** X21 when the engine runs out of memory. *)
Lemma extraction_failure_blames_the_engine_witness :
  exists nativeError engineMessage,
    snd (nativeBrowserAudioExtraction outOfMemoryEnv sampleFile true)
    = Js.Rejected nativeError /\
    snd (ffmpegAudioExtraction outOfMemoryEnv sampleFile true)
    = Js.Rejected
        (Js.newError ("FFmpeg audio extraction failed: " ++ engineMessage)%string) /\
    Js.newError tooLargeMessage
    = Js.newError
        (if Js.includes ("FFmpeg audio extraction failed: " ++ engineMessage)
                        "memory"
         then tooLargeMessage else corruptedMessage).
Proof.
  exact (extraction_failure_blames_the_engine outOfMemoryEnv 2 sampleFile true
           (Js.newError tooLargeMessage) eq_refl).
Defined.

End ExtractionForThePageSample.

(* --------------------------------------------------------------------- *)
(** ** Saving a transcript *)
(* --------------------------------------------------------------------- *)

Section Saving.
Import Transcription Database Observed.

(** What [saveTranscription] does once the user is known. *)
Lemma saveTranscription_signed_in db metadata segments userId :
  authUser db = Some userId ->
  let row :=
    mkRow userId
      (Js.orElseStr (Some (title metadata)) (file_name metadata))
      (file_name metadata) (Database.duration metadata)
      (Js.orElseStr (Some (Database.language metadata)) "en-US")
      "completed" (file_size metadata) (file_type metadata) in
  insertedRows (fst (saveTranscription db metadata segments)) = [row] /\
  match insertTranscription db row with
  | inr err =>
      snd (saveTranscription db metadata segments) = Js.Rejected err /\
      insertedSegments (fst (saveTranscription db metadata segments)) = []
  | inl tid =>
      insertedSegments (fst (saveTranscription db metadata segments))
      = [map (segmentRow tid) segments] /\
      snd (saveTranscription db metadata segments)
      = match insertSegments db (map (segmentRow tid) segments) with
        | Some err => Js.Rejected err
        | None => Js.Resolved tid
        end
  end.
Proof.
  intros Huser row. unfold saveTranscription. rewrite Huser. fold row.
  destruct (insertTranscription db row) as [tid|err]; [|now split].
  destruct (insertSegments db (map (segmentRow tid) segments));
    repeat split.
Qed.

(** The wrapper adds its log line to a failure and nothing else. *)
Lemma saveTranscriptionToDatabase_run db file data options :
  data <> [] ->
  let inner := saveTranscription db (metadataOf file data options) data in
  snd (saveTranscriptionToDatabase db (Some file) (Some data) options)
  = snd inner /\
  insertedRows (fst (saveTranscriptionToDatabase db (Some file) (Some data)
                       options))
  = insertedRows (fst inner) /\
  insertedSegments (fst (saveTranscriptionToDatabase db (Some file) (Some data)
                           options))
  = insertedSegments (fst inner).
Proof.
  intros Hne inner. unfold saveTranscriptionToDatabase.
  destruct data as [|segment data]; [contradiction|].
  cbn [List.length Nat.eqb]. fold inner.
  destruct inner as [ops o]. cbn [fst snd].
  destruct o; cbn [fst snd]; repeat split.
  - unfold insertedRows. rewrite flat_map_app. cbn. now rewrite app_nil_r.
  - unfold insertedSegments. rewrite flat_map_app. cbn. now rewrite app_nil_r.
Qed.

(** X22. A save without a file, without segments, or by a signed-out user is
    refused before anything is written: no row and no segment reaches the
    backend, and without a file or segments the backend is not even asked
    who the user is. *)
Theorem save_refused_writes_nothing db videoFile data options :
  videoFile = None \/ Requests.missingData data = true \/ authUser db = None ->
  let run := saveTranscriptionToDatabase db videoFile data options in
  let incomplete :=
    match videoFile with
    | None => true
    | Some _ => Requests.missingData data
    end in
  snd run
  = Js.Rejected
      (Js.newError (if incomplete
                    then "Missing required data for saving transcription"
                    else "User not authenticated")) /\
  insertedRows (fst run) = [] /\ insertedSegments (fst run) = [] /\
  (incomplete = true -> touchesBackend (fst run) = false).
Proof.
  intros H run incomplete. unfold run, incomplete, Requests.missingData in *.
  unfold saveTranscriptionToDatabase.
  destruct videoFile as [file|]; [|repeat split].
  destruct data as [data|]; [|repeat split].
  destruct data as [|segment data]; [repeat split|].
  cbn [List.length Nat.eqb] in *.
  destruct H as [H|[H|H]]; [discriminate H | discriminate H|].
  unfold saveTranscription. rewrite H. cbn. repeat split. discriminate.
Qed.

(** The latest end time is at least every end time, and is 0 or one of them. *)
Lemma latestEnd_from (l : list Segment) (start : Q) :
  let latest :=
    fold_left (fun max segment => Qmax max (endTime segment)) l start in
  start <= latest /\ Forall (fun s => endTime s <= latest) l /\
  (latest == start \/ exists s, In s l /\ latest == endTime s).
Proof.
  revert start. induction l as [|s l IH]; intros start; cbn [fold_left].
  - split; [apply Qle_refl|]. split; [constructor | left; reflexivity].
  - destruct (IH (Qmax start (endTime s))) as (Hge & Hall & Hwhich).
    pose proof (Q.le_max_l start (endTime s)) as Hl.
    pose proof (Q.le_max_r start (endTime s)) as Hr.
    cbv zeta. split; [lra|]. split.
    + constructor; [lra | exact Hall].
    + destruct Hwhich as [Heq|(s' & Hin & Heq)].
      * destruct (Q.max_spec start (endTime s)) as [[_ Hm]|[_ Hm]].
        -- right. exists s. split; [now left|]. now rewrite Heq.
        -- left. now rewrite Heq.
      * right. exists s'. split; [now right | exact Heq].
Qed.

Lemma latestEnd_proper (l : list Segment) (a b : Q) :
  a == b ->
  fold_left (fun max segment => Qmax max (endTime segment)) l a
  == fold_left (fun max segment => Qmax max (endTime segment)) l b.
Proof.
  revert a b. induction l as [|s l IH]; intros a b Hab; [exact Hab|].
  cbn [fold_left]. apply IH.
  destruct (Q.max_spec a (endTime s)) as [[Ha ->]|[Ha ->]];
  destruct (Q.max_spec b (endTime s)) as [[Hb ->]|[Hb ->]];
    try reflexivity; try exact Hab; lra.
Qed.

(** In time order the latest end is the end of the last segment. *)
Lemma latestEnd_last (l : list Segment) (start : Q) :
  timeOrdered l -> Forall (fun s => startTime s < endTime s) l ->
  match l with [] => True | s :: _ => start <= endTime s end ->
  fold_left (fun max segment => Qmax max (endTime segment)) l start
  == finalTime l start.
Proof.
  revert start. induction l as [|s l IH]; intros start Ho Hw Hs;
    [reflexivity|].
  cbn [fold_left]. rewrite finalTime_cons.
  apply timeOrdered_cons in Ho. destruct Ho as [Hhead Ho].
  apply Forall_cons_iff in Hw. destruct Hw as [Hws Hw].
  assert (Hmax : Qmax start (endTime s) == endTime s)
    by (apply Q.max_r; exact Hs).
  assert (Hnext : match l with [] => True | s' :: _ => endTime s <= endTime s' end).
  { destruct l as [|s' l]; [exact I|].
    apply Forall_cons_iff in Hw. destruct Hw as [Hw' _]. lra. }
  rewrite <- (IH (endTime s) Ho Hw Hnext).
  now apply latestEnd_proper.
Qed.

(** X23. The save is not atomic: with a signed-in user, when the backend
    takes the transcription row and then refuses the segments, the promise
    rejects with the backend's error and the row stays inserted; nothing
    withdraws it. *)
Theorem refused_segments_leave_the_row
    db file data options userId tid err :
  data <> [] ->
  authUser db = Some userId ->
  (forall row, insertTranscription db row = inl tid) ->
  insertSegments db (map (segmentRow tid) data) = Some err ->
  let run := saveTranscriptionToDatabase db (Some file) (Some data) options in
  snd run = Js.Rejected err /\
  List.length (insertedRows (fst run)) = 1%nat /\
  insertedSegments (fst run) = [map (segmentRow tid) data].
Proof.
  intros Hne Huser Hrow Hseg run. unfold run.
  destruct (saveTranscriptionToDatabase_run db file data options Hne)
    as (-> & -> & ->).
  destruct (saveTranscription_signed_in db (metadataOf file data options) data
              userId Huser) as [-> Hrest].
  rewrite Hrow in Hrest. destruct Hrest as [-> ->]. rewrite Hseg.
  repeat split.
Qed.

(** X24. When the save returns, it returns the id the backend gave the
    transcription row; that one row carries the user, the file's name, size
    and type, the status ["completed"] and a title and a language that are
    not empty (the title falls back to the name up to its first dot, then
    to the whole name); and one batch of segment rows was inserted, one row
    per segment in order, each pointing at that id. *)
Theorem save_stores_one_row_and_every_segment db file data options tid :
  Js.name file <> ""%string ->
  snd (saveTranscriptionToDatabase db (Some file) (Some data) options)
  = Js.Resolved tid ->
  exists userId row,
    authUser db = Some userId /\
    insertTranscription db row = inl tid /\
    insertedRows (fst (saveTranscriptionToDatabase db (Some file) (Some data)
                         options)) = [row] /\
    row_user_id row = userId /\ row_file_name row = Js.name file /\
    row_file_size row = Js.size file /\ row_file_type row = Js.type file /\
    row_status row = "completed"%string /\
    row_title row <> ""%string /\ row_language row <> ""%string /\
    insertedSegments (fst (saveTranscriptionToDatabase db (Some file)
                             (Some data) options))
    = [map (segmentRow tid) data] /\
    map start_time (map (segmentRow tid) data) = map startTime data /\
    map end_time (map (segmentRow tid) data) = map endTime data /\
    map row_text (map (segmentRow tid) data) = map text data /\
    Forall (fun r => transcription_id r = tid) (map (segmentRow tid) data).
Proof.
  intros Hname Hrun.
  assert (Hne : data <> []).
  { intros ->. discriminate Hrun. }
  destruct (saveTranscriptionToDatabase_run db file data options Hne)
    as (Ho & Hrows & Hsegs).
  rewrite Ho in Hrun. rewrite Hrows, Hsegs. clear Ho Hrows Hsegs.
  destruct (authUser db) as [userId|] eqn:Huser.
  2:{ unfold saveTranscription in Hrun. rewrite Huser in Hrun.
      discriminate Hrun. }
  destruct (saveTranscription_signed_in db (metadataOf file data options) data
              userId Huser) as [Hrows Hrest].
  set (row := mkRow userId _ _ _ _ _ _ _) in *.
  destruct (insertTranscription db row) as [tid'|err] eqn:Hins.
  2:{ destruct Hrest as [Hrej _]. rewrite Hrej in Hrun. discriminate Hrun. }
  destruct Hrest as [Hsegs Hout]. rewrite Hout in Hrun.
  destruct (insertSegments db (map (segmentRow tid') data)); [discriminate Hrun|].
  injection Hrun as ->.
  exists userId, row. rewrite Hrows, Hsegs.
  repeat split; try assumption.
  - (* the title *)
    unfold row. cbn [row_title metadataOf title file_name].
    unfold Js.orElseStr.
    destruct (opt_title options) as [t|].
    + destruct t as [|c t]; cbn [String.length Nat.eqb].
      * destruct (Js.beforeDot (Js.name file)) as [|c b];
          cbn [String.length Nat.eqb]; [exact Hname | discriminate].
      * discriminate.
    + destruct (Js.beforeDot (Js.name file)) as [|c b];
        cbn [String.length Nat.eqb]; [exact Hname | discriminate].
  - (* the language *)
    unfold row. cbn [row_language metadataOf Database.language].
    unfold Js.orElseStr.
    destruct (opt_language options) as [l|].
    + destruct l as [|c l]; cbn [String.length Nat.eqb]; discriminate.
    + cbn [String.length Nat.eqb]. discriminate.
  - now rewrite map_map.
  - now rewrite map_map.
  - now rewrite map_map.
  - apply Forall_forall. intros r Hin. apply in_map_iff in Hin.
    now destruct Hin as (s & <- & _).
Qed.

(** X25. Saved without a duration (or with 0), a transcript gets as its
    duration the latest end time of its segments: no segment ends later, and
    for segments in time order it is the end of the last one. *)
Theorem stored_duration_defaults_to_the_latest_end
    db file data options userId :
  data <> [] ->
  authUser db = Some userId ->
  Js.orElse (opt_duration options) 0 == 0 ->
  exists row,
    insertedRows (fst (saveTranscriptionToDatabase db (Some file) (Some data)
                         options)) = [row] /\
    row_duration row = latestEnd data /\
    Forall (fun s => endTime s <= row_duration row) data /\
    (timeOrdered data -> Forall (fun s => startTime s < endTime s) data ->
     Forall (fun s => 0 <= startTime s) data ->
     row_duration row == finalTime data 0).
Proof.
  intros Hne Huser Hdur.
  destruct (saveTranscriptionToDatabase_run db file data options Hne)
    as (_ & -> & _).
  destruct (saveTranscription_signed_in db (metadataOf file data options) data
              userId Huser) as [-> _].
  eexists. split; [reflexivity|].
  cbn [row_duration metadataOf Database.duration].
  assert (Hdefault : Js.orElse (opt_duration options) (latestEnd data)
                     = latestEnd data).
  { unfold Js.orElse in *. destruct (opt_duration options) as [d|];
      [|reflexivity].
    unfold Js.truthy in *. destruct (Qeq_bool d 0) eqn:E; [reflexivity|].
    cbn [negb] in Hdur. apply Qeq_bool_neq in E. contradiction. }
  rewrite Hdefault. split; [reflexivity|].
  destruct (latestEnd_from data 0) as (_ & Hall & _).
  split; [exact Hall|].
  intros Ho Hw Hs. unfold latestEnd. apply latestEnd_last; try assumption.
  destruct data as [|s data]; [exact I|].
  apply Forall_cons_iff in Hw. destruct Hw as [Hw _].
  apply Forall_cons_iff in Hs. destruct Hs as [Hs _]. lra.
Qed.

(** X26. What [saveTranscriptionToDatabase] works out about large files and
    compression never reaches the backend: two saves that differ only in
    [compressionApplied] and [originalSize] do the same, and the inner save
    of two metadata objects that agree on title, file and duration does the
    same whatever their large-file fields hold. *)
Theorem compression_details_are_not_stored
    db file data title_ duration_ language_ applied applied' size_ size_'
    (m m' : Metadata) segments :
  saveTranscriptionToDatabase db file data
    (mkSaveOptions title_ duration_ language_ applied size_)
  = saveTranscriptionToDatabase db file data
      (mkSaveOptions title_ duration_ language_ applied' size_') /\
  (title m = title m' -> file_name m = file_name m' ->
   Database.duration m = Database.duration m' ->
   Database.language m = Database.language m' ->
   file_size m = file_size m' -> file_type m = file_type m' ->
   saveTranscription db m segments = saveTranscription db m' segments).
Proof.
  split.
  - unfold saveTranscriptionToDatabase.
    destruct file as [file|]; [|reflexivity].
    destruct data as [data|]; [|reflexivity].
    destruct (List.length data =? 0)%nat; reflexivity.
  - intros Ht Hn Hd Hl Hs Hty. unfold saveTranscription.
    now rewrite Ht, Hn, Hd, Hl, Hs, Hty.
Qed.

End Saving.

Section SavingSample.
Import Transcription Database Observed.

(** X22 for a signed-out user. *)
Lemma save_refused_writes_nothing_witness :
  snd (saveTranscriptionToDatabase signedOutDb (Some Compression.sampleFile)
         (Some Exports.twoSegments) noOptions)
  = Js.Rejected (Js.newError "User not authenticated") /\
  insertedRows
    (fst (saveTranscriptionToDatabase signedOutDb (Some Compression.sampleFile)
            (Some Exports.twoSegments) noOptions)) = [].
Proof.
  destruct (save_refused_writes_nothing signedOutDb
              (Some Compression.sampleFile) (Some Exports.twoSegments) noOptions
              (or_intror (or_intror eq_refl)))
    as (Hout & Hrows & _).
  split; [exact Hout | exact Hrows].
Defined.

(** X23 when the segments table refuses the batch. *)
Lemma refused_segments_leave_the_row_witness :
  snd (saveTranscriptionToDatabase segmentsRefusedDb
         (Some Compression.sampleFile) (Some Exports.twoSegments) noOptions)
  = Js.Rejected (Js.newError "new row violates row-level security") /\
  List.length
    (insertedRows
       (fst (saveTranscriptionToDatabase segmentsRefusedDb
               (Some Compression.sampleFile) (Some Exports.twoSegments)
               noOptions))) = 1%nat.
Proof.
  destruct (refused_segments_leave_the_row segmentsRefusedDb
              Compression.sampleFile Exports.twoSegments noOptions
              "user-1" 7 (Js.newError "new row violates row-level security"))
    as (Hout & Hrows & _).
  - discriminate.
  - reflexivity.
  - reflexivity.
  - reflexivity.
  - split; [exact Hout | exact Hrows].
Defined.

(** X24 for [talk.mp4] and two segments. *)
Lemma save_stores_one_row_and_every_segment_witness :
  exists userId row,
    authUser sampleDb = Some userId /\
    insertedRows
      (fst (saveTranscriptionToDatabase sampleDb (Some Compression.sampleFile)
              (Some Exports.twoSegments) noOptions)) = [row] /\
    row_title row <> ""%string.
Proof.
  destruct (save_stores_one_row_and_every_segment sampleDb
              Compression.sampleFile Exports.twoSegments noOptions 7)
    as (userId & row & Huser & _ & Hrows & _ & _ & _ & _ & _ & Htitle & _).
  - discriminate.
  - reflexivity.
  - exists userId, row. repeat split; assumption.
Defined.

(** X25 for two segments ending at 8 and 16 seconds. *)
Lemma stored_duration_defaults_to_the_latest_end_witness :
  exists row,
    insertedRows
      (fst (saveTranscriptionToDatabase sampleDb (Some Compression.sampleFile)
              (Some Exports.twoSegments) noOptions)) = [row] /\
    row_duration row = latestEnd Exports.twoSegments.
Proof.
  destruct (stored_duration_defaults_to_the_latest_end sampleDb
              Compression.sampleFile Exports.twoSegments noOptions "user-1")
    as (row & Hrows & Hdur & _).
  - discriminate.
  - reflexivity.
  - reflexivity.
  - exists row. split; [exact Hrows | exact Hdur].
Defined.

End SavingSample.

(* --------------------------------------------------------------------- *)
(** ** The page: one transcription run *)
(* --------------------------------------------------------------------- *)

Section PageRun.
Import Transcription Compression Extract Page Observed.

Lemma bar_app u1 u2 : bar (u1 ++ u2) = bar u1 ++ bar u2.
Proof. apply flat_map_app. Qed.

Lemma transcripts_app u1 u2 :
  transcripts (u1 ++ u2) = transcripts u1 ++ transcripts u2.
Proof. apply flat_map_app. Qed.

Lemma errorsShown_app u1 u2 :
  errorsShown (u1 ++ u2) = errorsShown u1 ++ errorsShown u2.
Proof. apply flat_map_app. Qed.

Lemma busy_app u1 u2 : busy (u1 ++ u2) = busy u1 ++ busy u2.
Proof. apply flat_map_app. Qed.

(** The bar during the extraction: 40% of the reported percentage, at
    most 40. *)
Lemma bar_through_extraction trace :
  bar (through audioExtractionCallback trace)
  = map (fun p => Qmin (p * (4 # 10)) 40) (Js.percents trace).
Proof.
  induction trace as [|ev t IH]; [reflexivity|].
  unfold through. cbn [flat_map]. fold (through audioExtractionCallback t).
  rewrite bar_app, IH. now destruct ev.
Qed.


(** The callbacks set neither a transcript nor an error nor the busy flag. *)
Lemma through_quiet callback trace :
  callback = audioExtractionCallback \/ callback = transcriptionCallback ->
  transcripts (through callback trace) = [] /\
  errorsShown (through callback trace) = [] /\
  busy (through callback trace) = [].
Proof.
  intros Hcb. induction trace as [|ev t (IH1 & IH2 & IH3)]; [repeat split|].
  unfold through. cbn [flat_map]. fold (through callback t).
  rewrite transcripts_app, errorsShown_app, busy_app, IH1, IH2, IH3.
  destruct ev; try (repeat split; fail).
  destruct Hcb as [-> | ->]; unfold transcriptionCallback;
    try destruct (String.length stage =? 0)%nat; repeat split.
Qed.

(** The audio step sets the bar to 40 at most and nothing else of note. *)
Lemma audioStep_quiet env time file isAudioOnly :
  transcripts (fst (audioStep env time file isAudioOnly)) = [] /\
  errorsShown (fst (audioStep env time file isAudioOnly)) = [] /\
  busy (fst (audioStep env time file isAudioOnly)) = [] /\
  Forall (fun p => p <= 40) (bar (fst (audioStep env time file isAudioOnly))).
Proof.
  unfold audioStep. destruct isAudioOnly; cbn [fst].
  - repeat split. repeat constructor. apply Qle_refl.
  - destruct (through_quiet audioExtractionCallback
                (fst (extractAudioFromVideo env time file true))
                (or_introl eq_refl)) as (-> & -> & ->).
    repeat split. rewrite bar_through_extraction.
    apply Forall_forall. intros p Hin. apply in_map_iff in Hin.
    destruct Hin as (q & <- & _). apply Q.le_min_r.
Qed.

(** X27. A run of [startTranscription] on a file never throws.  If it
    settles, the page is idle again and shows one of two things: the
    transcript, with no error and the bar at 100; or one error that starts
    with ["Transcription failed: "], with no transcript and the bar at 50 or
    below.  If it does not settle, the page stays busy and shows neither. *)
Theorem page_run_ends_with_transcript_or_error
    env time random elapsed stored file isAudioOnly videoDuration :
  let run := startTranscription env time random elapsed stored (Some file)
               isAudioOnly videoDuration in
  match snd run with
  | Js.Resolved _ =>
      busyAtEnd (fst run) = false /\
      ((exists result,
          transcripts (fst run) = [result] /\ errorsShown (fst run) = [] /\
          last (bar (fst run)) 0 = 100) \/
       (exists msg,
          transcripts (fst run) = [] /\
          errorsShown (fst run) = [("Transcription failed: " ++ msg)%string] /\
          Forall (fun p => p <= 50) (bar (fst run))))
  | Js.Pending =>
      busyAtEnd (fst run) = true /\
      transcripts (fst run) = [] /\ errorsShown (fst run) = []
  | Js.Rejected _ => False
  end.
Proof.
  intros run. unfold run, startTranscription.
  destruct (audioStep_quiet env time file isAudioOnly)
    as (Htr & Her & Hbu & Hbar).
  assert (Hbar50 : Forall (fun p => p <= 50)
                     (bar (fst (audioStep env time file isAudioOnly)))).
  { eapply Forall_impl; [|exact Hbar]. intros p Hp. cbv beta in *. lra. }
  destruct (audioStep env time file isAudioOnly) as [au ao].
  cbn [fst snd] in *.
  assert (Hfailed : forall updates err,
            transcripts updates = [] -> errorsShown updates = [] ->
            Forall (fun p => p <= 50) (bar updates) ->
            let r := failed updates err in
            busyAtEnd (fst r) = false /\
            ((exists result,
                transcripts (fst r) = [result] /\ errorsShown (fst r) = [] /\
                last (bar (fst r)) 0 = 100) \/
             (exists msg,
                transcripts (fst r) = [] /\
                errorsShown (fst r) = [("Transcription failed: " ++ msg)%string] /\
                Forall (fun p => p <= 50) (bar (fst r))))).
  { intros updates err Ht He Hb r. unfold r, failed. cbn [fst]. split.
    - unfold busyAtEnd. rewrite busy_app.
      change (busy [Did _; SetError _; SetIsTranscribing false]) with [false].
      now rewrite (last_app_cons _ false [] false).
    - right. exists (Js.message err).
      rewrite transcripts_app, errorsShown_app, bar_app, Ht, He.
      cbn -[String.append]. rewrite app_nil_r. repeat split. exact Hb. }
  destruct ao as [blob|err|].
  - (* the audio is there *)
    set (staged := _ ++ au ++ [_; SetProgress 50]).
    assert (Hst : transcripts staged = [] /\ errorsShown staged = [] /\
                  Forall (fun p => p <= 50) (bar staged)).
    { unfold staged.
      rewrite !transcripts_app, !errorsShown_app, !bar_app, Htr, Her.
      repeat split. cbn [bar flat_map app].
      constructor; [discriminate|]. apply Forall_app. split; [exact Hbar50|].
      repeat constructor. apply Qle_refl. }
    destruct Hst as (Hst1 & Hst2 & Hst3).
    destruct stored as [|msg|language model].
    + cbv zeta. rewrite transcribeAudio_outcome. cbn [fst snd]. split.
      * unfold busyAtEnd. rewrite busy_app.
        now rewrite (last_app_cons _ false [] false).
      * left. eexists.
        destruct (through_quiet transcriptionCallback
                    (fst (transcribeAudio random elapsed blob
                            (transcriptionOptions NotStored videoDuration)))
                    (or_intror eq_refl)) as (Ht & He & _).
        rewrite !transcripts_app, !errorsShown_app, !bar_app, Ht, He, Hst1, Hst2.
        split; [reflexivity|]. split; [reflexivity|].
        change (bar [SetProgress 95; _; _; SetProgress 100; _; _; _])
          with [95; 100].
        now rewrite (last_app_cons _ 95 [100] 0).
    + apply Hfailed; assumption.
    + cbv zeta. rewrite transcribeAudio_outcome. cbn [fst snd]. split.
      * unfold busyAtEnd. rewrite busy_app.
        now rewrite (last_app_cons _ false [] false).
      * left. eexists.
        destruct (through_quiet transcriptionCallback
                    (fst (transcribeAudio random elapsed blob
                            (transcriptionOptions (Stored language model)
                                                  videoDuration)))
                    (or_intror eq_refl)) as (Ht & He & _).
        rewrite !transcripts_app, !errorsShown_app, !bar_app, Ht, He, Hst1, Hst2.
        split; [reflexivity|]. split; [reflexivity|].
        change (bar [SetProgress 95; _; _; SetProgress 100; _; _; _])
          with [95; 100].
        now rewrite (last_app_cons _ 95 [100] 0).
  - (* the extraction failed *)
    apply Hfailed.
    + now rewrite transcripts_app, Htr.
    + now rewrite errorsShown_app, Her.
    + rewrite bar_app. cbn [bar flat_map app].
      constructor; [discriminate | exact Hbar50].
  - (* the extraction never settles *)
    cbn [fst snd]. unfold busyAtEnd.
    rewrite busy_app, transcripts_app, errorsShown_app, Htr, Her, Hbu.
    repeat split.
Qed.






(** A value followed, anywhere later, by a smaller one. *)
Lemma not_nondecreasing_drop (pre mid post : list Q) (x y : Q) :
  y < x -> ~ Js.nondecreasing (pre ++ x :: mid ++ y :: post).
Proof.
  intros Hyx. induction pre as [|z pre IH]; intros H.
  - apply nondecreasing_head in H. rewrite Forall_forall in H.
    assert (Hin : In y (mid ++ y :: post)) by (apply in_or_app; right; now left).
    specialize (H y Hin). cbv beta in H. lra.
  - change ((z :: pre) ++ x :: mid ++ y :: post)
      with (z :: (pre ++ x :: mid ++ y :: post)) in H.
    apply nondecreasing_cons in H. destruct H as [_ H]. exact (IH H).
Qed.

(** Whatever comes of it, a run's bar starts with 0 and the audio step. *)
Lemma startTranscription_bar_prefix
    env time random elapsed stored file isAudioOnly videoDuration :
  exists rest,
    bar (fst (startTranscription env time random elapsed stored (Some file)
                isAudioOnly videoDuration))
    = 0 :: bar (fst (audioStep env time file isAudioOnly)) ++ rest.
Proof.
  unfold startTranscription.
  destruct (audioStep env time file isAudioOnly) as [au ao]. cbn [fst snd].
  destruct ao as [blob|err|].
  - destruct stored as [|msg|language model]; cbv zeta.
    2:{ unfold failed. cbn [fst]. rewrite !bar_app. cbn [bar flat_map app].
        rewrite <- !app_assoc. eexists. reflexivity. }
    all: destruct (snd (transcribeAudio _ _ _ _)); unfold failed; cbn [fst];
      rewrite !bar_app; cbn [bar flat_map app]; rewrite <- !app_assoc;
      eexists; reflexivity.
  - unfold failed. cbn [fst]. rewrite !bar_app. cbn [bar flat_map app].
    eexists. reflexivity.
  - cbn [fst]. rewrite bar_app. cbn [bar flat_map app].
    exists []. now rewrite app_nil_r.
Qed.

(** The reports of [extractAudioFromVideo], whatever its outcome. *)
Lemma extractAudioFromVideo_reports env time file :
  Js.percents (fst (extractAudioFromVideo env time file true))
  = 5 :: Js.percents (fst (extractAudioOnly env file true)).
Proof.
  unfold extractAudioFromVideo.
  destruct (extractAudioOnly env file true) as [t o].
  destruct o as [blob|e0|];
    unfold Js.percents, Js.throw, Js.console, Js.emit, Js.try_catch, Js.bind;
    cbn -[String.append]; rewrite ?flat_map_app;
    try match goal with
        | |- context [if ?c then _ else _] => destruct c
        end;
    cbn -[String.append]; rewrite ?app_nil_r; reflexivity.
Qed.

(** Once loaded, the engine's first report is 20. *)
Lemma ffmpeg_first_report env file :
  snd (ensureFFmpegLoaded env) = Js.Resolved tt ->
  exists rest,
    Js.percents (fst (ffmpegAudioExtraction env file true)) = 20 :: rest.
Proof.
  unfold ffmpegAudioExtraction, ensureFFmpegLoaded.
  destruct (ffmpeg env) as [il lf wf rf rdf uf ob].
  destruct il, lf, wf, rf, rdf, uf; cbn -[String.append];
    intros H; try discriminate H; eexists; reflexivity.
Qed.

(** X29. When the native extractor fails at the recorder or at playback,
    after its 30% report, and the engine is loaded, the progress bar of the
    page goes back: it has reached 12 and then shows 8. *)
Theorem page_progress_goes_back_on_fallback
    env time random elapsed stored file videoDuration :
  (exists msg, native env = RecorderThrows msg) \/
  (exists e, native env = PlayRejected e) ->
  snd (ensureFFmpegLoaded env) = Js.Resolved tt ->
  let shown :=
    bar (fst (startTranscription env time random elapsed stored (Some file)
                false videoDuration)) in
  (exists pre post,
     shown = pre ++ Qmin (30 * (4 # 10)) 40 :: Qmin (20 * (4 # 10)) 40 :: post) /\
  ~ Js.nondecreasing shown.
Proof.
  intros Hnative Hload shown.
  assert (Hnat : exists ne,
            snd (nativeBrowserAudioExtraction env file true) = Js.Rejected ne /\
            nativePercents env = [10; 20; 30]).
  { rewrite native_outcome. unfold nativeOutcome, nativePercents.
    destruct Hnative as [[msg ->]|[e ->]]; eexists; split; reflexivity. }
  destruct Hnat as (ne & Hrej & Hps).
  destruct (ffmpeg_first_report env file Hload) as [engine Hengine].
  assert (Hreports : Js.percents (fst (extractAudioFromVideo env time file true))
                     = [5; 5; 10; 20; 30] ++ 20 :: engine).
  { rewrite extractAudioFromVideo_reports.
    rewrite (extractAudioOnly_fallback env file true ne Hrej). cbn [fst].
    rewrite !percents_app, native_percents, Hps, Hengine. reflexivity. }
  destruct (startTranscription_bar_prefix env time random elapsed stored file
              false videoDuration) as [rest Hbar].
  assert (Hshown : shown
            = [0; Qmin (5 * (4 # 10)) 40; Qmin (5 * (4 # 10)) 40;
               Qmin (10 * (4 # 10)) 40; Qmin (20 * (4 # 10)) 40]
              ++ Qmin (30 * (4 # 10)) 40
              :: [] ++ Qmin (20 * (4 # 10)) 40
              :: (map (fun p => Qmin (p * (4 # 10)) 40) engine ++ rest)).
  { unfold shown. rewrite Hbar. unfold audioStep. cbn [fst].
    rewrite bar_through_extraction, Hreports. reflexivity. }
  split.
  - exists [0; Qmin (5 * (4 # 10)) 40; Qmin (5 * (4 # 10)) 40;
            Qmin (10 * (4 # 10)) 40; Qmin (20 * (4 # 10)) 40],
           (map (fun p => Qmin (p * (4 # 10)) 40) engine ++ rest).
    exact Hshown.
  - rewrite Hshown. apply not_nondecreasing_drop. reflexivity.
Qed.

End PageRun.

Section PageRunSample.
Import Transcription Compression Extract Page Observed.


(** X29 when the recorder refuses to start. *)
Lemma page_progress_goes_back_on_fallback_witness :
  ~ Js.nondecreasing
      (bar (fst (startTranscription recorderThrowsEnv 2 (constantRandom (1 # 2))
                   [] NotStored (Some sampleFile) false 60))).
Proof.
  refine (proj2 (page_progress_goes_back_on_fallback recorderThrowsEnv 2
                   (constantRandom (1 # 2)) [] NotStored sampleFile 60 _ _)).
  - left. now exists "NotSupportedError"%string.
  - reflexivity.
Defined.

End PageRunSample.

(* --------------------------------------------------------------------- *)
(** ** From the compression panel to the transcription *)
(* --------------------------------------------------------------------- *)

Section PanelToPage.
Import Transcription Compression CompressionPanel.

Variable compressVideo : Js.File -> CompressionSettings -> Js.Async Compressed.
Variable numberToString : option Q -> string.

Lemma completions_app u1 u2 :
  completions (u1 ++ u2) = completions u1 ++ completions u2.
Proof. apply flat_map_app. Qed.

Lemma completions_through trace : completions (through trace) = [].
Proof.
  induction trace as [|ev t IH]; [reflexivity|].
  unfold through. cbn [flat_map]. fold (through t).
  rewrite completions_app, IH. now destruct ev.
Qed.

(** X30. When the panel, in audio mode, hands a file to the page, that file
    holds the audio [extractAudioOnly] returned, under the video's name with
    its extension replaced by [_audio.webm], whatever the audio's type: it
    is typed audio/mp3 when the native extractor had failed and the engine
    made it.  The page marks it audio-only, so the transcription that
    follows uses it as it is: the run does not depend on the browser's
    extractors, and its bar starts at 0 and 40. *)
Theorem extracted_audio_is_transcribed_as_it_is
    env seconds settings videoFile file results random elapsed stored d :
  In (file, results)
     (completions
        (fst (startCompression compressVideo numberToString env seconds audio
                settings videoFile))) ->
  exists audioBlob,
    snd (extractAudioOnly env videoFile true) = Js.Resolved audioBlob /\
    Js.name file = (stripExtension (Js.name videoFile) ++ "_audio.webm")%string /\
    Js.size file = Js.blobSize audioBlob /\
    (forall e,
       snd (nativeBrowserAudioExtraction env videoFile true) = Js.Rejected e ->
       Js.type file = "audio/mp3"%string) /\
    handleCompressionComplete file results = (file, true) /\
    (forall env' time',
       Page.startTranscription env' time' random elapsed stored (Some file)
         (snd (handleCompressionComplete file results)) d
       = Page.startTranscription env seconds random elapsed stored (Some file)
           (snd (handleCompressionComplete file results)) d) /\
    exists rest,
      Page.bar (fst (Page.startTranscription env seconds random elapsed stored
                       (Some file)
                       (snd (handleCompressionComplete file results)) d))
      = 0 :: 40 :: rest.
Proof.
  intros Hin. unfold startCompression in Hin. cbv zeta in Hin.
  pose proof (extractAudioOnly_fallback env videoFile true) as Hfallback.
  pose proof (ffmpeg_outcome env videoFile true) as Hengine.
  destruct (extractAudioOnly env videoFile true) as [t o]. cbn [fst snd] in *.
  destruct o as [audioBlob|err|]; cbn [fst snd] in Hin;
    rewrite !completions_app, completions_through in Hin;
    cbn -[String.append] in Hin; try contradiction.
  destruct Hin as [Hin|[]]. injection Hin as <- <-.
  exists audioBlob. split; [reflexivity|]. split; [reflexivity|].
  split; [reflexivity|]. split; [|split; [reflexivity|]].
  - intros e He. specialize (Hfallback e He).
    injection Hfallback as _ Hblob.
    destruct Hengine as [Hok|[msg Hfail]].
    + rewrite Hok in Hblob. injection Hblob as ->. reflexivity.
    + rewrite Hfail in Hblob. discriminate Hblob.
  - cbn [handleCompressionComplete audioOnly orb snd]. split; [reflexivity|].
    match goal with
    | |- exists rest,
           Page.bar (fst (Page.startTranscription _ _ _ _ _ (Some ?f) _ _)) = _ =>
        destruct (startTranscription_bar_prefix env seconds random elapsed
                    stored f true d) as [rest Hbar]
    end.
    rewrite Hbar. cbn. eexists. reflexivity.
Qed.

End PanelToPage.

Section PanelToPageSample.
Import Transcription Compression CompressionPanel.

(** X30 when the recorder refuses to start and the engine makes the audio:
    [talk_audio.webm], typed audio/mp3. *)
Lemma extracted_audio_is_transcribed_as_it_is_witness :
  exists audioBlob,
    snd (extractAudioOnly Page.recorderThrowsEnv sampleFile true)
    = Js.Resolved audioBlob /\
    Js.name (Js.mkFile 480000 "talk_audio.webm" "audio/mp3")
    = (stripExtension (Js.name sampleFile) ++ "_audio.webm")%string /\
    Js.size (Js.mkFile 480000 "talk_audio.webm" "audio/mp3")
    = Js.blobSize audioBlob.
Proof.
  destruct (extracted_audio_is_transcribed_as_it_is
              (fun _ _ => Js.never) (fun _ => "0"%string)
              Page.recorderThrowsEnv 2
              (getRecommendedCompressionSettings 0) sampleFile
              (Js.mkFile 480000 "talk_audio.webm" "audio/mp3")
              (mkResults (Js.mkBlob 480000 "audio/mp3") (50 * 1024 * 1024) 480000
                 (Some (toHundredths (inject_Z (50 * 1024 * 1024)
                                        / inject_Z 480000)))
                 (toHundredths (inject_Z (50 * 1024 * 1024 - 480000)
                                  / (1024 * 1024)))
                 true (Js.mkFile 480000 "talk_audio.webm" "audio/mp3") 2)
              (constantRandom (1 # 2)) [] Page.NotStored 60)
    as (audioBlob & Hblob & Hname & Hsize & _).
  - cbn. left. reflexivity.
  - exists audioBlob. repeat split; assumption.
Defined.

End PanelToPageSample.
